(** * The sequential timer of [src/App.tsx]: state machine and step list

    The React component [App] keeps the whole timer in [useState] variables
    and changes them from event handlers, from the one-second interval
    callback and from [useEffect] hooks.  The embedding follows React's
    update discipline:

    - a handler (or effect) is a closure over the state of the render it was
      created in.  It reads that snapshot, written [r] below, and queues
      updates; the updates act in the order in which they were queued on the
      pending state, written [p];
    - [setX(v)] replaces the pending value, [setX(prev => ..)] computes the
      new value from the pending one;
    - the updater functions queued by the interval callback make setter calls
      of their own.  React runs such an updater while it renders, on the
      value its variable held when the callback fired, and queues the calls
      it makes behind the value it returns.  The updaters run in the order
      in which the component declares their variables, [remainingTime]
      before [mainTimerRemainingTime];
    - when no update is pending on the component, as after a render that
      changed nothing, React instead runs the updater passed to the first
      setter at once, inside the callback: the calls that updater makes are
      then queued before the second updater, which runs at the render on
      what they left.  That schedule is [intervalCallbackEager]; the
      invariant of the two counters is proved for runs in which every tick
      takes either schedule;
    - after the render the effects whose dependencies changed are run, the
      child's ([CountdownDisplay]) before the parent's, and this is repeated
      until nothing changes any more.

    This is the behaviour of a production build: every updater runs once.
    A handler returns [None] where the JavaScript throws.

    JavaScript numbers are integers here ([Z]); [Date.now()] is an input of
    the events that read the clock.  [isModalOpen] and [isPresetsOpen] only
    show or hide markup and are left out.  The audio element is kept as the
    flag [isAlarmPlaying] and a counter of the calls of [play()]; the
    60-second time-out that ends an alarm is the event [StopAlarm]. *)

From Stdlib Require Import ZArith List String Bool Lia.
From stdpp Require Import base option list strings pretty gmap.
Import ListNotations.
Open Scope Z_scope.

(** ** Data model *)

Module TimerStep.
Record t := mk { id : Z; name : string; duration : Z }.
End TimerStep.

Module Preset.
Record t := mk { id : Z; name : string; steps : list TimerStep.t }.
End Preset.

Record AppState := mkApp {
  timerName : string;
  inputHours : Z;
  inputMinutes : Z;
  inputSeconds : Z;
  displayHours : Z;
  displayMinutes : Z;
  displaySeconds : Z;
  steps : list TimerStep.t;
  isRunning : bool;
  currentStepIndex : Z;
  remainingTime : Z;
  isMainTimerRunning : bool;
  mainTimerRemainingTime : Z;
  isPaused : bool;
  presets : list Preset.t;
  isAlarmPlaying : bool;
  isUsingSteps : bool;
  (* identity of the array held in [steps]: every [setSteps] stores a new
     array, which the dependency lists of the effects tell apart *)
  stepsIdent : nat;
  (* [prevTimeRef.current] of CountdownDisplay *)
  prevTimeRef : Z * Z * Z;
  (* number of calls of [alarmAudioRef.current.play()] *)
  alarmPlays : nat;
  (* the collection under STORAGE_KEY in localStorage *)
  storage : list Preset.t
}.

(** An update of the pending state, and the queue of updates. *)
Definition Upd : Type := AppState -> AppState.

Definition skip : Upd := fun p => p.

Definition andThen (a b : Upd) : Upd := fun p => b (a p).

Notation "a >>> b" := (andThen a b) (at level 60, right associativity).

(** ** The setters of the state variables *)

Definition setTimerName (v : string) : Upd := fun p =>
  {| timerName := v; inputHours := inputHours p;
     inputMinutes := inputMinutes p; inputSeconds := inputSeconds p;
     displayHours := displayHours p; displayMinutes := displayMinutes p;
     displaySeconds := displaySeconds p; steps := steps p;
     isRunning := isRunning p; currentStepIndex := currentStepIndex p;
     remainingTime := remainingTime p;
     isMainTimerRunning := isMainTimerRunning p;
     mainTimerRemainingTime := mainTimerRemainingTime p;
     isPaused := isPaused p; presets := presets p;
     isAlarmPlaying := isAlarmPlaying p; isUsingSteps := isUsingSteps p;
     stepsIdent := stepsIdent p; prevTimeRef := prevTimeRef p;
     alarmPlays := alarmPlays p; storage := storage p |}.

Definition setInputHours (v : Z) : Upd := fun p =>
  {| timerName := timerName p; inputHours := v;
     inputMinutes := inputMinutes p; inputSeconds := inputSeconds p;
     displayHours := displayHours p; displayMinutes := displayMinutes p;
     displaySeconds := displaySeconds p; steps := steps p;
     isRunning := isRunning p; currentStepIndex := currentStepIndex p;
     remainingTime := remainingTime p;
     isMainTimerRunning := isMainTimerRunning p;
     mainTimerRemainingTime := mainTimerRemainingTime p;
     isPaused := isPaused p; presets := presets p;
     isAlarmPlaying := isAlarmPlaying p; isUsingSteps := isUsingSteps p;
     stepsIdent := stepsIdent p; prevTimeRef := prevTimeRef p;
     alarmPlays := alarmPlays p; storage := storage p |}.

Definition setInputMinutes (v : Z) : Upd := fun p =>
  {| timerName := timerName p; inputHours := inputHours p; inputMinutes := v;
     inputSeconds := inputSeconds p; displayHours := displayHours p;
     displayMinutes := displayMinutes p; displaySeconds := displaySeconds p;
     steps := steps p; isRunning := isRunning p;
     currentStepIndex := currentStepIndex p;
     remainingTime := remainingTime p;
     isMainTimerRunning := isMainTimerRunning p;
     mainTimerRemainingTime := mainTimerRemainingTime p;
     isPaused := isPaused p; presets := presets p;
     isAlarmPlaying := isAlarmPlaying p; isUsingSteps := isUsingSteps p;
     stepsIdent := stepsIdent p; prevTimeRef := prevTimeRef p;
     alarmPlays := alarmPlays p; storage := storage p |}.

Definition setInputSeconds (v : Z) : Upd := fun p =>
  {| timerName := timerName p; inputHours := inputHours p;
     inputMinutes := inputMinutes p; inputSeconds := v;
     displayHours := displayHours p; displayMinutes := displayMinutes p;
     displaySeconds := displaySeconds p; steps := steps p;
     isRunning := isRunning p; currentStepIndex := currentStepIndex p;
     remainingTime := remainingTime p;
     isMainTimerRunning := isMainTimerRunning p;
     mainTimerRemainingTime := mainTimerRemainingTime p;
     isPaused := isPaused p; presets := presets p;
     isAlarmPlaying := isAlarmPlaying p; isUsingSteps := isUsingSteps p;
     stepsIdent := stepsIdent p; prevTimeRef := prevTimeRef p;
     alarmPlays := alarmPlays p; storage := storage p |}.

Definition setDisplayHours (v : Z) : Upd := fun p =>
  {| timerName := timerName p; inputHours := inputHours p;
     inputMinutes := inputMinutes p; inputSeconds := inputSeconds p;
     displayHours := v; displayMinutes := displayMinutes p;
     displaySeconds := displaySeconds p; steps := steps p;
     isRunning := isRunning p; currentStepIndex := currentStepIndex p;
     remainingTime := remainingTime p;
     isMainTimerRunning := isMainTimerRunning p;
     mainTimerRemainingTime := mainTimerRemainingTime p;
     isPaused := isPaused p; presets := presets p;
     isAlarmPlaying := isAlarmPlaying p; isUsingSteps := isUsingSteps p;
     stepsIdent := stepsIdent p; prevTimeRef := prevTimeRef p;
     alarmPlays := alarmPlays p; storage := storage p |}.

Definition setDisplayMinutes (v : Z) : Upd := fun p =>
  {| timerName := timerName p; inputHours := inputHours p;
     inputMinutes := inputMinutes p; inputSeconds := inputSeconds p;
     displayHours := displayHours p; displayMinutes := v;
     displaySeconds := displaySeconds p; steps := steps p;
     isRunning := isRunning p; currentStepIndex := currentStepIndex p;
     remainingTime := remainingTime p;
     isMainTimerRunning := isMainTimerRunning p;
     mainTimerRemainingTime := mainTimerRemainingTime p;
     isPaused := isPaused p; presets := presets p;
     isAlarmPlaying := isAlarmPlaying p; isUsingSteps := isUsingSteps p;
     stepsIdent := stepsIdent p; prevTimeRef := prevTimeRef p;
     alarmPlays := alarmPlays p; storage := storage p |}.

Definition setDisplaySeconds (v : Z) : Upd := fun p =>
  {| timerName := timerName p; inputHours := inputHours p;
     inputMinutes := inputMinutes p; inputSeconds := inputSeconds p;
     displayHours := displayHours p; displayMinutes := displayMinutes p;
     displaySeconds := v; steps := steps p; isRunning := isRunning p;
     currentStepIndex := currentStepIndex p;
     remainingTime := remainingTime p;
     isMainTimerRunning := isMainTimerRunning p;
     mainTimerRemainingTime := mainTimerRemainingTime p;
     isPaused := isPaused p; presets := presets p;
     isAlarmPlaying := isAlarmPlaying p; isUsingSteps := isUsingSteps p;
     stepsIdent := stepsIdent p; prevTimeRef := prevTimeRef p;
     alarmPlays := alarmPlays p; storage := storage p |}.

Definition setSteps (v : list TimerStep.t) : Upd := fun p =>
  {| timerName := timerName p; inputHours := inputHours p;
     inputMinutes := inputMinutes p; inputSeconds := inputSeconds p;
     displayHours := displayHours p; displayMinutes := displayMinutes p;
     displaySeconds := displaySeconds p; steps := v;
     isRunning := isRunning p; currentStepIndex := currentStepIndex p;
     remainingTime := remainingTime p;
     isMainTimerRunning := isMainTimerRunning p;
     mainTimerRemainingTime := mainTimerRemainingTime p;
     isPaused := isPaused p; presets := presets p;
     isAlarmPlaying := isAlarmPlaying p; isUsingSteps := isUsingSteps p;
     stepsIdent := S (stepsIdent p); prevTimeRef := prevTimeRef p;
     alarmPlays := alarmPlays p; storage := storage p |}.

Definition setIsRunning (v : bool) : Upd := fun p =>
  {| timerName := timerName p; inputHours := inputHours p;
     inputMinutes := inputMinutes p; inputSeconds := inputSeconds p;
     displayHours := displayHours p; displayMinutes := displayMinutes p;
     displaySeconds := displaySeconds p; steps := steps p; isRunning := v;
     currentStepIndex := currentStepIndex p;
     remainingTime := remainingTime p;
     isMainTimerRunning := isMainTimerRunning p;
     mainTimerRemainingTime := mainTimerRemainingTime p;
     isPaused := isPaused p; presets := presets p;
     isAlarmPlaying := isAlarmPlaying p; isUsingSteps := isUsingSteps p;
     stepsIdent := stepsIdent p; prevTimeRef := prevTimeRef p;
     alarmPlays := alarmPlays p; storage := storage p |}.

Definition setCurrentStepIndex (v : Z) : Upd := fun p =>
  {| timerName := timerName p; inputHours := inputHours p;
     inputMinutes := inputMinutes p; inputSeconds := inputSeconds p;
     displayHours := displayHours p; displayMinutes := displayMinutes p;
     displaySeconds := displaySeconds p; steps := steps p;
     isRunning := isRunning p; currentStepIndex := v;
     remainingTime := remainingTime p;
     isMainTimerRunning := isMainTimerRunning p;
     mainTimerRemainingTime := mainTimerRemainingTime p;
     isPaused := isPaused p; presets := presets p;
     isAlarmPlaying := isAlarmPlaying p; isUsingSteps := isUsingSteps p;
     stepsIdent := stepsIdent p; prevTimeRef := prevTimeRef p;
     alarmPlays := alarmPlays p; storage := storage p |}.

Definition setRemainingTime (v : Z) : Upd := fun p =>
  {| timerName := timerName p; inputHours := inputHours p;
     inputMinutes := inputMinutes p; inputSeconds := inputSeconds p;
     displayHours := displayHours p; displayMinutes := displayMinutes p;
     displaySeconds := displaySeconds p; steps := steps p;
     isRunning := isRunning p; currentStepIndex := currentStepIndex p;
     remainingTime := v; isMainTimerRunning := isMainTimerRunning p;
     mainTimerRemainingTime := mainTimerRemainingTime p;
     isPaused := isPaused p; presets := presets p;
     isAlarmPlaying := isAlarmPlaying p; isUsingSteps := isUsingSteps p;
     stepsIdent := stepsIdent p; prevTimeRef := prevTimeRef p;
     alarmPlays := alarmPlays p; storage := storage p |}.

Definition setIsMainTimerRunning (v : bool) : Upd := fun p =>
  {| timerName := timerName p; inputHours := inputHours p;
     inputMinutes := inputMinutes p; inputSeconds := inputSeconds p;
     displayHours := displayHours p; displayMinutes := displayMinutes p;
     displaySeconds := displaySeconds p; steps := steps p;
     isRunning := isRunning p; currentStepIndex := currentStepIndex p;
     remainingTime := remainingTime p; isMainTimerRunning := v;
     mainTimerRemainingTime := mainTimerRemainingTime p;
     isPaused := isPaused p; presets := presets p;
     isAlarmPlaying := isAlarmPlaying p; isUsingSteps := isUsingSteps p;
     stepsIdent := stepsIdent p; prevTimeRef := prevTimeRef p;
     alarmPlays := alarmPlays p; storage := storage p |}.

Definition setMainTimerRemainingTime (v : Z) : Upd := fun p =>
  {| timerName := timerName p; inputHours := inputHours p;
     inputMinutes := inputMinutes p; inputSeconds := inputSeconds p;
     displayHours := displayHours p; displayMinutes := displayMinutes p;
     displaySeconds := displaySeconds p; steps := steps p;
     isRunning := isRunning p; currentStepIndex := currentStepIndex p;
     remainingTime := remainingTime p;
     isMainTimerRunning := isMainTimerRunning p; mainTimerRemainingTime := v;
     isPaused := isPaused p; presets := presets p;
     isAlarmPlaying := isAlarmPlaying p; isUsingSteps := isUsingSteps p;
     stepsIdent := stepsIdent p; prevTimeRef := prevTimeRef p;
     alarmPlays := alarmPlays p; storage := storage p |}.

Definition setIsPaused (v : bool) : Upd := fun p =>
  {| timerName := timerName p; inputHours := inputHours p;
     inputMinutes := inputMinutes p; inputSeconds := inputSeconds p;
     displayHours := displayHours p; displayMinutes := displayMinutes p;
     displaySeconds := displaySeconds p; steps := steps p;
     isRunning := isRunning p; currentStepIndex := currentStepIndex p;
     remainingTime := remainingTime p;
     isMainTimerRunning := isMainTimerRunning p;
     mainTimerRemainingTime := mainTimerRemainingTime p; isPaused := v;
     presets := presets p; isAlarmPlaying := isAlarmPlaying p;
     isUsingSteps := isUsingSteps p; stepsIdent := stepsIdent p;
     prevTimeRef := prevTimeRef p; alarmPlays := alarmPlays p;
     storage := storage p |}.

Definition setPresets (v : list Preset.t) : Upd := fun p =>
  {| timerName := timerName p; inputHours := inputHours p;
     inputMinutes := inputMinutes p; inputSeconds := inputSeconds p;
     displayHours := displayHours p; displayMinutes := displayMinutes p;
     displaySeconds := displaySeconds p; steps := steps p;
     isRunning := isRunning p; currentStepIndex := currentStepIndex p;
     remainingTime := remainingTime p;
     isMainTimerRunning := isMainTimerRunning p;
     mainTimerRemainingTime := mainTimerRemainingTime p;
     isPaused := isPaused p; presets := v;
     isAlarmPlaying := isAlarmPlaying p; isUsingSteps := isUsingSteps p;
     stepsIdent := stepsIdent p; prevTimeRef := prevTimeRef p;
     alarmPlays := alarmPlays p; storage := storage p |}.

Definition setIsAlarmPlaying (v : bool) : Upd := fun p =>
  {| timerName := timerName p; inputHours := inputHours p;
     inputMinutes := inputMinutes p; inputSeconds := inputSeconds p;
     displayHours := displayHours p; displayMinutes := displayMinutes p;
     displaySeconds := displaySeconds p; steps := steps p;
     isRunning := isRunning p; currentStepIndex := currentStepIndex p;
     remainingTime := remainingTime p;
     isMainTimerRunning := isMainTimerRunning p;
     mainTimerRemainingTime := mainTimerRemainingTime p;
     isPaused := isPaused p; presets := presets p; isAlarmPlaying := v;
     isUsingSteps := isUsingSteps p; stepsIdent := stepsIdent p;
     prevTimeRef := prevTimeRef p; alarmPlays := alarmPlays p;
     storage := storage p |}.

Definition setIsUsingSteps (v : bool) : Upd := fun p =>
  {| timerName := timerName p; inputHours := inputHours p;
     inputMinutes := inputMinutes p; inputSeconds := inputSeconds p;
     displayHours := displayHours p; displayMinutes := displayMinutes p;
     displaySeconds := displaySeconds p; steps := steps p;
     isRunning := isRunning p; currentStepIndex := currentStepIndex p;
     remainingTime := remainingTime p;
     isMainTimerRunning := isMainTimerRunning p;
     mainTimerRemainingTime := mainTimerRemainingTime p;
     isPaused := isPaused p; presets := presets p;
     isAlarmPlaying := isAlarmPlaying p; isUsingSteps := v;
     stepsIdent := stepsIdent p; prevTimeRef := prevTimeRef p;
     alarmPlays := alarmPlays p; storage := storage p |}.

Definition setPrevTimeRef (v : Z * Z * Z) : Upd := fun p =>
  {| timerName := timerName p; inputHours := inputHours p;
     inputMinutes := inputMinutes p; inputSeconds := inputSeconds p;
     displayHours := displayHours p; displayMinutes := displayMinutes p;
     displaySeconds := displaySeconds p; steps := steps p;
     isRunning := isRunning p; currentStepIndex := currentStepIndex p;
     remainingTime := remainingTime p;
     isMainTimerRunning := isMainTimerRunning p;
     mainTimerRemainingTime := mainTimerRemainingTime p;
     isPaused := isPaused p; presets := presets p;
     isAlarmPlaying := isAlarmPlaying p; isUsingSteps := isUsingSteps p;
     stepsIdent := stepsIdent p; prevTimeRef := v;
     alarmPlays := alarmPlays p; storage := storage p |}.

Definition setStorage (v : list Preset.t) : Upd := fun p =>
  {| timerName := timerName p; inputHours := inputHours p;
     inputMinutes := inputMinutes p; inputSeconds := inputSeconds p;
     displayHours := displayHours p; displayMinutes := displayMinutes p;
     displaySeconds := displaySeconds p; steps := steps p;
     isRunning := isRunning p; currentStepIndex := currentStepIndex p;
     remainingTime := remainingTime p;
     isMainTimerRunning := isMainTimerRunning p;
     mainTimerRemainingTime := mainTimerRemainingTime p;
     isPaused := isPaused p; presets := presets p;
     isAlarmPlaying := isAlarmPlaying p; isUsingSteps := isUsingSteps p;
     stepsIdent := stepsIdent p; prevTimeRef := prevTimeRef p;
     alarmPlays := alarmPlays p; storage := v |}.

Definition countAlarmPlay : Upd := fun p =>
  {| timerName := timerName p; inputHours := inputHours p;
     inputMinutes := inputMinutes p; inputSeconds := inputSeconds p;
     displayHours := displayHours p; displayMinutes := displayMinutes p;
     displaySeconds := displaySeconds p; steps := steps p;
     isRunning := isRunning p; currentStepIndex := currentStepIndex p;
     remainingTime := remainingTime p;
     isMainTimerRunning := isMainTimerRunning p;
     mainTimerRemainingTime := mainTimerRemainingTime p;
     isPaused := isPaused p; presets := presets p;
     isAlarmPlaying := isAlarmPlaying p; isUsingSteps := isUsingSteps p;
     stepsIdent := stepsIdent p; prevTimeRef := prevTimeRef p;
     alarmPlays := S (alarmPlays p); storage := storage p |}.

Definition updInputHours (f : Z -> Z) : Upd := fun p =>
  setInputHours (f (inputHours p)) p.

Definition updInputMinutes (f : Z -> Z) : Upd := fun p =>
  setInputMinutes (f (inputMinutes p)) p.

Definition updInputSeconds (f : Z -> Z) : Upd := fun p =>
  setInputSeconds (f (inputSeconds p)) p.

Definition updCurrentStepIndex (f : Z -> Z) : Upd := fun p =>
  setCurrentStepIndex (f (currentStepIndex p)) p.

(** ** Expressions the component writes inline *)

(** [steps.reduce((total, step) => total + step.duration, 0)] *)
Definition totalDuration (l : list TimerStep.t) : Z :=
  fold_left (fun total step => total + TimerStep.duration step) l 0.

(** [inputHours * 3600 + inputMinutes * 60 + inputSeconds] *)
Definition inputTotal (r : AppState) : Z :=
  inputHours r * 3600 + inputMinutes r * 60 + inputSeconds r.

(** [Math.floor(t / 3600)], [Math.floor((t % 3600) / 60)] and [t % 60];
    [%] is JavaScript's remainder, which takes the sign of [t]. *)
Definition hoursOf (t : Z) : Z := t / 3600.
Definition minutesOf (t : Z) : Z := Z.rem t 3600 / 60.
Definition secondsOf (t : Z) : Z := Z.rem t 60.

Definition setDisplay (h m s : Z) : Upd :=
  setDisplayHours h >>> setDisplayMinutes m >>> setDisplaySeconds s.

(** [steps[i]]: [undefined] outside the array, and reading a property of
    [undefined] throws. *)
Definition stepAt (l : list TimerStep.t) (i : Z) : option TimerStep.t :=
  if i <? 0 then None else l !! Z.to_nat i.

(** ** The alarm *)

(** [playAlarm]: the audio element exists from the first render on.  When
    the alarm is already playing the sound is rewound; in both cases [play()]
    is called, the flag is set and the time-out is started afresh. *)
Definition playAlarm : Upd := countAlarmPlay >>> setIsAlarmPlaying true.

Definition stopAlarm : Upd := setIsAlarmPlaying false.

(** ** Handlers *)

Definition resetSteps (r : AppState) : Upd :=
  setCurrentStepIndex 0 >>>
  match steps r with
  | step0 :: _ =>
      let totalSeconds := totalDuration (steps r) in
      setRemainingTime (TimerStep.duration step0) >>>
      setMainTimerRemainingTime totalSeconds >>>
      setDisplay (hoursOf totalSeconds) (minutesOf totalSeconds)
                 (secondsOf totalSeconds)
  | [] => skip
  end.

Inductive TimeField := Hours | Minutes | Seconds.

#[global] Instance TimeField_eq_dec : EqDecision TimeField.
Proof. solve_decision. Defined.

Definition handleTimeChange (type : TimeField) (delta : Z) (r : AppState)
  : Upd :=
  if isMainTimerRunning r then skip
  else
    match type with
    | Hours =>
        updInputHours (fun prev =>
          let newValue := prev + delta in
          if 24 <=? newValue then 0
          else if newValue <? 0 then 23 else newValue)
    | Minutes =>
        updInputMinutes (fun prev =>
          let newValue := prev + delta in
          if 60 <=? newValue then 0
          else if newValue <? 0 then 59 else newValue)
    | Seconds =>
        updInputSeconds (fun prev =>
          let newValue := prev + delta in
          if 60 <=? newValue then 0
          else if newValue <? 0 then 59 else newValue)
    end >>>
    if negb (isUsingSteps r) then
      setMainTimerRemainingTime (inputTotal r) >>>
      setDisplay (inputHours r) (inputMinutes r) (inputSeconds r)
    else skip.

Definition startMainTimer (r : AppState) : Upd :=
  let totalInputSeconds := inputTotal r in
  match steps r with
  | step0 :: _ =>
      setIsUsingSteps true >>>
      if isPaused r then
        setIsPaused false >>> setIsMainTimerRunning true >>>
        setIsRunning true
      else if negb (isMainTimerRunning r) then
        setIsMainTimerRunning true >>> setIsRunning true >>>
        setCurrentStepIndex 0 >>>
        setRemainingTime (TimerStep.duration step0) >>>
        setIsPaused false
      else skip
  | [] =>
      if 0 <? totalInputSeconds then
        setIsUsingSteps false >>>
        if negb (isMainTimerRunning r) then
          setMainTimerRemainingTime totalInputSeconds >>>
          setDisplay (inputHours r) (inputMinutes r) (inputSeconds r) >>>
          setIsMainTimerRunning true >>> setIsPaused false
        else skip
      else skip
  end >>>
  stopAlarm.

Definition pauseMainTimer : Upd :=
  setIsPaused true >>> setIsMainTimerRunning false >>> setIsRunning false.

Definition resumeMainTimer : Upd :=
  setIsPaused false >>> setIsMainTimerRunning true >>> setIsRunning true.

Definition resetMainTimer (r : AppState) : Upd :=
  setIsMainTimerRunning false >>> setIsRunning false >>>
  setCurrentStepIndex 0 >>>
  match isUsingSteps r, steps r with
  | true, step0 :: _ =>
      setRemainingTime (TimerStep.duration step0) >>>
      setMainTimerRemainingTime (totalDuration (steps r))
  | _, _ =>
      setMainTimerRemainingTime (inputTotal r) >>>
      setDisplay (inputHours r) (inputMinutes r) (inputSeconds r)
  end >>>
  setIsPaused false >>> stopAlarm.

Definition clearTimeInput (r : AppState) : Upd :=
  setInputHours 0 >>> setInputMinutes 0 >>> setInputSeconds 0 >>>
  if negb (isUsingSteps r) then
    setDisplay 0 0 0 >>> setMainTimerRemainingTime 0
  else skip.

Definition clearAllSteps (r : AppState) : Upd :=
  if negb (isRunning r) then
    setSteps [] >>> setIsUsingSteps false >>> setCurrentStepIndex 0 >>>
    setRemainingTime 0 >>> setMainTimerRemainingTime (inputTotal r) >>>
    setDisplay (inputHours r) (inputMinutes r) (inputSeconds r)
  else skip.

(** [timerName || `Step ${steps.length + 1}`]: the empty string is falsy. *)
Definition stepName (r : AppState) : string :=
  if String.eqb (timerName r) "" then
    "Step " +:+ pretty (Z.of_nat (length (steps r)) + 1)
  else timerName r.

Definition addStep (now : Z) (r : AppState) : Upd :=
  let totalSeconds := inputTotal r in
  if 0 <? totalSeconds then
    let newStep := TimerStep.mk now (stepName r) totalSeconds in
    setSteps (steps r ++ [newStep]) >>> setTimerName "" >>>
    setIsUsingSteps true
  else skip.

Definition deleteStep (stepId : Z) (r : AppState) : Upd :=
  if isRunning r then skip
  else
    let newSteps :=
      List.filter (fun step => negb (TimerStep.id step =? stepId)) (steps r) in
    setSteps newSteps >>>
    match newSteps with
    | [] => setIsUsingSteps false
    | _ :: _ => skip
    end.

Definition savePreset (name : string) (now : Z) (r : AppState) : Upd :=
  match steps r with
  | _ :: _ =>
      let newPreset := Preset.mk now name (steps r) in
      let updatedPresets := presets r ++ [newPreset] in
      setPresets updatedPresets >>> setStorage updatedPresets
  | [] => skip
  end.

Definition loadPreset (preset : Preset.t) : Upd :=
  setSteps (Preset.steps preset) >>> setIsUsingSteps true.

Definition deletePreset (presetId : Z) (r : AppState) : Upd :=
  let updatedPresets :=
    List.filter (fun preset => negb (Preset.id preset =? presetId))
                (presets r) in
  setPresets updatedPresets >>> setStorage updatedPresets.

(** ** The interval callback

    The three updater functions passed to the setters by the callback.  Each
    returns the setter calls it makes and the value it returns. *)

Definition overallUpdater (r : AppState) (prev : Z) : Upd * Z :=
  if prev <=? 1 then
    (setIsMainTimerRunning false >>> setIsRunning false >>> playAlarm >>>
     resetSteps r,
     totalDuration (steps r))
  else (skip, prev - 1).

Definition stepUpdater (r : AppState) (prev : Z) : option (Upd * Z) :=
  if prev <=? 1 then
    if currentStepIndex r <? Z.of_nat (length (steps r)) - 1 then
      next ← stepAt (steps r) (currentStepIndex r + 1);
      Some (playAlarm >>> updCurrentStepIndex (fun prevIndex => prevIndex + 1),
            TimerStep.duration next)
    else
      first ← stepAt (steps r) 0;
      Some (playAlarm >>> setIsRunning false >>> setCurrentStepIndex 0 >>>
            resetSteps r,
            TimerStep.duration first)
  else Some (skip, prev - 1).

Definition simpleUpdater (prev : Z) : Upd * Z :=
  if prev <=? 1 then (setIsMainTimerRunning false >>> playAlarm, 0)
  else (skip, prev - 1).

(** The callback of [setInterval], created in the render [r] and fired on
    the state [p].  Both updaters are run on the values of [p]; the values
    they return are stored first, the setter calls they make follow, those
    of the updater of [remainingTime] before those of the updater of
    [mainTimerRemainingTime].  [None]: an updater throws a TypeError. *)
Definition intervalCallback (r p : AppState) : option AppState :=
  if isUsingSteps r then
    let '(callsOverall, newOverall) :=
      overallUpdater r (mainTimerRemainingTime p) in
    '(callsStep, newStep) ← stepUpdater r (remainingTime p);
    Some ((setMainTimerRemainingTime newOverall >>> setRemainingTime newStep >>>
           callsStep >>> callsOverall) p)
  else
    let '(calls, newOverall) := simpleUpdater (mainTimerRemainingTime p) in
    Some ((setMainTimerRemainingTime newOverall >>> calls) p).

(** The interval exists while [isMainTimerRunning && !isPaused].  It is set
    up again whenever [currentStepIndex], [steps] or [isUsingSteps] change,
    so the callback that fires belongs to the current render. *)
Definition tick (s : AppState) : option AppState :=
  if isMainTimerRunning s && negb (isPaused s) then intervalCallback s s
  else Some s.

(** The callback when no update is pending on the component.  The updater
    of [mainTimerRemainingTime], passed to the first setter the callback
    calls, runs at once on the current value; the setter calls it makes are
    queued then, and the value it returns behind them.  The updater of
    [remainingTime] is queued after that and runs at the render, on the
    value those calls left, and the calls it makes follow. *)
Definition intervalCallbackEager (r p : AppState) : option AppState :=
  if isUsingSteps r then
    let '(callsOverall, newOverall) :=
      overallUpdater r (mainTimerRemainingTime p) in
    let p1 := (callsOverall >>> setMainTimerRemainingTime newOverall) p in
    '(callsStep, newStep) ← stepUpdater r (remainingTime p1);
    Some ((setRemainingTime newStep >>> callsStep) p1)
  else
    let '(calls, newOverall) := simpleUpdater (mainTimerRemainingTime p) in
    Some ((calls >>> setMainTimerRemainingTime newOverall) p).

(** Where the first updater of a tick runs. *)
Inductive Schedule := AtRender | InCallback.

Definition tickOn (sch : Schedule) (s : AppState) : option AppState :=
  if isMainTimerRunning s && negb (isPaused s) then
    match sch with
    | AtRender => intervalCallback s s
    | InCallback => intervalCallbackEager s s
    end
  else Some s.

(** ** Effects *)

(** [useEffect(.., [steps, isUsingSteps])] of App. *)
Definition stepsEffect (r : AppState) : Upd :=
  match steps r with
  | _ :: _ =>
      let totalSeconds := totalDuration (steps r) in
      if isUsingSteps r then
        setDisplay (hoursOf totalSeconds) (minutesOf totalSeconds)
                   (secondsOf totalSeconds) >>>
        setMainTimerRemainingTime totalSeconds
      else skip
  | [] => skip
  end.

(** [useEffect(.., [mainTimerRemainingTime])] of App. *)
Definition remainingEffect (r : AppState) : Upd :=
  if 0 <? mainTimerRemainingTime r then
    setDisplay (hoursOf (mainTimerRemainingTime r))
               (minutesOf (mainTimerRemainingTime r))
               (secondsOf (mainTimerRemainingTime r))
  else skip.

(** The effect of CountdownDisplay.  Its [onComplete] is [playAlarm], a new
    function at every render of App, so the effect runs after every render. *)
Definition countdownEffect (r : AppState) : Upd := fun p =>
  let '(prevHours, prevMinutes, prevSeconds) := prevTimeRef p in
  ((if isMainTimerRunning r && negb (isPaused r) then
      let totalSeconds :=
        displayHours r * 3600 + displayMinutes r * 60 + displaySeconds r in
      if (totalSeconds =? 0) && (prevHours =? 0) && (prevMinutes =? 0)
         && (prevSeconds =? 1)
      then playAlarm else skip
    else skip) >>>
   setPrevTimeRef (displayHours r, displayMinutes r, displaySeconds r)) p.

(** One render of the state [n] that follows the render of [o], with the
    effects it runs. *)
Definition render (o n : AppState) : AppState :=
  (countdownEffect n >>>
   (if negb (Nat.eqb (stepsIdent o) (stepsIdent n))
       || negb (Bool.eqb (isUsingSteps o) (isUsingSteps n))
    then stepsEffect n else skip) >>>
   (if negb (mainTimerRemainingTime o =? mainTimerRemainingTime n)
    then remainingEffect n else skip)) n.

(** The renders after an event that took the state from [o] to [n].  The
    first can change [mainTimerRemainingTime], the second then the display,
    and the third only sees that display; after it nothing changes. *)
Definition commit (o n : AppState) : AppState :=
  let n1 := render o n in
  let n2 := render n n1 in
  render n1 n2.

(** ** Events *)

Inductive Event :=
| Start | Pause | Resume | Reset | Tick
| Adjust (type : TimeField) (delta : Z)
| ClearTimeInput
| SetTimerName (name : string)
| AddStep (now : Z)
| DeleteStep (stepId : Z)
| ClearAllSteps
| SavePreset (name : string) (now : Z)
| LoadPreset (preset : Preset.t)
| DeletePreset (presetId : Z)
| StopAlarm.

Definition handle (e : Event) (s : AppState) : option AppState :=
  match e with
  | Start => Some (startMainTimer s s)
  | Pause => Some (pauseMainTimer s)
  | Resume => Some (resumeMainTimer s)
  | Reset => Some (resetMainTimer s s)
  | Tick => tick s
  | Adjust type delta => Some (handleTimeChange type delta s s)
  | ClearTimeInput => Some (clearTimeInput s s)
  | SetTimerName name => Some (setTimerName name s)
  | AddStep now => Some (addStep now s s)
  | DeleteStep stepId => Some (deleteStep stepId s s)
  | ClearAllSteps => Some (clearAllSteps s s)
  | SavePreset name now => Some (savePreset name now s s)
  | LoadPreset preset => Some (loadPreset preset s)
  | DeletePreset presetId => Some (deletePreset presetId s s)
  | StopAlarm => Some (stopAlarm s)
  end.

Definition dispatch (e : Event) (s : AppState) : option AppState :=
  n ← handle e s; Some (commit s n).

Fixpoint run (es : list Event) (s : AppState) : option AppState :=
  match es with
  | [] => Some s
  | e :: es' => s' ← dispatch e s; run es' s'
  end.

(** Events with the schedule their tick takes; the schedule of an event
    that is no tick is not looked at. *)
Definition handleOn (sch : Schedule) (e : Event) (s : AppState)
  : option AppState :=
  match e with
  | Tick => tickOn sch s
  | _ => handle e s
  end.

Definition dispatchOn (sch : Schedule) (e : Event) (s : AppState)
  : option AppState :=
  n ← handleOn sch e s; Some (commit s n).

Fixpoint runOn (es : list (Schedule * Event)) (s : AppState)
  : option AppState :=
  match es with
  | [] => Some s
  | (sch, e) :: es' => s' ← dispatchOn sch e s; runOn es' s'
  end.

(** The state after the first render, with the presets read from storage. *)
Definition initialState (stored : list Preset.t) : AppState :=
  {| timerName := ""; inputHours := 0; inputMinutes := 0; inputSeconds := 0;
     displayHours := 0; displayMinutes := 0; displaySeconds := 0;
     steps := []; isRunning := false; currentStepIndex := 0;
     remainingTime := 0; isMainTimerRunning := false;
     mainTimerRemainingTime := 0; isPaused := false; presets := stored;
     isAlarmPlaying := false; isUsingSteps := false; stepsIdent := 0%nat;
     prevTimeRef := (0, 0, 0); alarmPlays := 0%nat; storage := stored |}.

(** ** Arrays and objects: what a preset shares with the live list

    [savePreset] stores [[...steps]], a new array that holds the same
    TimerStep objects as the live one.  The handlers are written once more
    over a store of objects and arrays, with the references they copy and
    the arrays they allocate, to see what a later change of the live list
    can reach. *)

Module Heap.

Definition loc : Type := nat.

Record PresetRef := mkPreset { id : Z; name : string; steps : loc }.

Record t := mk {
  (* the TimerStep objects *)
  objects : gmap loc TimerStep.t;
  (* the arrays, each a list of references to objects *)
  arrays : gmap loc (list loc);
  (* the array in the state variable [steps] *)
  stepsRef : loc;
  (* the state variable [presets] *)
  presets : list PresetRef
}.

Definition elements (h : t) (a : loc) : list loc :=
  default [] (arrays h !! a).

(** The steps an array stands for. *)
Definition readSteps (h : t) (a : loc) : option (list TimerStep.t) :=
  elems ← arrays h !! a; mapM (fun o => objects h !! o) elems.

Definition newObject (st : TimerStep.t) (h : t) : loc * t :=
  let o := fresh (dom (objects h)) in
  (o, mk (<[o := st]> (objects h)) (arrays h) (stepsRef h) (presets h)).

Definition newArray (elems : list loc) (h : t) : loc * t :=
  let a := fresh (dom (arrays h)) in
  (a, mk (objects h) (<[a := elems]> (arrays h)) (stepsRef h) (presets h)).

Definition setSteps (a : loc) (h : t) : t :=
  mk (objects h) (arrays h) a (presets h).

Definition setPresets (ps : list PresetRef) (h : t) : t :=
  mk (objects h) (arrays h) (stepsRef h) ps.

(** [setSteps([...steps, newStep])] *)
Definition addStep (now : Z) (timerName : string) (totalSeconds : Z) (h : t)
  : t :=
  if 0 <? totalSeconds then
    let elems := elements h (stepsRef h) in
    let name :=
      if String.eqb timerName "" then
        "Step " +:+ pretty (Z.of_nat (length elems) + 1)
      else timerName in
    let '(o, h1) := newObject (TimerStep.mk now name totalSeconds) h in
    let '(a, h2) := newArray (elems ++ [o]) h1 in
    setSteps a h2
  else h.

(** [setSteps(steps.filter(step => step.id !== stepId))] *)
Definition deleteStep (isRunning : bool) (stepId : Z) (h : t) : t :=
  if isRunning then h
  else
    let keep o :=
      match objects h !! o with
      | Some step => negb (TimerStep.id step =? stepId)
      | None => false
      end in
    let '(a, h1) := newArray (List.filter keep (elements h (stepsRef h))) h in
    setSteps a h1.

(** [setSteps([])] *)
Definition clearAllSteps (isRunning : bool) (h : t) : t :=
  if isRunning then h
  else let '(a, h1) := newArray [] h in setSteps a h1.

(** [setPresets([...presets, { id, name, steps: [...steps] }])] *)
Definition savePreset (name : string) (now : Z) (h : t) : t :=
  match elements h (stepsRef h) with
  | [] => h
  | elems =>
      let '(a, h1) := newArray elems h in
      setPresets (presets h1 ++ [mkPreset now name a]) h1
  end.

(** [setSteps([...preset.steps])] *)
Definition loadPreset (preset : PresetRef) (h : t) : t :=
  let '(a, h1) := newArray (elements h (steps preset)) h in
  setSteps a h1.

(** The changes of the live list. *)
Inductive Mutation :=
| Append (now : Z) (timerName : string) (totalSeconds : Z)
| Remove (isRunning : bool) (stepId : Z)
| Clear (isRunning : bool)
| Load (preset : PresetRef).

Definition mutate (m : Mutation) (h : t) : t :=
  match m with
  | Append now timerName totalSeconds => addStep now timerName totalSeconds h
  | Remove isRunning stepId => deleteStep isRunning stepId h
  | Clear isRunning => clearAllSteps isRunning h
  | Load preset => loadPreset preset h
  end.

Definition mutateAll (ms : list Mutation) (h : t) : t :=
  fold_left (fun h m => mutate m h) ms h.

(** Nothing that is in [h] has been overwritten in [h']. *)
Definition extends (h h' : t) : Prop :=
  objects h ⊆ objects h' /\ arrays h ⊆ arrays h'.

End Heap.

(** ** Notions the statements use *)

Definition displayOf (s : AppState) : Z * Z * Z :=
  (displayHours s, displayMinutes s, displaySeconds s).

(** The state of a finished render: the ref of CountdownDisplay holds the
    time that is shown. *)
Definition committed (s : AppState) : Prop := prevTimeRef s = displayOf s.

(** The fields no effect writes. *)
Definition untouched (a b : AppState) : Prop :=
  timerName a = timerName b /\
  inputHours a = inputHours b /\ inputMinutes a = inputMinutes b /\
  inputSeconds a = inputSeconds b /\
  steps a = steps b /\ stepsIdent a = stepsIdent b /\
  isRunning a = isRunning b /\ currentStepIndex a = currentStepIndex b /\
  remainingTime a = remainingTime b /\
  isMainTimerRunning a = isMainTimerRunning b /\
  isPaused a = isPaused b /\ presets a = presets b /\
  isUsingSteps a = isUsingSteps b /\ storage a = storage b.

Definition displayTotal (s : AppState) : Z :=
  displayHours s * 3600 + displayMinutes s * 60 + displaySeconds s.

Definition running (s : AppState) : bool :=
  isMainTimerRunning s && negb (isPaused s).

(** The effect on [steps] and [isUsingSteps] does not run, or does nothing. *)
Definition noReseed (o n : AppState) : Prop :=
  (stepsIdent o = stepsIdent n /\ isUsingSteps o = isUsingSteps n) \/
  steps n = [] \/ isUsingSteps n = false.

Definition sameAlarm (a b : AppState) : Prop :=
  alarmPlays a = alarmPlays b /\ isAlarmPlaying a = isAlarmPlaying b.

Record SimpleRunning (s : AppState) (t : Z) (a : nat) : Prop := {
  sr_mode : isUsingSteps s = false;
  sr_running : isMainTimerRunning s = true;
  sr_paused : isPaused s = false;
  sr_remaining : mainTimerRemainingTime s = t;
  sr_alarm : alarmPlays s = a;
  sr_committed : committed s
}.

(** Every step lasts at least a second, as [addStep] ensures. *)
Definition positive (l : list TimerStep.t) : Prop :=
  Forall (fun st => 1 <= TimerStep.duration st) l.

(** Seconds of the steps after step [i]. *)
Definition after (l : list TimerStep.t) (i : nat) : Z :=
  totalDuration (drop (S i) l).

(** The engine stands in step [i] of the list [l] with [r] seconds of the
    step left, and the overall time agrees with that. *)
Record Position (l : list TimerStep.t) (s : AppState) (i : nat) (r : Z)
  : Prop := {
  pos_steps : steps s = l;
  pos_mode : isUsingSteps s = true;
  pos_index : currentStepIndex s = Z.of_nat i;
  pos_step : remainingTime s = r;
  pos_overall : mainTimerRemainingTime s = r + after l i;
  pos_committed : committed s
}.

(** A run is under way with [t] seconds to go; [a0] alarms had been played
    when it started, and one more at the end of each step since. *)
Definition InRun (l : list TimerStep.t) (a0 : nat) (s : AppState) (t : Z)
  : Prop :=
  exists i r st,
    Position l s i r /\ running s = true /\ l !! i = Some st /\ 1 <= r /\
    t = r + after l i /\ alarmPlays s = (a0 + i)%nat.

(** The idle engine with the list [l] in place: the effect on [steps] has
    put the whole duration into [mainTimerRemainingTime]. *)
Record Seeded (l : list TimerStep.t) (s : AppState) : Prop := {
  seeded_steps : steps s = l;
  seeded_mode : isUsingSteps s = true;
  seeded_stopped : isMainTimerRunning s = false;
  seeded_unpaused : isPaused s = false;
  seeded_overall : mainTimerRemainingTime s = totalDuration l;
  seeded_committed : committed s
}.

(** The operations of the engine, as opposed to edits of the entry, of the
    step list and of the presets. *)
Definition engineOp (e : Event) : Prop :=
  match e with
  | Start | Pause | Resume | Reset | Tick => True
  | _ => False
  end.

(** The engine stands in a step of the list [l] with at least a second of
    it left, the overall time covers what is left of that step and the
    steps after it, and an engine that is neither running nor paused has
    the whole duration on the overall counter. *)
Definition Bounded (l : list TimerStep.t) (s : AppState) : Prop :=
  steps s = l /\ isUsingSteps s = true /\
  (exists i st,
     currentStepIndex s = Z.of_nat i /\ l !! i = Some st /\
     1 <= remainingTime s /\
     remainingTime s + after l i <= mainTimerRemainingTime s) /\
  (isMainTimerRunning s = false -> isPaused s = false ->
   mainTimerRemainingTime s = totalDuration l).

(** The counters [start()] and [reset()] seed. *)
Definition counters (s : AppState) : Z * Z * Z :=
  (currentStepIndex s, remainingTime s, mainTimerRemainingTime s).

(** Steps in the list put the engine in sequential mode; every handler keeps
    it so. *)
Definition modeFollowsSteps (s : AppState) : Prop :=
  steps s <> [] -> isUsingSteps s = true.

Definition entry (type : TimeField) (s : AppState) : Z :=
  match type with
  | Hours => inputHours s
  | Minutes => inputMinutes s
  | Seconds => inputSeconds s
  end.

(** The number of values of a field: hours 0..23, minutes and seconds
    0..59. *)
Definition modulus (type : TimeField) : Z :=
  match type with Hours => 24 | Minutes => 60 | Seconds => 60 end.

Definition validEntry (s : AppState) : Prop :=
  forall type, 0 <= entry type s < modulus type.

(** The step [addStep] makes. *)
Definition newStep (now : Z) (s : AppState) : TimerStep.t :=
  TimerStep.mk now (stepName s) (inputTotal s).

(** The store holds the step list and the presets of the state [s]. *)
Definition agrees (h : Heap.t) (s : AppState) : Prop :=
  Heap.readSteps h (Heap.stepsRef h) = Some (steps s) /\
  Forall2 (fun p q =>
             Heap.id p = Preset.id q /\ Heap.name p = Preset.name q /\
             Heap.readSteps h (Heap.steps p) = Some (Preset.steps q))
          (Heap.presets h) (presets s).

(** ** States the component reaches *)

Definition afterEvents (es : list Event) : AppState :=
  default (initialState []) (run es (initialState [])).

(** The entry 00:00:05 and no steps. *)
Definition fiveSeconds : AppState :=
  Eval vm_compute in afterEvents (repeat (Adjust Seconds 1) 5).

(** One step of one second. *)
Definition oneShortStep : AppState :=
  Eval vm_compute in afterEvents [Adjust Seconds 1; AddStep 1700000000000].

(** The steps A of 3 seconds and B of 2 seconds. *)
Definition stepA : TimerStep.t := TimerStep.mk 1700000000000 "A" 3.

Definition stepB : TimerStep.t := TimerStep.mk 1700000004000 "B" 2.

(** The idle engine with A and B in the list. *)
Definition stepsAB : AppState :=
  Eval vm_compute in
    afterEvents [Adjust Seconds 1; Adjust Seconds 1; Adjust Seconds 1;
                 SetTimerName "A"; AddStep 1700000000000;
                 Adjust Seconds (-1);
                 SetTimerName "B"; AddStep 1700000004000].

(** Two steps of one second, the first over and its alarm sounding. *)
Definition secondStepRunning : AppState :=
  Eval vm_compute in
    afterEvents [Adjust Seconds 1; AddStep 1700000000000;
                 AddStep 1700000001000; Start; Tick].

(** A countdown of two seconds, paused at once. *)
Definition pausedAtTwo : AppState :=
  Eval vm_compute in
    afterEvents [Adjust Seconds 1; Adjust Seconds 1; Start; Pause].

(** Step A running with two of its three seconds left, the entry still at
    00:00:03. *)
Definition stepARunning : AppState :=
  Eval vm_compute in
    afterEvents [Adjust Seconds 1; Adjust Seconds 1; Adjust Seconds 1;
                 SetTimerName "A"; AddStep 1700000000000; Start; Tick].

(** One step of two seconds. *)
Definition oneLongStep : AppState :=
  Eval vm_compute in
    afterEvents [Adjust Seconds 1; Adjust Seconds 1; AddStep 1700000000000].

(** The store after the first render, and with the steps A and B added. *)
Definition initialHeap : Heap.t := Heap.mk ∅ {[ 0%nat := [] ]} 0%nat [].

Definition heapAB : Heap.t :=
  Heap.addStep 1700000004000 "B" 2
    (Heap.addStep 1700000000000 "A" 3 initialHeap).

(** ** Further notions: what every reachable state satisfies *)

(** The collection in localStorage is the collection on the screen. *)
Definition persisted (s : AppState) : Prop := storage s = presets s.

(** The engine is not paused and running at once. *)
Definition oneStatus (s : AppState) : Prop :=
  isPaused s && isMainTimerRunning s = false.

(** Every step of the list and of every preset lasts at least a second. *)
Definition wellTimed (s : AppState) : Prop :=
  positive (steps s) /\
  Forall (fun preset => positive (Preset.steps preset)) (presets s).

(** An event the screen offers: the Load button belongs to a preset of the
    collection. *)
Definition offered (s : AppState) (e : Event) : Prop :=
  match e with
  | LoadPreset preset => In preset (presets s)
  | _ => True
  end.

(** [es] is a sequence of events each of which is offered when it comes. *)
Fixpoint offeredRun (es : list Event) (s : AppState) : Prop :=
  match es with
  | [] => True
  | e :: es' =>
      offered s e /\
      match dispatch e s with
      | Some s' => offeredRun es' s'
      | None => True
      end
  end.

(** The edits of the live step list. *)
Definition stepEdit (e : Event) : Prop :=
  match e with
  | AddStep _ | DeleteStep _ | ClearAllSteps => True
  | _ => False
  end.

(** ** What the screen shows *)

(** TimeUnit: the values drawn above and below the current one. *)
Definition prevValue (value max : Z) : Z :=
  if value =? 0 then max else value - 1.

Definition nextValue (value max : Z) : Z :=
  if value =? max then 0 else value + 1.

(** [handleWheel]: [e.deltaY > 0 ? -1 : 1]; only the sign of [deltaY] is
    read. *)
Definition wheelDelta (deltaY : Z) : Z := if 0 <? deltaY then -1 else 1.

(** The [max] App passes to the TimeUnit of a field: 23 for the hours, the
    default 59 for the others. *)
Definition maxOf (type : TimeField) : Z :=
  match type with Hours => 23 | Minutes => 59 | Seconds => 59 end.

(** [String(n).padStart(2, '0')] *)
Definition pad2 (n : Z) : string :=
  let digits := pretty n in
  match String.length digits with
  | 0%nat => "00"
  | 1%nat => "0" +:+ digits
  | _ => digits
  end.

Definition formatTime (totalSeconds : Z) : string :=
  let hrs := totalSeconds / 3600 in
  let mins := Z.rem totalSeconds 3600 / 60 in
  let secs := Z.rem totalSeconds 60 in
  pad2 hrs +:+ ":" +:+ pad2 mins +:+ ":" +:+ pad2 secs.

(** The text of CountdownDisplay, whose props are the display variables,
    [isMainTimerRunning] and [isPaused]. *)
Definition countdownText (s : AppState) : string :=
  if negb (isMainTimerRunning s) && negb (isPaused s) then "--:--:--"
  else pad2 (displayHours s) +:+ ":" +:+ pad2 (displayMinutes s) +:+ ":" +:+
       pad2 (displaySeconds s).

(** The display shows the overall time whenever some of it is left. *)
Definition showsRemaining (s : AppState) : Prop :=
  0 < mainTimerRemainingTime s ->
  displayOf s = (hoursOf (mainTimerRemainingTime s),
                 minutesOf (mainTimerRemainingTime s),
                 secondsOf (mainTimerRemainingTime s)).

(** [disabled] of the Start/Pause button:
    [steps.length === 0 && !inputHours && !inputMinutes && !inputSeconds] *)
Definition startDisabled (s : AppState) : bool :=
  (length (steps s) =? 0)%nat && (inputHours s =? 0) &&
  (inputMinutes s =? 0) && (inputSeconds s =? 0).

(** What a click on the first button of the bar calls: Resume while paused,
    else Pause or Start, and nothing when the button is disabled. *)
Definition mainButton (s : AppState) : option Event :=
  if negb (isPaused s) then
    if startDisabled s then None
    else Some (if isMainTimerRunning s then Pause else Start)
  else Some Resume.

(** ** Further states the component reaches *)

(** The steps A and B in the list and saved as the preset "AB". *)
Definition presetAB : Preset.t :=
  Preset.mk 1700000009000 "AB" [stepA; stepB].

Definition savedAB : AppState :=
  Eval vm_compute in
    afterEvents [Adjust Seconds 1; Adjust Seconds 1; Adjust Seconds 1;
                 SetTimerName "A"; AddStep 1700000000000;
                 Adjust Seconds (-1);
                 SetTimerName "B"; AddStep 1700000004000;
                 SavePreset "AB" 1700000009000].

(** The preset "AB" loaded again after the list was cleared. *)
Definition reloadedAB : AppState :=
  Eval vm_compute in
    default savedAB (run [ClearAllSteps; LoadPreset presetAB] savedAB).

(** The hours turned down once from 00:00:00. *)
Definition hourDown : AppState :=
  Eval vm_compute in afterEvents [Adjust Hours (-1)].

(** ** The alarm with its audio element and its time-out

    [playAlarm] and [stopAlarm] once more, with what the engine does not
    need: the audio element in [alarmAudioRef], the timer in
    [alarmTimeoutRef] and the time-outs that are pending.  [play()] may be
    refused by the browser; whether it is, is an input. *)

Module Alarm.

Record Audio := mkAudio { paused : bool; currentTime : Z }.

Record t := mk {
  (* alarmAudioRef.current *)
  audio : option Audio;
  (* alarmTimeoutRef.current *)
  timeoutRef : option nat;
  (* the time-outs set and neither fired nor cleared *)
  timers : gset nat;
  (* the id the next setTimeout returns *)
  nextTimer : nat;
  isAlarmPlaying : bool
}.

(** [if (alarmTimeoutRef.current) clearTimeout(alarmTimeoutRef.current)] *)
Definition clearRef (a : t) : t :=
  match timeoutRef a with
  | Some id =>
      mk (audio a) (timeoutRef a) (timers a ∖ {[ id ]}) (nextTimer a)
         (isAlarmPlaying a)
  | None => a
  end.

Definition setAudio (au : option Audio) (a : t) : t :=
  mk au (timeoutRef a) (timers a) (nextTimer a) (isAlarmPlaying a).

Definition setIsAlarmPlaying (v : bool) (a : t) : t :=
  mk (audio a) (timeoutRef a) (timers a) (nextTimer a) v.

(** [alarmTimeoutRef.current = setTimeout(() => stopAlarm(), 60000)] *)
Definition startTimeout (a : t) : t :=
  mk (audio a) (Some (nextTimer a)) (timers a ∪ {[ nextTimer a ]})
     (S (nextTimer a)) (isAlarmPlaying a).

(** [playAlarm], called from a render in which [isAlarmPlaying] was
    [shown]; [granted]: the browser lets the sound play. *)
Definition playAlarm (shown granted : bool) (a : t) : t :=
  match audio a with
  | None => a
  | Some au =>
      let a1 :=
        if shown then
          setAudio (Some (mkAudio (paused au) 0)) (clearRef a)
        else a in
      let a2 :=
        match audio a1 with
        | Some au1 =>
            if granted then setAudio (Some (mkAudio false (currentTime au1))) a1
            else a1
        | None => a1
        end in
      startTimeout (clearRef (setIsAlarmPlaying true a2))
  end.

Definition stopAlarm (a : t) : t :=
  let a1 :=
    match audio a with
    | Some _ => setAudio (Some (mkAudio true 0)) a
    | None => a
    end in
  setIsAlarmPlaying false (clearRef a1).

(** The time-out [id] fires: it is no longer pending, and its callback
    calls [stopAlarm]. *)
Definition timeoutFires (id : nat) (a : t) : t :=
  if decide (id ∈ timers a) then
    stopAlarm (mk (audio a) (timeoutRef a) (timers a ∖ {[ id ]})
                  (nextTimer a) (isAlarmPlaying a))
  else a.

(** Time passes: a sound that plays moves on. *)
Definition elapse (dt : Z) (a : t) : t :=
  match audio a with
  | Some au =>
      if paused au then a
      else setAudio (Some (mkAudio false (currentTime au + dt))) a
  | None => a
  end.

(** The cleanup of the effect that created the audio element. *)
Definition unmount (a : t) : t :=
  clearRef (setAudio None a).

Inductive Event :=
| Play (shown granted : bool)
| Stop
| TimeoutFires (id : nat)
| Elapse (dt : Z)
| Unmount.

Definition step (e : Event) (a : t) : t :=
  match e with
  | Play shown granted => playAlarm shown granted a
  | Stop => stopAlarm a
  | TimeoutFires id => timeoutFires id a
  | Elapse dt => elapse dt a
  | Unmount => unmount a
  end.

Definition steps (es : list Event) (a : t) : t :=
  fold_left (fun a e => step e a) es a.

(** After the first render: the element exists and is silent. *)
Definition initial : t := mk (Some (mkAudio true 0)) None ∅ 1 false.

Definition sounding (a : t) : Prop :=
  exists au, audio a = Some au /\ paused au = false.

(** The pending time-outs are at most the one [alarmTimeoutRef] names, a
    sound that plays has it pending, and as long as the element exists the
    flag says whether it is pending. *)
Definition wellKept (a : t) : Prop :=
  (forall id, id ∈ timers a -> timeoutRef a = Some id) /\
  (forall id, timeoutRef a = Some id -> (id < nextTimer a)%nat) /\
  (sounding a -> timers a <> ∅) /\
  (audio a = None -> timers a = ∅) /\
  (audio a <> None -> (isAlarmPlaying a = true <-> timers a <> ∅)).

(** The alarm triggered once and sounding for five seconds. *)
Definition ringing : t := steps [Play false true; Elapse 5] initial.

End Alarm.

(** ** What a render leaves alone *)

Ltac break_effects :=
  repeat match goal with
  | |- context [match ?x with _ => _ end] => destruct x eqn:?
  end.

Lemma render_untouched o n : untouched (render o n) n.
Proof.
  unfold render, countdownEffect, stepsEffect, remainingEffect, andThen.
  cbn. break_effects; cbn; repeat split; reflexivity.
Qed.

Lemma untouched_trans a b c : untouched a b -> untouched b c -> untouched a c.
Proof. unfold untouched. intuition congruence. Qed.

Lemma commit_untouched o n : untouched (commit o n) n.
Proof.
  unfold commit.
  eapply untouched_trans; [apply render_untouched|].
  eapply untouched_trans; apply render_untouched.
Qed.

Lemma clock_total t :
  0 <= t -> hoursOf t * 3600 + minutesOf t * 60 + secondsOf t = t.
Proof.
  intros Ht. unfold hoursOf, minutesOf, secondsOf.
  Z.to_euclidean_division_equations. lia.
Qed.

Lemma render_prevTimeRef o n : prevTimeRef (render o n) = displayOf n.
Proof.
  unfold render, countdownEffect, stepsEffect, remainingEffect, andThen.
  cbn. break_effects; reflexivity.
Qed.

Lemma render_main_quiet o n :
  noReseed o n ->
  mainTimerRemainingTime (render o n) = mainTimerRemainingTime n.
Proof.
  unfold noReseed, render, countdownEffect, stepsEffect, remainingEffect,
    andThen.
  intros [[H1 H2]|[H|H]].
  - rewrite H1, H2, Nat.eqb_refl, Bool.eqb_reflx. cbn.
    break_effects; reflexivity.
  - rewrite H. cbn. break_effects; reflexivity.
  - rewrite H. cbn. break_effects; reflexivity.
Qed.

Lemma render_display_quiet o n :
  noReseed o n ->
  displayOf (render o n) =
  if negb (mainTimerRemainingTime o =? mainTimerRemainingTime n)
     && (0 <? mainTimerRemainingTime n)
  then (hoursOf (mainTimerRemainingTime n),
        minutesOf (mainTimerRemainingTime n),
        secondsOf (mainTimerRemainingTime n))
  else displayOf n.
Proof.
  unfold noReseed, render, countdownEffect, stepsEffect, remainingEffect,
    andThen, displayOf.
  intros [[H1 H2]|[H|H]].
  - rewrite H1, H2, Nat.eqb_refl, Bool.eqb_reflx. cbn.
    break_effects; cbn in *; try reflexivity; try discriminate.
  - rewrite H. cbn. break_effects; cbn in *; try reflexivity; try discriminate.
  - rewrite H. cbn. break_effects; cbn in *; try reflexivity; try discriminate.
Qed.

Lemma render_alarm_quiet o n :
  running n = false \/ committed n \/ displayTotal n <> 0 ->
  sameAlarm (render o n) n.
Proof.
  unfold running, committed, displayTotal, displayOf, sameAlarm.
  unfold render, countdownEffect, stepsEffect, remainingEffect, andThen.
  intros H. cbn.
  destruct (prevTimeRef n) as [[ph pm] ps] eqn:Hp.
  destruct (isMainTimerRunning n && negb (isPaused n)) eqn:Hr.
  - destruct H as [H|[H|H]]; [discriminate| |].
    + inversion H; subst.
      destruct (displayHours n * 3600 + displayMinutes n * 60 +
                displaySeconds n =? 0) eqn:E; cbn.
      * destruct (displayHours n =? 0) eqn:E1; cbn;
          [|break_effects; split; reflexivity].
        destruct (displayMinutes n =? 0) eqn:E2; cbn;
          [|break_effects; split; reflexivity].
        destruct (displaySeconds n =? 1) eqn:E3; cbn;
          [|break_effects; split; reflexivity].
        lia.
      * break_effects; split; reflexivity.
    + apply Z.eqb_neq in H. rewrite H. cbn.
      break_effects; split; reflexivity.
  - cbn. break_effects; split; reflexivity.
Qed.

Lemma render_then_noReseed o n : noReseed n (render o n).
Proof.
  left. destruct (render_untouched o n) as (_&_&_&_&_&H1&_&_&_&_&_&_&H2&_).
  split; congruence.
Qed.

Lemma render_running o n : running (render o n) = running n.
Proof.
  destruct (render_untouched o n) as (_&_&_&_&_&_&_&_&_&H1&H2&_).
  unfold running. congruence.
Qed.

Lemma commit_main_quiet o n :
  noReseed o n ->
  mainTimerRemainingTime (commit o n) = mainTimerRemainingTime n.
Proof.
  intros H. unfold commit.
  rewrite !render_main_quiet; auto using render_then_noReseed.
Qed.

Lemma commit_committed o n : committed (commit o n).
Proof.
  unfold commit, committed. cbv zeta.
  rewrite render_prevTimeRef.
  rewrite (render_display_quiet (render o n) (render n (render o n)))
    by apply render_then_noReseed.
  rewrite (render_main_quiet n (render o n)) by apply render_then_noReseed.
  rewrite Z.eqb_refl. reflexivity.
Qed.

Lemma sameAlarm_trans a b c : sameAlarm a b -> sameAlarm b c -> sameAlarm a c.
Proof. unfold sameAlarm. intuition congruence. Qed.

Lemma clock_displayTotal n t :
  0 < t -> displayOf n = (hoursOf t, minutesOf t, secondsOf t) ->
  displayTotal n <> 0.
Proof.
  unfold displayOf, displayTotal. intros Ht H. inversion H.
  pose proof (clock_total t ltac:(lia)). lia.
Qed.

Lemma render_alarm_next o n :
  noReseed o n ->
  running (render o n) = false \/ committed (render o n) \/
  displayTotal (render o n) <> 0.
Proof.
  intros H.
  pose proof (render_display_quiet o n H) as Hd.
  pose proof (render_prevTimeRef o n) as Hp.
  destruct (negb (mainTimerRemainingTime o =? mainTimerRemainingTime n)
            && (0 <? mainTimerRemainingTime n)) eqn:E.
  - right. right. apply andb_prop in E as [_ E]. apply Z.ltb_lt in E.
    eapply clock_displayTotal; eauto.
  - right. left. unfold committed. congruence.
Qed.

Lemma commit_alarm_quiet o n :
  noReseed o n ->
  running n = false \/ committed n \/ displayTotal n <> 0 ->
  sameAlarm (commit o n) n.
Proof.
  intros H Hq. unfold commit.
  eapply sameAlarm_trans; [|apply render_alarm_quiet; exact Hq].
  eapply sameAlarm_trans;
    [|apply render_alarm_quiet; apply render_alarm_next; exact H].
  apply render_alarm_quiet, render_alarm_next, render_then_noReseed.
Qed.

Lemma render_id o n :
  committed n -> noReseed o n ->
  mainTimerRemainingTime o = mainTimerRemainingTime n ->
  render o n = n.
Proof.
  unfold committed, displayOf, noReseed.
  unfold render, countdownEffect, stepsEffect, remainingEffect, andThen.
  intros Hc H Hm. rewrite Hm, Z.eqb_refl. destruct n; cbn in *. subst.
  assert (Hfire :
    (displayHours0 * 3600 + displayMinutes0 * 60 + displaySeconds0 =? 0)
    && (displayHours0 =? 0) && (displayMinutes0 =? 0)
    && (displaySeconds0 =? 1) = false).
  { destruct (displayHours0 =? 0) eqn:E1; [|now rewrite andb_false_r].
    destruct (displayMinutes0 =? 0) eqn:E2; [|now rewrite andb_false_r].
    destruct (displaySeconds0 =? 1) eqn:E3; [|now rewrite andb_false_r].
    apply Z.eqb_eq in E1, E2, E3. subst. reflexivity. }
  rewrite Hfire.
  destruct H as [[H1 H2]|[H|H]].
  - rewrite H1, H2, Nat.eqb_refl, Bool.eqb_reflx. cbn.
    break_effects; reflexivity.
  - subst. break_effects; reflexivity.
  - subst. break_effects; reflexivity.
Qed.

Lemma noReseed_refl n : noReseed n n.
Proof. left. split; reflexivity. Qed.

(** After the three renders of [commit] a further render changes nothing. *)
Lemma commit_settled o n :
  render (render n (render o n)) (commit o n) = commit o n.
Proof.
  apply render_id.
  - apply commit_committed.
  - unfold commit. apply render_then_noReseed.
  - unfold commit. cbv zeta. symmetry.
    apply render_main_quiet, render_then_noReseed.
Qed.

Lemma commit_id o n :
  committed n -> noReseed o n ->
  mainTimerRemainingTime o = mainTimerRemainingTime n ->
  commit o n = n.
Proof.
  intros Hc H Hm. unfold commit.
  rewrite (render_id o n) by assumption.
  rewrite (render_id n n) by auto using noReseed_refl.
  apply render_id; auto using noReseed_refl.
Qed.

(** ** Simple mode: one countdown *)

Lemma simple_tick_dec s t a :
  SimpleRunning s t a -> 1 < t ->
  exists s', dispatch Tick s = Some s' /\ SimpleRunning s' (t - 1) a.
Proof.
  intros [Hm Hr Hp Ht Ha Hc] Hlt.
  unfold dispatch, handle, tick, intervalCallback, simpleUpdater.
  rewrite Hr, Hp, Hm, Ht. cbn.
  destruct (t <=? 1) eqn:E; [apply Z.leb_le in E; lia|]. cbn.
  eexists. split; [reflexivity|].
  match goal with |- SimpleRunning (commit s ?x) _ _ => set (n := x) end.
  assert (Hn : noReseed s n) by (left; split; reflexivity).
  destruct (commit_untouched s n) as (_&_&_&_&_&_&_&_&_&H1&H2&_&H3&_).
  destruct (commit_alarm_quiet s n Hn) as [H4 _].
  { right. left. exact Hc. }
  split.
  - rewrite H3. exact Hm.
  - rewrite H1. exact Hr.
  - rewrite H2. exact Hp.
  - rewrite commit_main_quiet by exact Hn. reflexivity.
  - rewrite H4. exact Ha.
  - apply commit_committed.
Qed.

Lemma simple_tick_last s a :
  SimpleRunning s 1 a ->
  exists s', dispatch Tick s = Some s' /\
    isMainTimerRunning s' = false /\ isPaused s' = false /\
    mainTimerRemainingTime s' = 0 /\ alarmPlays s' = S a /\
    isAlarmPlaying s' = true.
Proof.
  intros [Hm Hr Hp Ht Ha Hc].
  unfold dispatch, handle, tick, intervalCallback, simpleUpdater.
  rewrite Hr, Hp, Hm, Ht. cbn.
  eexists. split; [reflexivity|].
  match goal with |- context [commit s ?x] => set (n := x) end.
  assert (Hn : noReseed s n) by (left; split; reflexivity).
  destruct (commit_untouched s n) as (_&_&_&_&_&_&_&_&_&H1&H2&_&H3&_).
  destruct (commit_alarm_quiet s n Hn) as [H4 H5].
  { left. reflexivity. }
  rewrite H1, H2, H4, H5, commit_main_quiet by exact Hn.
  cbn. rewrite Ha. auto.
Qed.

Lemma simple_run_dec k : forall s t a,
  SimpleRunning s t a -> Z.of_nat k < t ->
  exists sk, run (repeat Tick k) s = Some sk /\
             SimpleRunning sk (t - Z.of_nat k) a.
Proof.
  induction k as [|k IH]; intros s t a Hs Hk.
  - exists s. split; [reflexivity|]. now replace (t - Z.of_nat 0) with t by lia.
  - destruct (simple_tick_dec s t a Hs ltac:(lia)) as (s1 & Hd & H1).
    destruct (IH s1 (t - 1) a H1 ltac:(lia)) as (sk & Hrun & Hsk).
    exists sk. split.
    + cbn [repeat run]. rewrite Hd. exact Hrun.
    + now replace (t - Z.of_nat (S k)) with (t - 1 - Z.of_nat k) by lia.
Qed.

Lemma run_app es1 es2 s :
  run (es1 ++ es2) s = s' ← run es1 s; run es2 s'.
Proof.
  revert s. induction es1 as [|e es1 IH]; intros s; cbn; [reflexivity|].
  destruct (dispatch e s); cbn; auto.
Qed.

Lemma run_snoc es e s sk :
  run es s = Some sk -> run (es ++ [e]) s = dispatch e sk.
Proof.
  intros H. rewrite run_app, H. cbn [run mbind option_bind].
  destruct (dispatch e sk); reflexivity.
Qed.

Lemma repeat_snoc {A} (x : A) k : repeat x (S k) = repeat x k ++ [x].
Proof. induction k as [|k IH]; cbn in *; [reflexivity|]. now rewrite <- IH. Qed.

Lemma start_simple s :
  steps s = [] -> isMainTimerRunning s = false -> 0 < inputTotal s ->
  exists s1, dispatch Start s = Some s1 /\
             SimpleRunning s1 (inputTotal s) (alarmPlays s).
Proof.
  intros Hs Hr Ht.
  unfold dispatch, handle, startMainTimer. rewrite Hs, Hr.
  apply Z.ltb_lt in Ht as Ht'. rewrite Ht'. cbn.
  eexists. split; [reflexivity|].
  match goal with |- context [commit s ?x] => set (n := x) end.
  assert (Hn : noReseed s n) by (right; left; exact Hs).
  destruct (commit_untouched s n) as (_&_&_&_&_&_&_&_&_&H1&H2&_&H3&_).
  destruct (commit_alarm_quiet s n Hn) as [H4 _].
  { right. right. exact (Z.neq_sym _ _ (Z.lt_neq _ _ Ht)). }
  split.
  - rewrite H3. reflexivity.
  - rewrite H1. reflexivity.
  - rewrite H2. reflexivity.
  - rewrite commit_main_quiet by exact Hn. reflexivity.
  - rewrite H4. reflexivity.
  - apply commit_committed.
Qed.

(** C2. In simple mode, with an entry of [T > 0] seconds, [start()] and
    [T] ticks end in the idle state with no time left and one alarm; the
    alarm is played by the last tick, the earlier ones only count down. *)
Theorem simple_countdown_completes s :
  steps s = [] -> isMainTimerRunning s = false -> 0 < inputTotal s ->
  exists s1, dispatch Start s = Some s1 /\
    (forall k, (k < Z.to_nat (inputTotal s))%nat ->
       exists sk, run (repeat Tick k) s1 = Some sk /\
         running sk = true /\
         mainTimerRemainingTime sk = inputTotal s - Z.of_nat k /\
         alarmPlays sk = alarmPlays s) /\
    exists s', run (repeat Tick (Z.to_nat (inputTotal s))) s1 = Some s' /\
      isMainTimerRunning s' = false /\ isPaused s' = false /\
      mainTimerRemainingTime s' = 0 /\
      alarmPlays s' = S (alarmPlays s).
Proof.
  intros Hs Hr Ht.
  destruct (start_simple s Hs Hr Ht) as (s1 & Hd & H1).
  exists s1. split; [exact Hd|]. split.
  - intros k Hk.
    destruct (simple_run_dec k s1 _ _ H1 ltac:(lia)) as (sk & Hrun & Hsk).
    exists sk. destruct Hsk. unfold running.
    repeat split; try assumption. now rewrite sr_running0, sr_paused0.
  - destruct (Z.to_nat (inputTotal s)) as [|k] eqn:Ek; [lia|].
    destruct (simple_run_dec k s1 _ _ H1 ltac:(lia)) as (sk & Hrun & Hsk).
    replace (inputTotal s - Z.of_nat k) with 1 in Hsk by lia.
    destruct (simple_tick_last sk _ Hsk) as (s' & Hd' & Hfin).
    exists s'. split; [|tauto].
    rewrite repeat_snoc, (run_snoc _ _ _ _ Hrun). exact Hd'.
Qed.

(** ** Sequential mode: the steps of one list *)

Lemma totalDuration_from (l : list TimerStep.t) acc :
  fold_left (fun total step => total + TimerStep.duration step) l acc =
  acc + totalDuration l.
Proof.
  unfold totalDuration. revert acc.
  induction l as [|st l IH]; intros acc; cbn; [lia|].
  rewrite (IH (acc + TimerStep.duration st)), (IH (0 + TimerStep.duration st)).
  lia.
Qed.

Lemma totalDuration_cons st l :
  totalDuration (st :: l) = TimerStep.duration st + totalDuration l.
Proof. unfold totalDuration at 1. cbn. apply totalDuration_from. Qed.

Lemma stepAt_nat l (i : nat) : stepAt l (Z.of_nat i) = l !! i.
Proof.
  unfold stepAt. destruct (Z.of_nat i <? 0) eqn:E.
  - apply Z.ltb_lt in E. lia.
  - now rewrite Nat2Z.id.
Qed.

Lemma totalDuration_nonneg l : positive l -> 0 <= totalDuration l.
Proof.
  induction 1 as [|st l H _ IH]; [reflexivity|].
  rewrite totalDuration_cons. lia.
Qed.

Lemma positive_drop l k : positive l -> positive (drop k l).
Proof. apply Forall_drop. Qed.

Lemma after_nonneg l i : positive l -> 0 <= after l i.
Proof. intros H. apply totalDuration_nonneg, positive_drop, H. Qed.

Lemma after_next l i st :
  l !! S i = Some st -> after l i = TimerStep.duration st + after l (S i).
Proof.
  intros H. unfold after.
  rewrite (drop_S l st (S i) H). apply totalDuration_cons.
Qed.

Lemma after_last l i : S i = length l -> after l i = 0.
Proof. intros H. unfold after. rewrite H, drop_all. reflexivity. Qed.

Lemma total_after l st :
  l !! 0%nat = Some st -> totalDuration l = TimerStep.duration st + after l 0.
Proof.
  destruct l as [|st' l]; intros H; [discriminate|].
  inversion H; subst. unfold after. cbn [drop]. rewrite drop_0.
  apply totalDuration_cons.
Qed.

Lemma positive_lookup l i st :
  positive l -> l !! i = Some st -> 1 <= TimerStep.duration st.
Proof. intros H Hl. exact (proj1 (Forall_lookup _ l) H i st Hl). Qed.

Lemma running_flags s :
  running s = true -> isMainTimerRunning s = true /\ isPaused s = false.
Proof.
  unfold running. intros H. apply andb_prop in H as [H1 H2].
  split; [exact H1|]. now apply negb_true_iff.
Qed.

Arguments commit : simpl never.
Arguments totalDuration : simpl never.

(** The facts about the state [commit s x] of the goal, once the effect on
    the step list is known to rest and [quiet] shows that CountdownDisplay
    plays no alarm. *)
Ltac commit_facts s quiet :=
  match goal with
  | |- context [commit s ?x] =>
      let n := fresh "n" in
      let Hn := fresh "Hn" in
      let Hq := fresh "Hq" in
      set (n := x);
      assert (Hn : noReseed s n)
        by (first [ left; split; reflexivity
                  | left; split; cbn; congruence
                  | right; left; assumption
                  | right; right; reflexivity ]);
      assert (Hq : running n = false \/ committed n \/ displayTotal n <> 0)
        by quiet;
      destruct (commit_untouched s n)
        as (Kname & Khours & Kminutes & Kseconds & Ksteps & Kident &
            KisRunning & Kindex & Kstep & Kmain & Kpaused & Kpresets &
            Kmode & Kstorage);
      destruct (commit_alarm_quiet s n Hn Hq) as [Kplays Kplaying];
      pose proof (commit_main_quiet s n Hn) as Koverall;
      pose proof (commit_committed s n) as Kcommitted;
      clear Hn Hq;
      cbn in Kname, Khours, Kminutes, Kseconds, Ksteps, Kident, KisRunning,
        Kindex, Kstep, Kmain, Kpaused, Kpresets, Kmode, Kstorage, Kplays,
        Kplaying, Koverall;
      unfold skip in Kname, Khours, Kminutes, Kseconds, Ksteps, Kident,
        KisRunning, Kindex, Kstep, Kmain, Kpaused, Kpresets, Kmode, Kstorage,
        Kplays, Kplaying, Koverall
  end.

Section Sequential.

Variable l : list TimerStep.t.
Hypothesis Hpos : positive l.

Lemma tick_counts_down s i r :
  Position l s i r -> running s = true -> 1 < r ->
  exists s', dispatch Tick s = Some s' /\ Position l s' i (r - 1) /\
    running s' = true /\ isRunning s' = isRunning s /\ sameAlarm s' s.
Proof.
  intros [Hl Hm Hi Hr Ho Hc] Hrun Hlt.
  pose proof (after_nonneg l i Hpos) as Ha.
  unfold dispatch, handle, tick, intervalCallback, overallUpdater, stepUpdater.
  rewrite (Hrun : _ && _ = true), Hm, Ho, Hr. cbn.
  destruct (r + after l i <=? 1) eqn:E1; [apply Z.leb_le in E1; lia|].
  destruct (r <=? 1) eqn:E2; [apply Z.leb_le in E2; lia|]. cbn.
  eexists. split; [reflexivity|].
  commit_facts s ltac:(right; left; exact Hc).
  split; [|split; [|split]].
  - constructor; try congruence.
    rewrite Koverall. lia.
  - unfold running in *. congruence.
  - congruence.
  - split; assumption.
Qed.

Lemma tick_advances s i st' :
  Position l s i 1 -> running s = true -> l !! S i = Some st' ->
  exists s', dispatch Tick s = Some s' /\
    Position l s' (S i) (TimerStep.duration st') /\
    running s' = true /\ isRunning s' = isRunning s /\
    alarmPlays s' = S (alarmPlays s).
Proof.
  intros [Hl Hm Hi Hr Ho Hc] Hrun Hnext.
  pose proof (after_nonneg l (S i) Hpos) as Ha.
  pose proof (positive_lookup l _ _ Hpos Hnext) as Hd.
  pose proof (after_next l i st' Hnext) as Hn'.
  pose proof (lookup_lt_Some _ _ _ Hnext) as Hlen.
  unfold dispatch, handle, tick, intervalCallback, overallUpdater, stepUpdater.
  rewrite (Hrun : _ && _ = true), Hm, Ho, Hr, Hi, Hl. cbn.
  destruct (1 + after l i <=? 1) eqn:E1; [apply Z.leb_le in E1; lia|].
  destruct (Z.of_nat i <? Z.of_nat (length l) - 1) eqn:E2;
    [|apply Z.ltb_ge in E2; lia].
  replace (Z.of_nat i + 1) with (Z.of_nat (S i)) by lia.
  rewrite stepAt_nat, Hnext. cbn.
  eexists. split; [reflexivity|].
  commit_facts s ltac:(right; left; exact Hc).
  split; [|split; [|split]].
  - constructor; try congruence.
    + rewrite Kindex, Hi. lia.
    + rewrite Koverall. lia.
  - unfold running in *. congruence.
  - congruence.
  - congruence.
Qed.

Lemma tick_completes s i st0 :
  Position l s i 1 -> running s = true -> S i = length l ->
  l !! 0%nat = Some st0 ->
  exists s', dispatch Tick s = Some s' /\
    Position l s' 0 (TimerStep.duration st0) /\
    isMainTimerRunning s' = false /\ isPaused s' = false /\
    isRunning s' = false /\
    alarmPlays s' = S (S (alarmPlays s)).
Proof.
  intros [Hl Hm Hi Hr Ho Hc] Hrun Hlast Hfirst.
  pose proof (after_last l i Hlast) as Ha.
  destruct (running_flags s Hrun) as [Hr1 Hr2].
  unfold dispatch, handle, tick, intervalCallback, overallUpdater, stepUpdater,
    resetSteps.
  rewrite (Hrun : _ && _ = true), Hm, Ho, Hr, Hi, Hl, Ha.
  destruct l as [|st l'] eqn:El; [discriminate|].
  inversion Hfirst; subst st.
  replace (Z.of_nat i <? Z.of_nat (length (st0 :: l')) - 1) with false
    by (symmetry; apply Z.ltb_ge; lia).
  cbn.
  eexists. split; [reflexivity|].
  commit_facts s ltac:(left; reflexivity).
  split; [|split; [|split; [|split]]].
  - constructor; try congruence.
    + exact Kindex.
    + rewrite Koverall. apply (total_after (st0 :: l') st0 eq_refl).
  - assumption.
  - congruence.
  - assumption.
  - congruence.
Qed.

Lemma after_zero_last i : after l i = 0 -> l !! S i = None.
Proof.
  intros H. destruct (l !! S i) as [st'|] eqn:E; [|reflexivity].
  pose proof (after_next l i st' E).
  pose proof (positive_lookup l _ _ Hpos E).
  pose proof (after_nonneg l (S i) Hpos). lia.
Qed.

Lemma tick_in_run a0 s t :
  InRun l a0 s t -> 1 < t ->
  exists s', dispatch Tick s = Some s' /\ InRun l a0 s' (t - 1).
Proof.
  intros (i & r & st & Hp & Hrun & Hi & Hr & Ht & Ha) Hlt.
  destruct (Z.eq_dec r 1) as [->|Hne].
  - destruct (l !! S i) as [st'|] eqn:E.
    + destruct (tick_advances s i st' Hp Hrun E)
        as (s' & Hd & Hp' & Hrun' & _ & Ha').
      exists s'. split; [exact Hd|].
      exists (S i), (TimerStep.duration st'), st'.
      pose proof (after_next l i st' E).
      pose proof (positive_lookup l _ _ Hpos E).
      split; [exact Hp'|]. repeat split; try assumption; lia.
    + apply lookup_ge_None in E. apply lookup_lt_Some in Hi.
      rewrite (after_last l i) in Ht by lia. lia.
  - destruct (tick_counts_down s i r Hp Hrun ltac:(lia))
      as (s' & Hd & Hp' & Hrun' & _ & Ha' & _).
    exists s'. split; [exact Hd|].
    exists i, (r - 1), st.
    split; [exact Hp'|]. repeat split; try assumption; lia.
Qed.

Lemma tick_ends_run a0 s st0 :
  InRun l a0 s 1 -> l !! 0%nat = Some st0 ->
  exists s', dispatch Tick s = Some s' /\
    Position l s' 0 (TimerStep.duration st0) /\
    isMainTimerRunning s' = false /\ isPaused s' = false /\
    isRunning s' = false /\
    alarmPlays s' = (a0 + length l + 1)%nat.
Proof.
  intros (i & r & st & Hp & Hrun & Hi & Hr & Ht & Ha) H0.
  pose proof (after_nonneg l i Hpos) as Hnn.
  assert (r = 1) as -> by lia.
  assert (Hlast : S i = length l).
  { pose proof (after_zero_last i ltac:(lia)) as E.
    apply lookup_ge_None in E. apply lookup_lt_Some in Hi. lia. }
  destruct (tick_completes s i st0 Hp Hrun Hlast H0)
    as (s' & Hd & Hp' & H1 & H2 & H3 & H4).
  exists s'. split; [exact Hd|]. split; [exact Hp'|].
  repeat split; try assumption. lia.
Qed.

Lemma run_in_run a0 k : forall s t,
  InRun l a0 s t -> Z.of_nat k < t ->
  exists sk, run (repeat Tick k) s = Some sk /\ InRun l a0 sk (t - Z.of_nat k).
Proof.
  induction k as [|k IH]; intros s t Hs Hk.
  - exists s. split; [reflexivity|].
    now replace (t - Z.of_nat 0) with t by lia.
  - destruct (tick_in_run a0 s t Hs ltac:(lia)) as (s1 & Hd & H1).
    destruct (IH s1 (t - 1) H1 ltac:(lia)) as (sk & Hrun & Hsk).
    exists sk. split.
    + cbn [repeat run]. rewrite Hd. exact Hrun.
    + now replace (t - Z.of_nat (S k)) with (t - 1 - Z.of_nat k) by lia.
Qed.

Lemma start_sequential s st0 :
  steps s = l -> l !! 0%nat = Some st0 -> isUsingSteps s = true ->
  isMainTimerRunning s = false -> isPaused s = false ->
  mainTimerRemainingTime s = totalDuration l -> committed s ->
  exists s1, dispatch Start s = Some s1 /\
             InRun l (alarmPlays s) s1 (totalDuration l).
Proof.
  intros Hl H0 Hm Hr Hp Ht Hc.
  unfold dispatch, handle, startMainTimer. rewrite Hl, Hr, Hp.
  destruct l as [|st l'] eqn:El; [discriminate|].
  inversion H0; subst st. cbn.
  eexists. split; [reflexivity|].
  commit_facts s ltac:(right; left; exact Hc).
  exists 0%nat, (TimerStep.duration st0), st0.
  pose proof (total_after (st0 :: l') st0 eq_refl) as Htot.
  split; [|split; [|split; [|split; [|split]]]].
  - constructor; try congruence. exact Kindex.
  - unfold running. rewrite Kmain, Kpaused. reflexivity.
  - reflexivity.
  - apply (positive_lookup (st0 :: l') 0%nat st0 Hpos eq_refl).
  - exact Htot.
  - rewrite Kplays. lia.
Qed.

End Sequential.

(** C1, as the code has it.  For a list of steps that is not empty,
    [start()] and as many ticks as the list has seconds end the run: until
    then the engine runs and has played one alarm for each step it has
    left behind; the last tick plays two, one from each of its updaters, so
    the run plays one alarm more than there are steps.  It leaves the engine
    idle, at step 0, with the first step's duration and the whole duration
    on the two counters. *)
Theorem sequential_run_completes l s st0 :
  positive l -> l !! 0%nat = Some st0 -> Seeded l s ->
  exists s1, dispatch Start s = Some s1 /\
    (forall k, (k < Z.to_nat (totalDuration l))%nat ->
       exists sk, run (repeat Tick k) s1 = Some sk /\
         running sk = true /\
         mainTimerRemainingTime sk = totalDuration l - Z.of_nat k /\
         Z.of_nat (alarmPlays sk) =
           Z.of_nat (alarmPlays s) + currentStepIndex sk) /\
    exists s', run (repeat Tick (Z.to_nat (totalDuration l))) s1 = Some s' /\
      isMainTimerRunning s' = false /\ isPaused s' = false /\
      mainTimerRemainingTime s' = totalDuration l /\
      currentStepIndex s' = 0 /\
      remainingTime s' = TimerStep.duration st0 /\
      alarmPlays s' = (alarmPlays s + length l + 1)%nat.
Proof.
  intros Hpos H0 [Hl Hm Hr Hp Ht Hc].
  destruct (start_sequential l Hpos s st0 Hl H0 Hm Hr Hp Ht Hc)
    as (s1 & Hd & H1).
  assert (Htot : 1 <= totalDuration l).
  { destruct H1 as (i & r & st & _ & _ & _ & Hr1 & Ht1 & _).
    pose proof (after_nonneg l i Hpos). lia. }
  exists s1. split; [exact Hd|]. split.
  - intros k Hk.
    destruct (run_in_run l Hpos _ k s1 _ H1 ltac:(lia)) as (sk & Hrun & Hsk).
    exists sk. split; [exact Hrun|].
    destruct Hsk as (i & r & st & [] & Hrun' & _ & _ & Ht' & Ha').
    repeat split; try assumption; lia.
  - destruct (Z.to_nat (totalDuration l)) as [|k] eqn:Ek; [lia|].
    destruct (run_in_run l Hpos _ k s1 _ H1 ltac:(lia)) as (sk & Hrun & Hsk).
    replace (totalDuration l - Z.of_nat k) with 1 in Hsk by lia.
    destruct (tick_ends_run l Hpos _ sk st0 Hsk H0)
      as (s' & Hd' & [] & H2 & H3 & H4 & H5).
    exists s'. split.
    + rewrite repeat_snoc, (run_snoc _ _ _ _ Hrun). exact Hd'.
    + pose proof (total_after l st0 H0). repeat split; try assumption; lia.
Qed.

(** ** The two counters stay in step *)

(** With more than a second on the overall counter the two schedules of a
    tick give the same state: they differ only on a tick that ends the
    overall time. *)
Lemma eager_as_at_render r p :
  1 < mainTimerRemainingTime p ->
  intervalCallbackEager r p = intervalCallback r p.
Proof.
  intros H. unfold intervalCallbackEager, intervalCallback, overallUpdater,
    simpleUpdater.
  destruct (mainTimerRemainingTime p <=? 1) eqn:E;
    [apply Z.leb_le in E; lia|].
  destruct (isUsingSteps r); [|reflexivity].
  unfold andThen, skip. cbn.
  destruct (stepUpdater r (remainingTime p)) as [[calls v]|]; reflexivity.
Qed.

Lemma handleOn_at_render e s : handleOn AtRender e s = handle e s.
Proof. destruct e; reflexivity. Qed.

Lemma runOn_at_render es : forall s,
  runOn (map (pair AtRender) es) s = run es s.
Proof.
  induction es as [|e es IH]; intros s; [reflexivity|].
  cbn [map runOn run]. unfold dispatchOn, dispatch.
  rewrite handleOn_at_render.
  destruct (handle e s) as [n|]; [|reflexivity]. cbn. apply IH.
Qed.

Section Invariant.

Variable l : list TimerStep.t.
Hypothesis Hpos : positive l.

Lemma bounded_bound s :
  Bounded l s -> remainingTime s <= mainTimerRemainingTime s.
Proof.
  intros (_ & _ & (i & st & _ & _ & _ & H) & _).
  pose proof (after_nonneg l i Hpos). lia.
Qed.

(** The renders after an event of the engine change none of the fields the
    invariant reads. *)
Lemma bounded_commit s n :
  Bounded l n -> stepsIdent s = stepsIdent n ->
  isUsingSteps s = isUsingSteps n -> Bounded l (commit s n).
Proof.
  intros Hb Hid Hmode.
  assert (Hn : noReseed s n) by (left; split; assumption).
  destruct (commit_untouched s n)
    as (_ & _ & _ & _ & Ksteps & _ & _ & Kindex & Kstep & Kmain & Kpaused &
        _ & Kmode & _).
  pose proof (commit_main_quiet s n Hn) as Kover.
  unfold Bounded. rewrite Ksteps, Kmode, Kindex, Kstep, Kmain, Kpaused, Kover.
  exact Hb.
Qed.

Lemma bounded_tick sch s :
  Bounded l s ->
  exists n, tickOn sch s = Some n /\ Bounded l n /\
    stepsIdent s = stepsIdent n /\ isUsingSteps s = isUsingSteps n.
Proof.
  intros Hb. unfold tickOn.
  destruct (isMainTimerRunning s && negb (isPaused s)) eqn:Hrun;
    [|exists s; auto].
  apply andb_prop in Hrun as [Hr _].
  destruct Hb as (Hl & Hm & (i & st & Hi & Hst & Hr1 & Hle) & Hidle).
  pose proof (after_nonneg l i Hpos) as Ha.
  pose proof (lookup_lt_Some _ _ _ Hst) as Hlen.
  assert (Hfirst : exists st0, l !! 0%nat = Some st0).
  { destruct l as [|st0 l']; [cbn in Hlen; lia|]. exists st0. reflexivity. }
  destruct Hfirst as (st0 & Hfirst).
  pose proof (positive_lookup l _ _ Hpos Hfirst) as Hd0.
  pose proof (total_after l st0 Hfirst) as Htotal.
  assert (Hat : stepAt (steps s) 0 = Some st0)
    by (rewrite Hl; exact (eq_trans (stepAt_nat l 0) Hfirst)).
  assert (Hreset : resetSteps s =
                   setCurrentStepIndex 0 >>>
                   setRemainingTime (TimerStep.duration st0) >>>
                   setMainTimerRemainingTime (totalDuration l) >>>
                   setDisplay (hoursOf (totalDuration l))
                              (minutesOf (totalDuration l))
                              (secondsOf (totalDuration l))).
  { unfold resetSteps. rewrite Hl.
    destruct l as [|st0' l']; [discriminate|].
    inversion Hfirst; subst st0'. reflexivity. }
  destruct (Z.leb_spec (mainTimerRemainingTime s) 1) as [Hend|Hmore].
  - (* the overall time ends: the step is the last and ends too *)
    assert (Hr2 : remainingTime s = 1) by lia.
    assert (Hlast : l !! S i = None)
      by (apply (after_zero_last l Hpos); lia).
    apply lookup_ge_None in Hlast.
    assert (Hcmp : (currentStepIndex s <? Z.of_nat (length (steps s)) - 1)
                   = false) by (apply Z.ltb_ge; rewrite Hi, Hl; lia).
    assert (Eo : (mainTimerRemainingTime s <=? 1) = true)
      by (apply Z.leb_le; lia).
    destruct sch.
    + unfold intervalCallback, overallUpdater, stepUpdater.
      rewrite Hm, Hcmp, Hat, Eo, Hr2, Hreset, Hl.
      cbn [mbind option_bind Z.leb Z.compare Pos.compare]. cbn.
      eexists. split; [reflexivity|].
      unfold Bounded. cbn. rewrite Hl, Hm.
      repeat split; try reflexivity.
      exists 0%nat, st0. repeat split; try assumption; lia.
    + unfold intervalCallbackEager, overallUpdater, stepUpdater.
      rewrite Hm, Hcmp, Hat, Eo, Hreset. cbn.
      destruct (Z.leb_spec (TimerStep.duration st0) 1) as [Hone|Hlong];
        cbn; (eexists; split; [reflexivity|]);
        unfold Bounded; cbn; rewrite Hl, Hm;
        (repeat split; try reflexivity);
        exists 0%nat, st0; repeat split; try assumption; lia.
  - assert (Hsame :
      match sch with
      | AtRender => intervalCallback s s
      | InCallback => intervalCallbackEager s s
      end = intervalCallback s s)
      by (destruct sch; [reflexivity|apply eager_as_at_render; exact Hmore]).
    rewrite Hsame. clear Hsame.
    unfold intervalCallback, overallUpdater, stepUpdater.
    assert (Eo : (mainTimerRemainingTime s <=? 1) = false)
      by (apply Z.leb_gt; lia).
    rewrite Hm, Eo.
    destruct (Z.leb_spec (remainingTime s) 1) as [Hstep|Hstep].
    + destruct (l !! S i) as [st'|] eqn:Hnext.
      * (* the next step *)
        pose proof (lookup_lt_Some _ _ _ Hnext) as Hlen'.
        pose proof (positive_lookup l _ _ Hpos Hnext) as Hd'.
        pose proof (after_next l i st' Hnext) as Hafter.
        replace (currentStepIndex s <? Z.of_nat (length (steps s)) - 1)
          with true by (symmetry; apply Z.ltb_lt; rewrite Hi, Hl; lia).
        replace (currentStepIndex s + 1) with (Z.of_nat (S i)) by lia.
        rewrite Hl, stepAt_nat, Hnext. cbn.
        eexists. split; [reflexivity|].
        unfold Bounded. cbn. rewrite Hl, Hm, Hr.
        repeat split; try reflexivity; try discriminate.
        exists (S i), st'. unfold updCurrentStepIndex. cbn.
        repeat split; try assumption; lia.
      * (* the list starts over while the overall time goes on *)
        apply lookup_ge_None in Hnext.
        replace (currentStepIndex s <? Z.of_nat (length (steps s)) - 1)
          with false by (symmetry; apply Z.ltb_ge; rewrite Hi, Hl; lia).
        rewrite Hat, Hreset. cbn.
        eexists. split; [reflexivity|].
        unfold Bounded. cbn. rewrite Hl, Hm, Hr.
        repeat split; try reflexivity; try discriminate.
        exists 0%nat, st0. repeat split; try assumption; lia.
    + cbn. eexists. split; [reflexivity|].
      unfold Bounded. cbn. rewrite Hl, Hm, Hr.
      repeat split; try reflexivity; try discriminate.
      exists i, st. repeat split; try assumption; lia.
Qed.

Lemma bounded_handle sch e s :
  engineOp e -> Bounded l s ->
  exists n, handleOn sch e s = Some n /\ Bounded l n /\
    stepsIdent s = stepsIdent n /\ isUsingSteps s = isUsingSteps n.
Proof.
  intros He Hb.
  destruct e; try contradiction; try exact (bounded_tick sch s Hb);
    destruct Hb as (Hl & Hm & (i & st & Hi & Hst & Hr1 & Hle) & Hidle);
    pose proof (lookup_lt_Some _ _ _ Hst) as Hlen;
    (assert (Hfirst : exists st0 l', l = st0 :: l')
       by (destruct l as [|st0 l']; [cbn in Hlen; lia|eauto]));
    destruct Hfirst as (st0 & l' & El);
    pose proof (total_after l st0 ltac:(rewrite El; reflexivity)) as Htotal;
    pose proof (positive_lookup l 0%nat st0 Hpos
                  ltac:(rewrite El; reflexivity)) as Hd0;
    cbn [handleOn handle].
  - (* start *)
    unfold startMainTimer. rewrite Hl, El.
    destruct (isPaused s) eqn:Hp; [|destruct (isMainTimerRunning s) eqn:Hr];
      cbn; (eexists; split; [reflexivity|]);
      unfold Bounded; cbn; unfold skip; rewrite ?Hl, ?Hm, ?Hp, ?Hr, <- ?El;
      (repeat split; try reflexivity; try discriminate).
    + exists i, st. repeat split; assumption.
    + exists i, st. repeat split; assumption.
    + exists 0%nat, st0. rewrite (Hidle eq_refl eq_refl).
      repeat split; try assumption; [rewrite El; reflexivity|lia].
  - (* pause *)
    eexists. split; [reflexivity|].
    unfold Bounded, pauseMainTimer. cbn. rewrite Hl, Hm.
    repeat split; try reflexivity; try discriminate.
    exists i, st. repeat split; assumption.
  - (* resume *)
    eexists. split; [reflexivity|].
    unfold Bounded, resumeMainTimer. cbn. rewrite Hl, Hm.
    repeat split; try reflexivity; try discriminate.
    exists i, st. repeat split; assumption.
  - (* reset *)
    unfold resetMainTimer. rewrite Hm, Hl, El. cbn.
    eexists. split; [reflexivity|].
    unfold Bounded. cbn. rewrite ?Hl, ?Hm, <- ?El.
    repeat split; try reflexivity.
    exists 0%nat, st0.
    repeat split; try assumption; [rewrite El; reflexivity|lia].
Qed.

Lemma bounded_run (es : list (Schedule * Event)) : forall s,
  Forall (fun m => engineOp (snd m)) es -> Bounded l s ->
  exists s', runOn es s = Some s' /\ Bounded l s'.
Proof.
  induction es as [|[sch e] es IH]; intros s Hes Hs.
  - exists s. split; [reflexivity|exact Hs].
  - inversion Hes as [|? ? He Hes']; subst. cbn [snd] in He.
    destruct (bounded_handle sch e s He Hs) as (n & Hh & Hn & Hid & Hmode).
    destruct (IH (commit s n) Hes' (bounded_commit s n Hn Hid Hmode))
      as (s' & Hrun & Hs').
    exists s'. split; [|exact Hs'].
    cbn [runOn]. unfold dispatchOn. rewrite Hh. exact Hrun.
Qed.

End Invariant.

Lemma start_bounded l s (es : list (Schedule * Event)) :
  positive l -> l <> [] -> Seeded l s ->
  Forall (fun m => engineOp (snd m)) es ->
  exists s', runOn ((AtRender, Start) :: es) s = Some s' /\ Bounded l s'.
Proof.
  intros Hpos Hne [Hl Hm Hr Hp Ht Hc] Hes.
  destruct l as [|st0 l'] eqn:El; [contradiction|]. rewrite <- El in *.
  assert (Hfirst : l !! 0%nat = Some st0) by (rewrite El; reflexivity).
  destruct (start_sequential l Hpos s st0 Hl Hfirst Hm Hr Hp Ht Hc)
    as (s1 & Hd & (i & r & st & [Kl Km Ki Kr Ko _] & Hrun & Hi & Hr1 & _)).
  assert (H1 : Bounded l s1).
  { split; [exact Kl|]. split; [exact Km|]. split.
    - exists i, st. rewrite Kr, Ko. repeat split; try assumption. lia.
    - intros H. apply running_flags in Hrun. destruct Hrun. congruence. }
  destruct (bounded_run l Hpos es s1 Hes H1) as (s' & Hrun' & Hs').
  exists s'. split; [|exact Hs'].
  cbn [runOn]. unfold dispatchOn. cbn [handleOn].
  unfold dispatch in Hd. rewrite Hd. exact Hrun'.
Qed.

(** C3. After [start()] on a seeded list of steps, whatever [start],
    [tick], [pause], [resume] and [reset] follow, and whichever of its two
    schedules each tick takes, the engine is in sequential mode and the time
    left overall is at least the time left in the step. *)
Theorem overall_at_least_step l s (es : list (Schedule * Event)) :
  positive l -> l <> [] -> Seeded l s ->
  Forall (fun m => engineOp (snd m)) es ->
  exists s', runOn ((AtRender, Start) :: es) s = Some s' /\
    isUsingSteps s' = true /\
    remainingTime s' <= mainTimerRemainingTime s'.
Proof.
  intros Hpos Hne Hs Hes.
  destruct (start_bounded l s es Hpos Hne Hs Hes) as (s' & Hrun & Hb).
  exists s'. split; [exact Hrun|].
  split; [apply Hb|exact (bounded_bound l Hpos s' Hb)].
Qed.

(** Over runs whose ticks all take the schedule of [intervalCallback] this
    is a statement about [run]. *)
Lemma at_render_runs_bounded l s es :
  positive l -> l <> [] -> Seeded l s -> Forall engineOp es ->
  exists s', run (Start :: es) s = Some s' /\
    isUsingSteps s' = true /\
    remainingTime s' <= mainTimerRemainingTime s'.
Proof.
  intros Hpos Hne Hs Hes.
  assert (Hes' : Forall (fun m => engineOp (snd m)) (map (pair AtRender) es))
    by (induction Hes; constructor; assumption).
  destruct (start_bounded l s _ Hpos Hne Hs Hes') as (s' & Hrun & Hb).
  exists s'. split; [|split; [apply Hb|exact (bounded_bound l Hpos s' Hb)]].
  rewrite <- (runOn_at_render (Start :: es)). exact Hrun.
Qed.

(** ** Reset *)

(** The facts about [commit s x] that need no knowledge of the alarm. *)
Ltac commit_core s :=
  match goal with
  | |- context [commit s ?x] =>
      let n := fresh "n" in
      let Hn := fresh "Hn" in
      set (n := x);
      assert (Hn : noReseed s n)
        by (first [ left; split; reflexivity
                  | left; split; cbn; congruence
                  | right; left; assumption
                  | right; right; reflexivity ]);
      destruct (commit_untouched s n)
        as (Kname & Khours & Kminutes & Kseconds & Ksteps & Kident &
            KisRunning & Kindex & Kstep & Kmain & Kpaused & Kpresets &
            Kmode & Kstorage);
      pose proof (commit_main_quiet s n Hn) as Koverall;
      pose proof (commit_committed s n) as Kcommitted;
      clear Hn;
      cbn in Kname, Khours, Kminutes, Kseconds, Ksteps, Kident, KisRunning,
        Kindex, Kstep, Kmain, Kpaused, Kpresets, Kmode, Kstorage, Koverall;
      unfold skip in Kname, Khours, Kminutes, Kseconds, Ksteps, Kident,
        KisRunning, Kindex, Kstep, Kmain, Kpaused, Kpresets, Kmode, Kstorage,
        Koverall
  end.

Lemma start_keeps_seed s :
  isMainTimerRunning s = false -> isPaused s = false -> committed s ->
  currentStepIndex s = 0 ->
  match steps s with
  | step0 :: _ =>
      isUsingSteps s = true /\ remainingTime s = TimerStep.duration step0
  | [] => mainTimerRemainingTime s = inputTotal s
  end ->
  exists s', dispatch Start s = Some s' /\ counters s' = counters s.
Proof.
  intros Hr Hp Hc Hi Hseed.
  unfold dispatch, handle, startMainTimer, counters. rewrite Hr, Hp.
  destruct (steps s) as [|st0 l'] eqn:Hl.
  - destruct (0 <? inputTotal s) eqn:Ht; cbn;
      (eexists; split; [reflexivity|]); commit_core s;
      rewrite Kindex, Kstep, Koverall, ?Hseed; reflexivity.
  - destruct Hseed as [Hm Hd]. cbn.
    eexists. split; [reflexivity|]. commit_core s.
    rewrite Kindex, Kstep, Koverall, Hi, Hd. reflexivity.
Qed.

(** C4. From any state [reset()] leaves the engine idle and the alarm
    silent, with the counters [start()] seeds: step 0, and either the first
    step's duration and the duration of the whole list, or the seconds of
    the entry fields.  A [start()] that follows finds them in place. *)
Theorem reset_reseeds s :
  modeFollowsSteps s ->
  exists s', dispatch Reset s = Some s' /\
    isMainTimerRunning s' = false /\ isPaused s' = false /\
    isRunning s' = false /\ isAlarmPlaying s' = false /\
    alarmPlays s' = alarmPlays s /\
    currentStepIndex s' = 0 /\
    match steps s with
    | step0 :: _ =>
        remainingTime s' = TimerStep.duration step0 /\
        mainTimerRemainingTime s' = totalDuration (steps s)
    | [] => mainTimerRemainingTime s' = inputTotal s
    end /\
    exists s'', dispatch Start s' = Some s'' /\ counters s'' = counters s'.
Proof.
  intros Hmode.
  unfold dispatch at 1. unfold handle, resetMainTimer.
  destruct (steps s) as [|st0 l'] eqn:Hl.
  - assert (Hbranch :
      match isUsingSteps s, @nil TimerStep.t with
      | true, step0 :: _ =>
          setRemainingTime (TimerStep.duration step0) >>>
          setMainTimerRemainingTime (totalDuration [])
      | _, _ =>
          setMainTimerRemainingTime (inputTotal s) >>>
          setDisplay (inputHours s) (inputMinutes s) (inputSeconds s)
      end =
      (setMainTimerRemainingTime (inputTotal s) >>>
       setDisplay (inputHours s) (inputMinutes s) (inputSeconds s)))
      by (destruct (isUsingSteps s); reflexivity).
    rewrite Hbranch. cbn.
    eexists. split; [reflexivity|].
    commit_facts s ltac:(left; reflexivity).
    repeat (split; [assumption|]).
    apply start_keeps_seed; try assumption.
    rewrite Ksteps, Hl, Koverall. unfold inputTotal. congruence.
  - assert (Hm : isUsingSteps s = true)
      by (apply Hmode; rewrite Hl; discriminate).
    rewrite Hm. cbn.
    eexists. split; [reflexivity|].
    commit_facts s ltac:(left; reflexivity).
    repeat (split; [assumption|]). split; [split; assumption|].
    apply start_keeps_seed; try assumption.
    rewrite Ksteps, Hl, Kmode. split; assumption.
Qed.

(** ** The entry fields *)

Lemma wrap_step v delta m top :
  top = m - 1 -> 0 <= v < m -> delta = 1 \/ delta = -1 ->
  (if m <=? v + delta then 0 else if v + delta <? 0 then top else v + delta)
  = (v + delta) mod m.
Proof.
  intros -> Hv Hd.
  destruct (m <=? v + delta) eqn:E1; [apply Z.leb_le in E1|apply Z.leb_gt in E1].
  - assert (v + delta = m) as -> by lia. symmetry. apply Z_mod_same_full.
  - destruct (v + delta <? 0) eqn:E2;
      [apply Z.ltb_lt in E2|apply Z.ltb_ge in E2].
    + assert (v + delta = -1) as -> by lia.
      apply Z.mod_unique with (q := -1); lia.
    + symmetry. apply Z.mod_small. lia.
Qed.

Lemma adjust_idle type delta s :
  isMainTimerRunning s = false -> validEntry s -> delta = 1 \/ delta = -1 ->
  exists s', dispatch (Adjust type delta) s = Some s' /\
    entry type s' = (entry type s + delta) mod modulus type /\
    (forall other, other <> type -> entry other s' = entry other s) /\
    isMainTimerRunning s' = false /\ validEntry s'.
Proof.
  intros Hr Hv Hd.
  unfold dispatch, handle, handleTimeChange. rewrite Hr.
  assert (Hnew : forall t, 0 <= (entry t s + delta) mod modulus t < modulus t).
  { intros t. apply Z.mod_pos_bound. destruct t; reflexivity. }
  pose proof (wrap_step _ delta 24 23 eq_refl (Hv Hours) Hd) as Wh.
  pose proof (wrap_step _ delta 60 59 eq_refl (Hv Minutes) Hd) as Wm.
  pose proof (wrap_step _ delta 60 59 eq_refl (Hv Seconds) Hd) as Ws.
  destruct type; destruct (isUsingSteps s); cbn;
    (eexists; split; [reflexivity|]); commit_core s;
    unfold updInputHours, updInputMinutes, updInputSeconds in *;
    cbn in Khours, Kminutes, Kseconds, Wh, Wm, Ws;
    (split; [congruence|]);
    (split; [intros [] Ho; try contradiction; cbn; congruence|]);
    (split; [congruence|]);
    intros t; pose proof (Hv t); pose proof (Hnew t);
      destruct t; cbn in *; congruence.
Qed.

Lemma modulus_pos type : 0 < modulus type.
Proof. destruct type; reflexivity. Qed.

Lemma adjust_many type k : forall s,
  isMainTimerRunning s = false -> validEntry s ->
  exists s', run (repeat (Adjust type 1) k) s = Some s' /\
    entry type s' = (entry type s + Z.of_nat k) mod modulus type /\
    (forall other, other <> type -> entry other s' = entry other s) /\
    isMainTimerRunning s' = false /\ validEntry s'.
Proof.
  pose proof (modulus_pos type) as Hm.
  induction k as [|k IH]; intros s Hr Hv.
  - exists s. split; [reflexivity|]. split; [|auto].
    rewrite Z.add_0_r. symmetry. apply Z.mod_small, Hv.
  - destruct (adjust_idle type 1 s Hr Hv (or_introl eq_refl))
      as (s1 & Hd & He & Ho & Hr1 & Hv1).
    destruct (IH s1 Hr1 Hv1) as (s' & Hrun & He' & Ho' & Hr' & Hv').
    exists s'. split; [cbn [repeat run]; rewrite Hd; exact Hrun|].
    split; [|split; [|auto]].
    + rewrite He', He, Z.add_mod_idemp_l by lia. f_equal. lia.
    + intros other Hne. rewrite Ho', Ho by assumption. reflexivity.
Qed.

Lemma adjust_there_and_back type d1 d2 s :
  isMainTimerRunning s = false -> validEntry s ->
  d1 = 1 \/ d1 = -1 -> d2 = 1 \/ d2 = -1 -> d1 + d2 = 0 ->
  exists s', run [Adjust type d1; Adjust type d2] s = Some s' /\
    forall t, entry t s' = entry t s.
Proof.
  intros Hr Hv H1 H2 Hsum. pose proof (modulus_pos type) as Hm.
  destruct (adjust_idle type d1 s Hr Hv H1) as (s1 & Hd & He & Ho & Hr1 & Hv1).
  destruct (adjust_idle type d2 s1 Hr1 Hv1 H2) as (s' & Hd' & He' & Ho' & _).
  exists s'. split.
  - cbn [run]. rewrite Hd. cbn [mbind option_bind]. rewrite Hd'. reflexivity.
  - intros t. destruct (decide (t = type)) as [->|Hne].
    + rewrite He', He, Z.add_mod_idemp_l by lia.
      replace (entry type s + d1 + d2) with (entry type s) by lia.
      apply Z.mod_small, Hv.
    + rewrite Ho', Ho by assumption. reflexivity.
Qed.

(** C7. While the engine is idle, [adjust(field, delta)] with [delta] 1 or
    -1 adds [delta] to the field modulo 24 (hours) or 60 (minutes, seconds)
    and leaves the other fields: one step up from the maximum is 0, one step
    down from 0 is the maximum, a step up and a step down (in either order)
    cancel, and so does a full cycle of steps up. *)
Theorem adjust_wraps_around type s :
  isMainTimerRunning s = false -> validEntry s ->
  (forall delta, delta = 1 \/ delta = -1 ->
     exists s', dispatch (Adjust type delta) s = Some s' /\
       entry type s' = (entry type s + delta) mod modulus type /\
       forall other, other <> type -> entry other s' = entry other s) /\
  (entry type s = modulus type - 1 ->
     exists s', dispatch (Adjust type 1) s = Some s' /\ entry type s' = 0) /\
  (entry type s = 0 ->
     exists s', dispatch (Adjust type (-1)) s = Some s' /\
       entry type s' = modulus type - 1) /\
  (exists s', run [Adjust type 1; Adjust type (-1)] s = Some s' /\
     forall t, entry t s' = entry t s) /\
  (exists s', run [Adjust type (-1); Adjust type 1] s = Some s' /\
     forall t, entry t s' = entry t s) /\
  (exists s', run (repeat (Adjust type 1) (Z.to_nat (modulus type))) s
              = Some s' /\
     forall t, entry t s' = entry t s).
Proof.
  intros Hr Hv. pose proof (modulus_pos type) as Hm.
  split; [|split; [|split; [|split; [|split]]]].
  - intros delta Hd.
    destruct (adjust_idle type delta s Hr Hv Hd) as (s' & H1 & H2 & H3 & _).
    eauto.
  - intros Hmax.
    destruct (adjust_idle type 1 s Hr Hv (or_introl eq_refl))
      as (s' & H1 & H2 & _).
    exists s'. split; [exact H1|]. rewrite H2, Hmax.
    replace (modulus type - 1 + 1) with (modulus type) by lia.
    apply Z_mod_same_full.
  - intros Hzero.
    destruct (adjust_idle type (-1) s Hr Hv (or_intror eq_refl))
      as (s' & H1 & H2 & _).
    exists s'. split; [exact H1|]. rewrite H2, Hzero.
    symmetry. apply Z.mod_unique with (q := -1); lia.
  - apply adjust_there_and_back; auto.
  - apply adjust_there_and_back; auto.
  - destruct (adjust_many type (Z.to_nat (modulus type)) s Hr Hv)
      as (s' & H1 & H2 & H3 & _).
    exists s'. split; [exact H1|].
    intros t. destruct (decide (t = type)) as [->|Hne]; [|auto].
    rewrite H2, Z2Nat.id by lia.
    replace (entry type s + modulus type)
      with (entry type s + 1 * modulus type) by lia.
    rewrite Z.mod_add by lia. apply Z.mod_small, Hv.
Qed.

Lemma commit_display_quiet o n :
  noReseed o n ->
  displayOf (commit o n) =
  if negb (mainTimerRemainingTime o =? mainTimerRemainingTime n)
     && (0 <? mainTimerRemainingTime n)
  then (hoursOf (mainTimerRemainingTime n),
        minutesOf (mainTimerRemainingTime n),
        secondsOf (mainTimerRemainingTime n))
  else displayOf n.
Proof.
  intros H. unfold commit. cbv zeta.
  rewrite (render_display_quiet (render o n) (render n (render o n)))
    by apply render_then_noReseed.
  rewrite (render_main_quiet n (render o n)) by apply render_then_noReseed.
  rewrite Z.eqb_refl. cbn [negb andb].
  rewrite (render_display_quiet n (render o n)) by apply render_then_noReseed.
  rewrite (render_main_quiet o n) by exact H.
  rewrite Z.eqb_refl. cbn [negb andb].
  apply render_display_quiet, H.
Qed.

Lemma clock_of_entry h m s :
  0 <= h -> 0 <= m < 60 -> 0 <= s < 60 ->
  hoursOf (h * 3600 + m * 60 + s) = h /\
  minutesOf (h * 3600 + m * 60 + s) = m /\
  secondsOf (h * 3600 + m * 60 + s) = s.
Proof.
  intros Hh Hm Hs. unfold hoursOf, minutesOf, secondsOf.
  Z.to_euclidean_division_equations. lia.
Qed.

(** C10. An adjustment made while idle in simple mode puts into the
    remaining time and the display the entry as it stood before the
    adjustment: the fields have moved on, the seeded time has not. *)
Theorem adjust_seeds_previous_entry type delta s :
  isMainTimerRunning s = false -> isUsingSteps s = false ->
  exists s', dispatch (Adjust type delta) s = Some s' /\
    mainTimerRemainingTime s' = inputTotal s /\
    (validEntry s ->
       displayOf s' = (inputHours s, inputMinutes s, inputSeconds s) /\
       (delta = 1 \/ delta = -1 ->
          entry type s' <> entry type s /\
          mainTimerRemainingTime s' <> inputTotal s')).
Proof.
  intros Hr Hm.
  assert (Hshape : exists n,
    handle (Adjust type delta) s = Some n /\
    noReseed s n /\ mainTimerRemainingTime n = inputTotal s /\
    displayOf n = (inputHours s, inputMinutes s, inputSeconds s)).
  { unfold handle, handleTimeChange. rewrite Hr, Hm.
    destruct type; cbn; (eexists; split; [reflexivity|]);
      (split; [left; split; reflexivity|split; reflexivity]). }
  destruct Hshape as (n & Hh & Hn & Ht & Hdisp).
  unfold dispatch. rewrite Hh. cbn [mbind option_bind].
  eexists. split; [reflexivity|].
  split; [rewrite commit_main_quiet by exact Hn; exact Ht|].
  intros Hv. split.
  - rewrite commit_display_quiet by exact Hn. rewrite Ht, Hdisp.
    destruct (negb (mainTimerRemainingTime s =? inputTotal s)
              && (0 <? inputTotal s)); [|reflexivity].
    pose proof (Hv Hours) as Hh'. pose proof (Hv Minutes) as Hm'.
    pose proof (Hv Seconds) as Hs'. cbn in Hh', Hm', Hs'.
    destruct (clock_of_entry (inputHours s) (inputMinutes s) (inputSeconds s))
      as (E1 & E2 & E3); try lia.
    unfold inputTotal. rewrite E1, E2, E3. reflexivity.
  - intros Hd.
    destruct (adjust_idle type delta s Hr Hv Hd)
      as (s' & Hd' & He & Ho & _ & Hv').
    unfold dispatch in Hd'. rewrite Hh in Hd'. cbn [mbind option_bind] in Hd'.
    inversion Hd' as [Hs']. rewrite Hs'.
    assert (Hmain : mainTimerRemainingTime s' = inputTotal s)
      by (rewrite <- Hs'; rewrite commit_main_quiet by exact Hn; exact Ht).
    assert (Hne : entry type s' <> entry type s).
    { rewrite He. pose proof (Hv type) as Hb.
      pose proof (modulus_pos type).
      assert (2 <= modulus type) by (destruct type; cbn; lia).
      intros Heq. destruct Hd as [-> | ->].
      - destruct (Z.eq_dec (entry type s + 1) (modulus type)) as [E|E].
        + rewrite E, Z_mod_same_full in Heq. lia.
        + rewrite Z.mod_small in Heq by lia. lia.
      - destruct (Z.eq_dec (entry type s) 0) as [E|E].
        + rewrite E in Heq.
          rewrite <- (Z.mod_unique (0 + -1) (modulus type) (-1)
                        (modulus type - 1)) in Heq by lia. lia.
        + rewrite Z.mod_small in Heq by lia. lia. }
    split; [exact Hne|].
    rewrite Hmain. unfold inputTotal.
    pose proof (Ho Hours) as Oh. pose proof (Ho Minutes) as Om.
    pose proof (Ho Seconds) as Os.
    destruct type; cbn in *;
      [ rewrite (Om ltac:(discriminate)), (Os ltac:(discriminate))
      | rewrite (Oh ltac:(discriminate)), (Os ltac:(discriminate))
      | rewrite (Oh ltac:(discriminate)), (Om ltac:(discriminate)) ]; lia.
Qed.

(** ** Commands the engine ignores *)

(** C5, as the code has it.  [start()] on a running engine raises no error
    and leaves the status, the three counters, the step list and the number
    of alarms played as they are; it silences an alarm that is sounding. *)
Theorem start_while_running s :
  running s = true -> committed s -> modeFollowsSteps s ->
  exists s', dispatch Start s = Some s' /\
    isMainTimerRunning s' = true /\ isPaused s' = false /\
    isRunning s' = isRunning s /\ counters s' = counters s /\
    steps s' = steps s /\ alarmPlays s' = alarmPlays s /\
    isAlarmPlaying s' = false.
Proof.
  intros Hrun Hc Hmode. destruct (running_flags s Hrun) as [Hr Hp].
  unfold dispatch, handle, startMainTimer, counters. rewrite Hr, Hp.
  destruct (steps s) as [|st0 l'] eqn:Hl.
  - destruct (0 <? inputTotal s); cbn;
      (eexists; split; [reflexivity|]);
      commit_facts s ltac:(right; left; exact Hc);
      repeat split; congruence.
  - assert (Hm : isUsingSteps s = true)
      by (apply Hmode; rewrite Hl; discriminate).
    cbn. eexists. split; [reflexivity|].
    commit_facts s ltac:(right; left; exact Hc).
    repeat split; congruence.
Qed.

(** C6, as the code has it.  While [isMainTimerRunning] holds, that is
    while the engine runs, [adjust] changes nothing at all. *)
Theorem adjust_ignored_while_running type delta s :
  isMainTimerRunning s = true -> committed s ->
  dispatch (Adjust type delta) s = Some s.
Proof.
  intros Hr Hc. unfold dispatch, handle, handleTimeChange. rewrite Hr.
  cbn. unfold skip. rewrite commit_id; auto using noReseed_refl.
Qed.

(** A paused engine has [isMainTimerRunning] false, and [adjust] goes
    through as it does when idle. *)
Lemma adjust_applies_while_paused type delta s :
  isPaused s = true -> isMainTimerRunning s = false -> validEntry s ->
  delta = 1 \/ delta = -1 ->
  exists s', dispatch (Adjust type delta) s = Some s' /\
    entry type s' = (entry type s + delta) mod modulus type.
Proof.
  intros _ Hr Hv Hd.
  destruct (adjust_idle type delta s Hr Hv Hd) as (s' & H1 & H2 & _). eauto.
Qed.

(** ** The step list *)

Lemma render_main_reseed o n :
  stepsIdent o <> stepsIdent n -> steps n <> [] -> isUsingSteps n = true ->
  mainTimerRemainingTime (render o n) = totalDuration (steps n).
Proof.
  intros Hid Hl Hm.
  unfold render, countdownEffect, stepsEffect, remainingEffect, andThen.
  apply Nat.eqb_neq in Hid. rewrite Hid, Hm.
  destruct (steps n) as [|st l'] eqn:E; [contradiction|]. cbn.
  break_effects; reflexivity.
Qed.

Lemma commit_main_reseed o n :
  stepsIdent o <> stepsIdent n -> steps n <> [] -> isUsingSteps n = true ->
  mainTimerRemainingTime (commit o n) = totalDuration (steps n).
Proof.
  intros Hid Hl Hm. unfold commit. cbv zeta.
  rewrite !render_main_quiet by apply render_then_noReseed.
  apply render_main_reseed; assumption.
Qed.

Lemma dispatch_committed e s s' : dispatch e s = Some s' -> committed s'.
Proof.
  unfold dispatch. destruct (handle e s); cbn; [|discriminate].
  intros H. inversion H. apply commit_committed.
Qed.

Lemma addStep_rejects_empty now s :
  inputTotal s <= 0 -> committed s -> dispatch (AddStep now) s = Some s.
Proof.
  intros Ht Hc. unfold dispatch, handle, addStep.
  destruct (0 <? inputTotal s) eqn:E; [apply Z.ltb_lt in E; lia|].
  cbn. unfold skip. rewrite commit_id; auto using noReseed_refl.
Qed.

Lemma addStep_appends now s :
  0 < inputTotal s ->
  exists s', dispatch (AddStep now) s = Some s' /\
    steps s' = steps s ++ [newStep now s] /\
    isUsingSteps s' = true /\
    mainTimerRemainingTime s' = totalDuration (steps s ++ [newStep now s]) /\
    isMainTimerRunning s' = isMainTimerRunning s /\
    isPaused s' = isPaused s /\ committed s'.
Proof.
  intros Ht. unfold dispatch, handle, addStep.
  apply Z.ltb_lt in Ht. rewrite Ht. cbn [mbind option_bind].
  eexists. split; [reflexivity|].
  match goal with |- context [commit s ?x] => set (n := x) end.
  destruct (commit_untouched s n)
    as (_ & _ & _ & _ & Ksteps & _ & _ & _ & _ & Kmain & Kpaused & _ &
        Kmode & _).
  split; [exact Ksteps|]. split; [exact Kmode|].
  split; [|split; [exact Kmain|split; [exact Kpaused|apply commit_committed]]].
  apply (commit_main_reseed s n).
  - cbn. lia.
  - cbn. destruct (steps s); discriminate.
  - reflexivity.
Qed.

(** With an empty name the step is called "Step n", [n] its place in the
    list. *)
Lemma addStep_default_name now s :
  timerName s = "" ->
  TimerStep.name (newStep now s) =
  "Step " +:+ pretty (Z.of_nat (length (steps s ++ [newStep now s]))).
Proof.
  intros H. unfold newStep, stepName. rewrite H. cbn.
  rewrite length_app. cbn. do 2 f_equal. lia.
Qed.

(** The id is the reading of the clock; it is new as long as the clock has
    moved on since the ids in the list were taken. *)
Lemma addStep_fresh_id now s :
  Forall (fun st => TimerStep.id st < now) (steps s) ->
  NoDup (map TimerStep.id (steps s)) ->
  NoDup (map TimerStep.id (steps s ++ [newStep now s])).
Proof.
  intros Hlt Hnd. rewrite map_app. cbn.
  apply NoDup_app. split; [exact Hnd|]. split.
  - intros x Hx Hin. apply list_elem_of_singleton in Hin. subst x.
    apply list_elem_of_fmap in Hx as (st & Hid & Hst).
    rewrite Forall_forall in Hlt. specialize (Hlt st Hst). lia.
  - apply NoDup_singleton.
Qed.

Lemma addStep_seeds now s :
  isMainTimerRunning s = false -> isPaused s = false -> 0 < inputTotal s ->
  exists s', dispatch (AddStep now) s = Some s' /\
             Seeded (steps s ++ [newStep now s]) s'.
Proof.
  intros Hr Hp Ht.
  destruct (addStep_appends now s Ht) as (s' & Hd & H1 & H2 & H3 & H4 & H5 & H6).
  exists s'. split; [exact Hd|]. constructor; congruence.
Qed.

Lemma deleteStep_ignored_while_running stepId s :
  isRunning s = true -> committed s -> dispatch (DeleteStep stepId) s = Some s.
Proof.
  intros Hr Hc. unfold dispatch, handle, deleteStep. rewrite Hr.
  cbn. unfold skip. rewrite commit_id; auto using noReseed_refl.
Qed.

Lemma clearAllSteps_ignored_while_running s :
  isRunning s = true -> committed s -> dispatch ClearAllSteps s = Some s.
Proof.
  intros Hr Hc. unfold dispatch, handle, clearAllSteps. rewrite Hr.
  cbn. unfold skip. rewrite commit_id; auto using noReseed_refl.
Qed.

Lemma handle_modeFollowsSteps e s n :
  modeFollowsSteps s -> handle e s = Some n -> modeFollowsSteps n.
Proof.
  unfold modeFollowsSteps. intros Hs Hh.
  destruct e; cbn in Hh.
  - (* Start *)
    inversion Hh; subst n. unfold startMainTimer.
    destruct (steps s) as [|st0 l'] eqn:Hl.
    + destruct (0 <? inputTotal s), (isMainTimerRunning s); cbn;
        rewrite ?Hl; contradiction.
    + destruct (isPaused s), (isMainTimerRunning s); cbn; reflexivity.
  - inversion Hh; subst n. exact Hs.
  - inversion Hh; subst n. exact Hs.
  - (* Reset *)
    inversion Hh; subst n. unfold resetMainTimer.
    destruct (isUsingSteps s) eqn:Hm, (steps s) as [|st0 l'] eqn:Hl; cbn;
      rewrite ?Hl, ?Hm; try contradiction; try reflexivity.
    intros _. apply Hs. discriminate.
  - (* Tick *)
    unfold tick, intervalCallback, overallUpdater, stepUpdater, simpleUpdater,
      resetSteps in Hh.
    destruct (isMainTimerRunning s && negb (isPaused s));
      [|inversion Hh; subst n; exact Hs].
    destruct (isUsingSteps s) eqn:Hm.
    + destruct (steps s) as [|st0 l'] eqn:Hl;
        repeat match type of Hh with
        | context [if ?c then _ else _] => destruct c
        | context [stepAt ?a ?b] => destruct (stepAt a b)
        end; cbn in Hh; inversion Hh; subst n; cbn;
        rewrite ?Hl, ?Hm; try contradiction; reflexivity.
    + destruct (mainTimerRemainingTime s <=? 1); cbn in Hh;
        inversion Hh; subst n; cbn; rewrite ?Hm; exact Hs.
  - (* Adjust *)
    inversion Hh; subst n. unfold handleTimeChange.
    destruct (isMainTimerRunning s); [exact Hs|].
    destruct type, (isUsingSteps s) eqn:Hm; cbn; rewrite ?Hm; exact Hs.
  - inversion Hh; subst n. unfold clearTimeInput.
    destruct (isUsingSteps s) eqn:Hm; cbn; rewrite ?Hm; exact Hs.
  - inversion Hh; subst n. exact Hs.
  - (* AddStep *)
    inversion Hh; subst n. unfold addStep.
    destruct (0 <? inputTotal s); [reflexivity|exact Hs].
  - (* DeleteStep *)
    inversion Hh; subst n. unfold deleteStep.
    destruct (isRunning s); [exact Hs|].
    destruct (List.filter _ (steps s)) as [|st l'] eqn:Hf; cbn.
    + contradiction.
    + intros _. apply Hs. intros E. rewrite E in Hf. discriminate.
  - inversion Hh; subst n. unfold clearAllSteps.
    destruct (isRunning s); [exact Hs|]. cbn. contradiction.
  - inversion Hh; subst n. unfold savePreset.
    destruct (steps s) eqn:Hl; cbn; rewrite ?Hl; [contradiction|].
    intros _. apply Hs. discriminate.
  - inversion Hh; subst n. reflexivity.
  - inversion Hh; subst n. exact Hs.
  - inversion Hh; subst n. exact Hs.
Qed.

(** Every state the component reaches is the result of a finished render
    and has the mode that goes with its step list. *)
Lemma reachable_invariants es : forall s s',
  committed s -> modeFollowsSteps s -> run es s = Some s' ->
  committed s' /\ modeFollowsSteps s'.
Proof.
  induction es as [|e es IH]; intros s s' Hc Hm Hrun; cbn in Hrun.
  - inversion Hrun; subst. auto.
  - destruct (dispatch e s) as [s1|] eqn:Hd; cbn in Hrun; [|discriminate].
    apply (IH s1 s'); [exact (dispatch_committed e s s1 Hd)| |exact Hrun].
    unfold dispatch in Hd.
    destruct (handle e s) as [n|] eqn:Hh; cbn in Hd; [|discriminate].
    inversion Hd; subst s1.
    pose proof (handle_modeFollowsSteps e s n Hm Hh) as Hn.
    destruct (commit_untouched s n)
      as (_ & _ & _ & _ & Ksteps & _ & _ & _ & _ & _ & _ & _ & Kmode & _).
    unfold modeFollowsSteps in *. rewrite Ksteps, Kmode. exact Hn.
Qed.

Lemma initialState_invariants stored :
  committed (initialState stored) /\ modeFollowsSteps (initialState stored).
Proof. split; [reflexivity|]. intros H. contradiction. Qed.

(** ** The store only grows *)

Module HeapFacts.

Import Heap.

Lemma extends_refl h : extends h h.
Proof. split; reflexivity. Qed.

Lemma extends_trans h1 h2 h3 : extends h1 h2 -> extends h2 h3 -> extends h1 h3.
Proof. intros [] []. split; etransitivity; eassumption. Qed.

Lemma newObject_extends st h : extends h (newObject st h).2.
Proof.
  split; cbn; [|reflexivity].
  apply insert_subseteq, (not_elem_of_dom (D := gset loc)), is_fresh.
Qed.

Lemma newArray_extends elems h : extends h (newArray elems h).2.
Proof.
  split; cbn; [reflexivity|].
  apply insert_subseteq, (not_elem_of_dom (D := gset loc)), is_fresh.
Qed.

Lemma newArray_presets elems h : presets (newArray elems h).2 = presets h.
Proof. reflexivity. Qed.

Lemma mutate_extends m h : extends h (mutate m h).
Proof.
  destruct m as [now nm total|running stepId|running|p]; cbn.
  - unfold addStep. destruct (0 <? total); [|apply extends_refl].
    split; cbn;
      apply insert_subseteq, (not_elem_of_dom (D := gset loc)), is_fresh.
  - unfold deleteStep. destruct running; [apply extends_refl|].
    apply (newArray_extends _ h).
  - unfold clearAllSteps. destruct running; [apply extends_refl|].
    apply (newArray_extends _ h).
  - apply (newArray_extends _ h).
Qed.

Lemma mutate_presets m h : presets (mutate m h) = presets h.
Proof.
  destruct m as [now nm total|running stepId|running|p]; cbn.
  - unfold addStep. destruct (0 <? total); reflexivity.
  - unfold deleteStep. destruct running; reflexivity.
  - unfold clearAllSteps. destruct running; reflexivity.
  - reflexivity.
Qed.

Lemma mutateAll_extends ms : forall h, extends h (mutateAll ms h).
Proof.
  induction ms as [|m ms IH]; intros h; cbn; [apply extends_refl|].
  eapply extends_trans; [apply mutate_extends|apply IH].
Qed.

Lemma mutateAll_presets ms : forall h, presets (mutateAll ms h) = presets h.
Proof.
  induction ms as [|m ms IH]; intros h; cbn; [reflexivity|].
  rewrite IH. apply mutate_presets.
Qed.

Lemma readSteps_extends h h' a l :
  extends h h' -> readSteps h a = Some l -> readSteps h' a = Some l.
Proof.
  intros [Ho Ha]. unfold readSteps. intros H.
  destruct (arrays h !! a) as [elems|] eqn:E; [|discriminate]. cbn in H.
  rewrite (lookup_weaken _ _ _ _ E Ha). cbn.
  apply mapM_Some. apply mapM_Some in H.
  eapply Forall2_impl; [exact H|].
  intros o st Hl. cbn in *. exact (lookup_weaken _ _ _ _ Hl Ho).
Qed.

Lemma savePreset_snapshot name now h l :
  readSteps h (stepsRef h) = Some l -> l <> [] ->
  exists a,
    presets (savePreset name now h) = presets h ++ [mkPreset now name a] /\
    a <> stepsRef h /\
    readSteps (savePreset name now h) a = Some l /\
    stepsRef (savePreset name now h) = stepsRef h.
Proof.
  intros Hread Hne. unfold savePreset, elements.
  unfold readSteps in Hread.
  destruct (arrays h !! stepsRef h) as [elems|] eqn:E; [|discriminate].
  cbn in Hread. cbn [default].
  destruct elems as [|o elems'].
  { cbn in Hread. inversion Hread. congruence. }
  set (es := o :: elems') in *.
  exists (fresh (dom (arrays h))). cbn.
  assert (Hfresh : arrays h !! fresh (dom (arrays h)) = None)
    by apply (not_elem_of_dom (D := gset loc)), is_fresh.
  split; [reflexivity|]. split; [congruence|]. split; [|reflexivity].
  unfold readSteps. cbn. rewrite lookup_insert_eq. cbn. exact Hread.
Qed.

End HeapFacts.

Lemma agrees_presets_extend h h' (ps : list Heap.PresetRef) qs :
  Heap.extends h h' ->
  Forall2 (fun p q =>
             Heap.id p = Preset.id q /\ Heap.name p = Preset.name q /\
             Heap.readSteps h (Heap.steps p) = Some (Preset.steps q)) ps qs ->
  Forall2 (fun p q =>
             Heap.id p = Preset.id q /\ Heap.name p = Preset.name q /\
             Heap.readSteps h' (Heap.steps p) = Some (Preset.steps q)) ps qs.
Proof.
  intros He H. eapply Forall2_impl; [exact H|].
  intros p q (H1 & H2 & H3). eauto using HeapFacts.readSteps_extends.
Qed.

Lemma agrees_elements h s :
  agrees h s ->
  exists elems,
    Heap.arrays h !! Heap.stepsRef h = Some elems /\
    Heap.elements h (Heap.stepsRef h) = elems /\
    Forall2 (fun o st => Heap.objects h !! o = Some st) elems (steps s).
Proof.
  intros [H _]. unfold Heap.readSteps, Heap.elements in *.
  destruct (Heap.arrays h !! Heap.stepsRef h) as [elems|]; [|discriminate].
  exists elems. split; [reflexivity|]. split; [reflexivity|].
  apply mapM_Some. exact H.
Qed.

Lemma agrees_addStep now h s :
  agrees h s ->
  agrees (Heap.addStep now (timerName s) (inputTotal s) h) (addStep now s s).
Proof.
  intros Ha. destruct (agrees_elements h s Ha) as (elems & Harr & Hel & Hobj).
  destruct Ha as [_ Hps].
  unfold Heap.addStep, addStep.
  destruct (0 <? inputTotal s); [|split; [|exact Hps]].
  2:{ unfold Heap.readSteps. rewrite Harr. cbn. apply mapM_Some, Hobj. }
  rewrite Hel.
  set (st := TimerStep.mk now _ (inputTotal s)).
  assert (Hst : st = TimerStep.mk now (stepName s) (inputTotal s)).
  { unfold st, stepName. rewrite (Forall2_length _ _ _ Hobj). reflexivity. }
  set (o := fresh (dom (Heap.objects h))).
  set (a := fresh (dom (Heap.arrays h))).
  assert (Ho : Heap.objects h !! o = None)
    by apply (not_elem_of_dom (D := gset Heap.loc)), is_fresh.
  split; cbn.
  - unfold Heap.readSteps. cbn. fold a. rewrite lookup_insert_eq. cbn.
    apply mapM_Some. apply Forall2_app.
    + eapply Forall2_impl; [exact Hobj|]. intros o' st' Hl. cbn in *.
      fold o. rewrite lookup_insert_ne; [exact Hl|]. congruence.
    + constructor; [|constructor]. fold o. rewrite lookup_insert_eq.
      f_equal. exact Hst.
  - eapply agrees_presets_extend; [|exact Hps].
    split; cbn; apply insert_subseteq; [exact Ho|].
    apply (not_elem_of_dom (D := gset Heap.loc)), is_fresh.
Qed.

Lemma filter_agrees (h : Heap.t) stepId elems l :
  Forall2 (fun o st => Heap.objects h !! o = Some st) elems l ->
  Forall2 (fun o st => Heap.objects h !! o = Some st)
    (List.filter
       (fun o =>
          match Heap.objects h !! o with
          | Some step => negb (TimerStep.id step =? stepId)
          | None => false
          end) elems)
    (List.filter (fun step => negb (TimerStep.id step =? stepId)) l).
Proof.
  induction 1 as [|o st elems l Hl _ IH]; cbn; [constructor|].
  rewrite Hl. destruct (negb (TimerStep.id st =? stepId)); [|exact IH].
  constructor; assumption.
Qed.

Lemma agrees_newArray h s elems l :
  agrees h s ->
  Forall2 (fun o st => Heap.objects h !! o = Some st) elems l ->
  let '(a, h1) := Heap.newArray elems h in
  Heap.readSteps h1 a = Some l /\
  Forall2 (fun p q =>
             Heap.id p = Preset.id q /\ Heap.name p = Preset.name q /\
             Heap.readSteps h1 (Heap.steps p) = Some (Preset.steps q))
          (Heap.presets h) (presets s).
Proof.
  intros [_ Hps] Hobj. cbn. split.
  - unfold Heap.readSteps. cbn. rewrite lookup_insert_eq. cbn.
    apply mapM_Some, Hobj.
  - eapply agrees_presets_extend; [|exact Hps].
    apply (HeapFacts.newArray_extends elems h).
Qed.

Lemma agrees_deleteStep stepId h s :
  agrees h s ->
  agrees (Heap.deleteStep (isRunning s) stepId h) (deleteStep stepId s s).
Proof.
  intros Ha. destruct (agrees_elements h s Ha) as (elems & Harr & Hel & Hobj).
  unfold Heap.deleteStep, deleteStep.
  destruct (isRunning s); [exact Ha|]. rewrite Hel.
  pose proof (agrees_newArray h s _ _ Ha (filter_agrees h stepId _ _ Hobj))
    as [H1 H2].
  split; [|destruct (List.filter _ (steps s)); exact H2].
  destruct (List.filter _ (steps s)); exact H1.
Qed.

Lemma agrees_clearAllSteps h s :
  agrees h s ->
  agrees (Heap.clearAllSteps (isRunning s) h) (clearAllSteps s s).
Proof.
  intros Ha. unfold Heap.clearAllSteps, clearAllSteps.
  destruct (isRunning s); [exact Ha|].
  pose proof (agrees_newArray h s [] [] Ha ltac:(constructor)) as [H1 H2].
  split; [exact H1|exact H2].
Qed.

Lemma agrees_savePreset name now h s :
  agrees h s ->
  agrees (Heap.savePreset name now h) (savePreset name now s s).
Proof.
  intros Ha. destruct (agrees_elements h s Ha) as (elems & Harr & Hel & Hobj).
  unfold Heap.savePreset, savePreset. rewrite Hel.
  destruct Hobj as [|o st elems l Ho Hrest]; [exact Ha|].
  pose proof (agrees_newArray h s (o :: elems) (st :: l) Ha
                ltac:(constructor; assumption)) as [H1 H2].
  destruct Ha as [Hlive _]. split.
  - eapply HeapFacts.readSteps_extends; [|exact Hlive].
    apply (HeapFacts.newArray_extends (o :: elems) h).
  - cbn. apply Forall2_app; [exact H2|].
    constructor; [|constructor]. cbn. auto.
Qed.

Lemma agrees_loadPreset p q h s :
  agrees h s ->
  Heap.readSteps h (Heap.steps p) = Some (Preset.steps q) ->
  agrees (Heap.loadPreset p h) (loadPreset q s).
Proof.
  intros Ha Hp. unfold Heap.loadPreset, loadPreset, Heap.elements.
  unfold Heap.readSteps in Hp.
  destruct (Heap.arrays h !! Heap.steps p) as [elems|]; [|discriminate].
  cbn in Hp. apply mapM_Some in Hp. cbn [default].
  pose proof (agrees_newArray h s elems _ Ha Hp) as [H1 H2].
  split; [exact H1|exact H2].
Qed.

(** The presets are not a dependency of any effect and no handler of the
    step list writes them. *)
Lemma presets_kept_by_step_edits e s s' :
  match e with
  | AddStep _ | DeleteStep _ | ClearAllSteps => True
  | _ => False
  end ->
  dispatch e s = Some s' -> presets s' = presets s /\ storage s' = storage s.
Proof.
  intros He Hd. unfold dispatch in Hd.
  destruct (handle e s) as [n|] eqn:Hh; cbn in Hd; [|discriminate].
  inversion Hd; subst s'.
  destruct (commit_untouched s n)
    as (_ & _ & _ & _ & _ & _ & _ & _ & _ & _ & _ & Kp & _ & Ks).
  rewrite Kp, Ks.
  destruct e; try contradiction; cbn in Hh; inversion Hh; subst n.
  - unfold addStep. destruct (0 <? inputTotal s); split; reflexivity.
  - unfold deleteStep. destruct (isRunning s); [split; reflexivity|].
    destruct (List.filter _ (steps s)); split; reflexivity.
  - unfold clearAllSteps. destruct (isRunning s); split; reflexivity.
Qed.

(** C9. A preset that has been saved keeps its steps whatever is done to
    the live list afterwards: the new preset [p] holds the list [l] that was
    live when it was saved, and after any appends, removals, clearings and
    loads the collection still ends in [p], and every preset in it reads as
    it did. *)
Theorem preset_snapshot_independent h l name now ms :
  Heap.readSteps h (Heap.stepsRef h) = Some l -> l <> [] ->
  exists p,
    Heap.presets (Heap.savePreset name now h) = Heap.presets h ++ [p] /\
    Heap.id p = now /\ Heap.name p = name /\
    Heap.readSteps (Heap.savePreset name now h) (Heap.steps p) = Some l /\
    Heap.presets (Heap.mutateAll ms (Heap.savePreset name now h))
      = Heap.presets h ++ [p] /\
    forall q l',
      q ∈ Heap.presets (Heap.mutateAll ms (Heap.savePreset name now h)) ->
      Heap.readSteps (Heap.savePreset name now h) (Heap.steps q) = Some l' ->
      Heap.readSteps (Heap.mutateAll ms (Heap.savePreset name now h))
        (Heap.steps q) = Some l'.
Proof.
  intros Hread Hne.
  destruct (HeapFacts.savePreset_snapshot name now h l Hread Hne)
    as (a & Hps & _ & Ha & _).
  exists (Heap.mkPreset now name a).
  split; [exact Hps|]. split; [reflexivity|]. split; [reflexivity|].
  split; [exact Ha|]. split.
  - rewrite HeapFacts.mutateAll_presets. exact Hps.
  - intros q l' _ Hq.
    exact (HeapFacts.readSteps_extends _ _ _ _ (HeapFacts.mutateAll_extends ms _) Hq).
Qed.

(** ** Runs of the component from its first render *)

Example fiveSeconds_reached :
  run (repeat (Adjust Seconds 1) 5) (initialState []) = Some fiveSeconds.
Proof. reflexivity. Qed.

Example oneShortStep_reached :
  run [Adjust Seconds 1; AddStep 1700000000000] (initialState [])
  = Some oneShortStep.
Proof. reflexivity. Qed.

Example stepsAB_reached :
  run [Adjust Seconds 1; Adjust Seconds 1; Adjust Seconds 1;
       SetTimerName "A"; AddStep 1700000000000; Adjust Seconds (-1);
       SetTimerName "B"; AddStep 1700000004000] (initialState [])
  = Some stepsAB.
Proof. reflexivity. Qed.

Example secondStepRunning_reached :
  run [Adjust Seconds 1; AddStep 1700000000000; AddStep 1700000001000;
       Start; Tick] (initialState [])
  = Some secondStepRunning.
Proof. reflexivity. Qed.

Example pausedAtTwo_reached :
  run [Adjust Seconds 1; Adjust Seconds 1; Start; Pause] (initialState [])
  = Some pausedAtTwo.
Proof. reflexivity. Qed.

Example stepARunning_reached :
  run [Adjust Seconds 1; Adjust Seconds 1; Adjust Seconds 1;
       SetTimerName "A"; AddStep 1700000000000; Start; Tick] (initialState [])
  = Some stepARunning.
Proof. reflexivity. Qed.

Example stepsAB_steps : steps stepsAB = [stepA; stepB].
Proof. reflexivity. Qed.

Example stepsAB_seeded : Seeded [stepA; stepB] stepsAB.
Proof. constructor; reflexivity. Qed.

(** The second example of the specification: the run of A (3 s) and B (2 s)
    takes five ticks and plays three alarms, one at the end of A and two at
    the end of B. *)
Example stepsAB_run :
  exists s3 s5,
    run (Start :: repeat Tick 3) stepsAB = Some s3 /\
    alarmPlays s3 = 1%nat /\ currentStepIndex s3 = 1 /\ remainingTime s3 = 2 /\
    run (Start :: repeat Tick 5) stepsAB = Some s5 /\
    alarmPlays s5 = 3%nat /\ isMainTimerRunning s5 = false /\
    currentStepIndex s5 = 0 /\ remainingTime s5 = 3.
Proof. do 2 eexists. vm_compute. repeat split; reflexivity. Qed.

(** The first example of the specification: 00:00:05 counts 4, 3, 2, 1, 0
    and plays its alarm at the fifth tick. *)
Example fiveSeconds_run :
  exists s4 s5,
    run (Start :: repeat Tick 4) fiveSeconds = Some s4 /\
    mainTimerRemainingTime s4 = 1 /\ alarmPlays s4 = 0%nat /\
    isMainTimerRunning s4 = true /\
    run (Start :: repeat Tick 5) fiveSeconds = Some s5 /\
    mainTimerRemainingTime s5 = 0 /\ alarmPlays s5 = 1%nat /\
    isMainTimerRunning s5 = false.
Proof. do 2 eexists. vm_compute. repeat split; reflexivity. Qed.

(** ** The theorems at work *)

Lemma simple_countdown_completes_witness :
  steps fiveSeconds = [] /\ isMainTimerRunning fiveSeconds = false /\
  0 < inputTotal fiveSeconds /\
  exists s1, dispatch Start fiveSeconds = Some s1 /\
    (forall k, (k < Z.to_nat (inputTotal fiveSeconds))%nat ->
       exists sk, run (repeat Tick k) s1 = Some sk /\
         running sk = true /\
         mainTimerRemainingTime sk = inputTotal fiveSeconds - Z.of_nat k /\
         alarmPlays sk = alarmPlays fiveSeconds) /\
    exists s', run (repeat Tick (Z.to_nat (inputTotal fiveSeconds))) s1
               = Some s' /\
      isMainTimerRunning s' = false /\ isPaused s' = false /\
      mainTimerRemainingTime s' = 0 /\
      alarmPlays s' = S (alarmPlays fiveSeconds).
Proof.
  split; [reflexivity|]. split; [reflexivity|]. split; [reflexivity|].
  apply (simple_countdown_completes fiveSeconds); reflexivity.
Defined.

Lemma positive_AB : positive [stepA; stepB].
Proof. repeat constructor; discriminate. Defined.

Lemma sequential_run_completes_witness :
  positive [stepA; stepB] /\ [stepA; stepB] !! 0%nat = Some stepA /\
  Seeded [stepA; stepB] stepsAB /\
  exists s1, dispatch Start stepsAB = Some s1 /\
    (forall k, (k < Z.to_nat (totalDuration [stepA; stepB]))%nat ->
       exists sk, run (repeat Tick k) s1 = Some sk /\
         running sk = true /\
         mainTimerRemainingTime sk
           = totalDuration [stepA; stepB] - Z.of_nat k /\
         Z.of_nat (alarmPlays sk) =
           Z.of_nat (alarmPlays stepsAB) + currentStepIndex sk) /\
    exists s', run (repeat Tick (Z.to_nat (totalDuration [stepA; stepB]))) s1
               = Some s' /\
      isMainTimerRunning s' = false /\ isPaused s' = false /\
      mainTimerRemainingTime s' = totalDuration [stepA; stepB] /\
      currentStepIndex s' = 0 /\
      remainingTime s' = TimerStep.duration stepA /\
      alarmPlays s' = (alarmPlays stepsAB + length [stepA; stepB] + 1)%nat.
Proof.
  split; [exact positive_AB|]. split; [reflexivity|].
  split; [constructor; reflexivity|].
  apply (sequential_run_completes [stepA; stepB] stepsAB stepA).
  - exact positive_AB.
  - reflexivity.
  - constructor; reflexivity.
Defined.

(** C1 as it is stated fails on a single step of one second: its only tick
    plays the alarm twice. *)
Lemma sequential_run_one_alarm_per_step_counterexample :
  ~ (forall l s st0,
       positive l -> l !! 0%nat = Some st0 -> Seeded l s ->
       exists s',
         run (Start :: repeat Tick (Z.to_nat (totalDuration l))) s = Some s' /\
         alarmPlays s' = (alarmPlays s + length l)%nat /\
         isMainTimerRunning s' = false /\ isPaused s' = false /\
         mainTimerRemainingTime s' = totalDuration l /\
         currentStepIndex s' = 0 /\
         remainingTime s' = TimerStep.duration st0).
Proof.
  intros H.
  destruct (H (steps oneShortStep) oneShortStep
              (TimerStep.mk 1700000000000 "Step 1" 1))
    as (s' & Hrun & Hcount & _).
  - repeat constructor. discriminate.
  - reflexivity.
  - constructor; reflexivity.
  - vm_compute in Hrun. inversion Hrun; subst s'.
    vm_compute in Hcount. discriminate.
Qed.

Lemma overall_at_least_step_witness :
  positive [stepA; stepB] /\ [stepA; stepB] <> [] /\
  Seeded [stepA; stepB] stepsAB /\
  Forall (fun m => engineOp (snd m))
    [(AtRender, Tick); (AtRender, Pause); (AtRender, Start);
     (InCallback, Tick); (AtRender, Tick); (AtRender, Reset);
     (AtRender, Resume); (AtRender, Tick); (AtRender, Tick);
     (AtRender, Tick); (AtRender, Tick); (AtRender, Start);
     (InCallback, Tick); (AtRender, Resume); (AtRender, Tick)] /\
  exists s',
    runOn ((AtRender, Start) ::
           [(AtRender, Tick); (AtRender, Pause); (AtRender, Start);
            (InCallback, Tick); (AtRender, Tick); (AtRender, Reset);
            (AtRender, Resume); (AtRender, Tick); (AtRender, Tick);
            (AtRender, Tick); (AtRender, Tick); (AtRender, Start);
            (InCallback, Tick); (AtRender, Resume); (AtRender, Tick)])
          stepsAB = Some s' /\
    isUsingSteps s' = true /\
    remainingTime s' <= mainTimerRemainingTime s'.
Proof.
  assert (Hops :
    Forall (fun m => engineOp (snd m))
      [(AtRender, Tick); (AtRender, Pause); (AtRender, Start);
       (InCallback, Tick); (AtRender, Tick); (AtRender, Reset);
       (AtRender, Resume); (AtRender, Tick); (AtRender, Tick);
       (AtRender, Tick); (AtRender, Tick); (AtRender, Start);
       (InCallback, Tick); (AtRender, Resume); (AtRender, Tick)])
    by (repeat constructor).
  split; [exact positive_AB|]. split; [discriminate|].
  split; [constructor; reflexivity|]. split; [exact Hops|].
  apply (overall_at_least_step [stepA; stepB] stepsAB).
  - exact positive_AB.
  - discriminate.
  - constructor; reflexivity.
  - exact Hops.
Defined.

(** A step of two seconds, reset and resumed, with [start()] pressed on the
    running engine before its last tick.  When that tick runs its first
    updater inside the callback, [resetSteps] has seeded the step before the
    updater of the step runs: the step stands at 1 with 2 overall, and one
    alarm was played.  When both updaters run at the render the step stands
    at 2 and two alarms were played. *)
Example oneLongStep_last_tick :
  exists s1 s2,
    runOn [(AtRender, Start); (AtRender, Reset); (AtRender, Resume);
           (AtRender, Tick); (AtRender, Start); (InCallback, Tick)]
          oneLongStep = Some s1 /\
    counters s1 = (0, 1, 2) /\ alarmPlays s1 = 1%nat /\
    isMainTimerRunning s1 = false /\
    runOn [(AtRender, Start); (AtRender, Reset); (AtRender, Resume);
           (AtRender, Tick); (AtRender, Start); (AtRender, Tick)]
          oneLongStep = Some s2 /\
    counters s2 = (0, 2, 2) /\ alarmPlays s2 = 2%nat /\
    isMainTimerRunning s2 = false.
Proof. do 2 eexists. vm_compute. repeat split; reflexivity. Qed.

Lemma modeFollowsSteps_stepARunning : modeFollowsSteps stepARunning.
Proof. intros _. reflexivity. Defined.

Lemma reset_reseeds_witness :
  modeFollowsSteps stepARunning /\
  exists s', dispatch Reset stepARunning = Some s' /\
    isMainTimerRunning s' = false /\ isPaused s' = false /\
    isRunning s' = false /\ isAlarmPlaying s' = false /\
    alarmPlays s' = alarmPlays stepARunning /\
    currentStepIndex s' = 0 /\
    match steps stepARunning with
    | step0 :: _ =>
        remainingTime s' = TimerStep.duration step0 /\
        mainTimerRemainingTime s' = totalDuration (steps stepARunning)
    | [] => mainTimerRemainingTime s' = inputTotal stepARunning
    end /\
    exists s'', dispatch Start s' = Some s'' /\ counters s'' = counters s'.
Proof.
  split; [exact modeFollowsSteps_stepARunning|].
  apply (reset_reseeds stepARunning), modeFollowsSteps_stepARunning.
Defined.

Lemma modeFollowsSteps_secondStepRunning : modeFollowsSteps secondStepRunning.
Proof. intros _. reflexivity. Defined.

Lemma start_while_running_witness :
  running secondStepRunning = true /\ committed secondStepRunning /\
  modeFollowsSteps secondStepRunning /\
  exists s', dispatch Start secondStepRunning = Some s' /\
    isMainTimerRunning s' = true /\ isPaused s' = false /\
    isRunning s' = isRunning secondStepRunning /\
    counters s' = counters secondStepRunning /\
    steps s' = steps secondStepRunning /\
    alarmPlays s' = alarmPlays secondStepRunning /\
    isAlarmPlaying s' = false.
Proof.
  split; [reflexivity|]. split; [reflexivity|].
  split; [exact modeFollowsSteps_secondStepRunning|].
  apply (start_while_running secondStepRunning);
    [reflexivity|reflexivity|exact modeFollowsSteps_secondStepRunning].
Defined.

(** C5 as it is stated fails while the alarm of a finished step sounds:
    [start()] on the running engine turns the alarm off. *)
Lemma start_while_running_noop_counterexample :
  ~ (forall s,
       running s = true -> committed s -> modeFollowsSteps s ->
       dispatch Start s = Some s).
Proof.
  intros H.
  specialize (H secondStepRunning eq_refl eq_refl
                modeFollowsSteps_secondStepRunning).
  vm_compute in H. discriminate.
Qed.

Lemma adjust_ignored_while_running_witness :
  isMainTimerRunning stepARunning = true /\ committed stepARunning /\
  dispatch (Adjust Minutes 1) stepARunning = Some stepARunning.
Proof.
  split; [reflexivity|]. split; [reflexivity|].
  apply (adjust_ignored_while_running Minutes 1 stepARunning); reflexivity.
Defined.

(** C6 as it is stated fails on a paused engine: the seconds go from 2
    to 3. *)
Lemma adjust_noop_while_paused_counterexample :
  ~ (forall type delta s,
       delta = 1 \/ delta = -1 ->
       running s = true \/ isPaused s = true -> committed s ->
       exists s', dispatch (Adjust type delta) s = Some s' /\
         inputHours s' = inputHours s /\ inputMinutes s' = inputMinutes s /\
         inputSeconds s' = inputSeconds s).
Proof.
  intros H.
  destruct (H Seconds 1 pausedAtTwo (or_introl eq_refl) (or_intror eq_refl)
              eq_refl) as (s' & Hd & _ & _ & Hs).
  vm_compute in Hd. inversion Hd; subst s'. vm_compute in Hs. discriminate.
Qed.

Lemma validEntry_fiveSeconds : validEntry fiveSeconds.
Proof. intros []; cbn; lia. Defined.

Lemma adjust_wraps_around_witness :
  isMainTimerRunning fiveSeconds = false /\ validEntry fiveSeconds /\
  (forall delta, delta = 1 \/ delta = -1 ->
     exists s', dispatch (Adjust Hours delta) fiveSeconds = Some s' /\
       entry Hours s' = (entry Hours fiveSeconds + delta) mod modulus Hours /\
       forall other,
         other <> Hours -> entry other s' = entry other fiveSeconds) /\
  (entry Hours fiveSeconds = modulus Hours - 1 ->
     exists s', dispatch (Adjust Hours 1) fiveSeconds = Some s' /\
       entry Hours s' = 0) /\
  (entry Hours fiveSeconds = 0 ->
     exists s', dispatch (Adjust Hours (-1)) fiveSeconds = Some s' /\
       entry Hours s' = modulus Hours - 1) /\
  (exists s', run [Adjust Hours 1; Adjust Hours (-1)] fiveSeconds = Some s' /\
     forall t, entry t s' = entry t fiveSeconds) /\
  (exists s', run [Adjust Hours (-1); Adjust Hours 1] fiveSeconds = Some s' /\
     forall t, entry t s' = entry t fiveSeconds) /\
  (exists s', run (repeat (Adjust Hours 1) (Z.to_nat (modulus Hours)))
                  fiveSeconds = Some s' /\
     forall t, entry t s' = entry t fiveSeconds).
Proof.
  split; [reflexivity|]. split; [exact validEntry_fiveSeconds|].
  apply (adjust_wraps_around Hours fiveSeconds);
    [reflexivity|exact validEntry_fiveSeconds].
Defined.

(** From 00:00:05 a step down of the hours gives 23:00:05, and 24 steps up
    give 00:00:05 again. *)
Example hours_wrap :
  exists s1 s2,
    dispatch (Adjust Hours (-1)) fiveSeconds = Some s1 /\ inputHours s1 = 23 /\
    run (repeat (Adjust Hours 1) 24) fiveSeconds = Some s2 /\
    inputHours s2 = 0 /\ inputSeconds s2 = 5.
Proof. do 2 eexists. vm_compute. repeat split; reflexivity. Qed.

Lemma adjust_seeds_previous_entry_witness :
  isMainTimerRunning fiveSeconds = false /\ isUsingSteps fiveSeconds = false /\
  exists s', dispatch (Adjust Seconds 1) fiveSeconds = Some s' /\
    mainTimerRemainingTime s' = inputTotal fiveSeconds /\
    (validEntry fiveSeconds ->
       displayOf s' = (inputHours fiveSeconds, inputMinutes fiveSeconds,
                       inputSeconds fiveSeconds) /\
       (1 = 1 \/ 1 = -1 ->
          entry Seconds s' <> entry Seconds fiveSeconds /\
          mainTimerRemainingTime s' <> inputTotal s')).
Proof.
  split; [reflexivity|]. split; [reflexivity|].
  apply (adjust_seeds_previous_entry Seconds 1 fiveSeconds); reflexivity.
Defined.

(** The entry reads 00:00:05 after five steps up, the display and the
    remaining time still 00:00:04. *)
Example fiveSeconds_lag :
  inputSeconds fiveSeconds = 5 /\ displaySeconds fiveSeconds = 4 /\
  mainTimerRemainingTime fiveSeconds = 4.
Proof. repeat split; reflexivity. Qed.

(** C8, where the code departs from it.  [addStep] does not look at the
    status: while step A runs, with 00:00:03 still in the entry, it appends
    a second step, and the effect on [steps] then puts the duration of the
    longer list on the overall counter.  [deleteStep] and [clearAllSteps]
    are refused in the same state. *)
Theorem addStep_while_running_appends :
  running stepARunning = true /\ isRunning stepARunning = true /\
  length (steps stepARunning) = 1%nat /\
  mainTimerRemainingTime stepARunning = 2 /\
  dispatch ClearAllSteps stepARunning = Some stepARunning /\
  dispatch (DeleteStep 1700000000000) stepARunning = Some stepARunning /\
  exists s', dispatch (AddStep 1700000005000) stepARunning = Some s' /\
    steps s' = steps stepARunning ++
               [TimerStep.mk 1700000005000 "Step 2" 3] /\
    running s' = true /\ remainingTime s' = 2 /\
    mainTimerRemainingTime s' = 6.
Proof.
  repeat (split; [reflexivity|]).
  eexists. vm_compute. repeat split; reflexivity.
Qed.

Lemma preset_snapshot_independent_witness :
  Heap.readSteps heapAB (Heap.stepsRef heapAB) = Some [stepA; stepB] /\
  [stepA; stepB] <> [] /\
  exists p,
    Heap.presets (Heap.savePreset "AB" 1700000009000 heapAB)
      = Heap.presets heapAB ++ [p] /\
    Heap.id p = 1700000009000 /\ Heap.name p = "AB" /\
    Heap.readSteps (Heap.savePreset "AB" 1700000009000 heapAB) (Heap.steps p)
      = Some [stepA; stepB] /\
    Heap.presets
      (Heap.mutateAll
         [Heap.Append 1700000012000 "" 5; Heap.Remove false 1700000000000;
          Heap.Clear false]
         (Heap.savePreset "AB" 1700000009000 heapAB))
      = Heap.presets heapAB ++ [p] /\
    forall q l',
      q ∈ Heap.presets
            (Heap.mutateAll
               [Heap.Append 1700000012000 "" 5;
                Heap.Remove false 1700000000000; Heap.Clear false]
               (Heap.savePreset "AB" 1700000009000 heapAB)) ->
      Heap.readSteps (Heap.savePreset "AB" 1700000009000 heapAB)
        (Heap.steps q) = Some l' ->
      Heap.readSteps
        (Heap.mutateAll
           [Heap.Append 1700000012000 "" 5; Heap.Remove false 1700000000000;
            Heap.Clear false]
           (Heap.savePreset "AB" 1700000009000 heapAB))
        (Heap.steps q) = Some l'.
Proof.
  split; [vm_compute; reflexivity|]. split; [discriminate|].
  apply (preset_snapshot_independent heapAB [stepA; stepB]);
    [vm_compute; reflexivity|discriminate].
Defined.

(** After the save the live list grows to three steps, loses A and is
    cleared; the preset reads A, B throughout. *)
Example heapAB_edits :
  let saved := Heap.savePreset "AB" 1700000009000 heapAB in
  let grown := Heap.addStep 1700000012000 "" 5 saved in
  let cut := Heap.deleteStep false 1700000000000 grown in
  let cleared := Heap.clearAllSteps false cut in
  exists p, Heap.presets cleared = [p] /\
    Heap.readSteps grown (Heap.stepsRef grown)
      = Some [stepA; stepB; TimerStep.mk 1700000012000 "Step 3" 5] /\
    Heap.readSteps cut (Heap.stepsRef cut)
      = Some [stepB; TimerStep.mk 1700000012000 "Step 3" 5] /\
    Heap.readSteps cleared (Heap.stepsRef cleared) = Some [] /\
    Heap.readSteps cleared (Heap.steps p) = Some [stepA; stepB].
Proof. eexists. vm_compute. repeat split; reflexivity. Qed.

(** ** What every reachable state satisfies *)

Lemma run_invariant (P : AppState -> Prop) :
  (forall e s s', P s -> dispatch e s = Some s' -> P s') ->
  forall es s s', P s -> run es s = Some s' -> P s'.
Proof.
  intros Hstep. induction es as [|e es IH]; intros s s' Hs Hrun; cbn in Hrun.
  - inversion Hrun; subst. exact Hs.
  - destruct (dispatch e s) as [s1|] eqn:Hd; cbn in Hrun; [|discriminate].
    eauto.
Qed.

(** The cases of a handler, with the state taken apart into its fields. *)
Ltac handler_cases Hh :=
  unfold handle, startMainTimer, pauseMainTimer, resumeMainTimer,
    resetMainTimer, tick, intervalCallback, overallUpdater, stepUpdater,
    simpleUpdater, resetSteps, handleTimeChange, clearTimeInput, addStep,
    deleteStep, clearAllSteps, savePreset, loadPreset, deletePreset,
    stopAlarm, playAlarm in Hh;
  cbn in Hh;
  repeat match type of Hh with
  | context [match ?x with _ => _ end] => destruct x eqn:?
  end;
  cbn in Hh; try discriminate;
  inversion Hh; subst; clear Hh; cbn in *.

Lemma dispatch_fields e s s' :
  dispatch e s = Some s' ->
  exists n, handle e s = Some n /\ untouched s' n.
Proof.
  unfold dispatch. destruct (handle e s) as [n|]; cbn; [|discriminate].
  intros H. inversion H; subst. exists n. split; [reflexivity|].
  apply commit_untouched.
Qed.

(** What a tick leaves alone: the entry, the step list, the mode, the pause
    flag and the presets. *)
Lemma tick_frame s n :
  tick s = Some n ->
  timerName n = timerName s /\ inputHours n = inputHours s /\
  inputMinutes n = inputMinutes s /\ inputSeconds n = inputSeconds s /\
  steps n = steps s /\ stepsIdent n = stepsIdent s /\
  isPaused n = isPaused s /\ presets n = presets s /\
  isUsingSteps n = isUsingSteps s /\ storage n = storage s /\
  (isMainTimerRunning n = true -> isMainTimerRunning s = true).
Proof.
  unfold tick, intervalCallback, overallUpdater, stepUpdater, simpleUpdater,
    resetSteps.
  destruct (isMainTimerRunning s && negb (isPaused s));
    [|intros H; inversion H; subst; tauto].
  destruct (isUsingSteps s) eqn:Hm.
  - destruct (mainTimerRemainingTime s <=? 1);
      destruct (remainingTime s <=? 1);
      [ destruct (currentStepIndex s <? Z.of_nat (length (steps s)) - 1);
        [ destruct (stepAt (steps s) (currentStepIndex s + 1))
        | destruct (stepAt (steps s) 0) ]
      |
      | destruct (currentStepIndex s <? Z.of_nat (length (steps s)) - 1);
        [ destruct (stepAt (steps s) (currentStepIndex s + 1))
        | destruct (stepAt (steps s) 0) ]
      | ];
      cbn; try discriminate; intros H; inversion H; subst; clear H;
      destruct (steps s) eqn:Hl; cbn; rewrite ?Hm, ?Hl; intuition congruence.
  - destruct (mainTimerRemainingTime s <=? 1); cbn;
      intros H; inversion H; subst; cbn; rewrite ?Hm; intuition congruence.
Qed.

Lemma dispatch_persisted e s s' :
  persisted s -> dispatch e s = Some s' -> persisted s'.
Proof.
  unfold persisted. intros Hs Hd.
  destruct (dispatch_fields e s s' Hd) as (n & Hh & Hu).
  destruct Hu as (_&_&_&_&_&_&_&_&_&_&_&Kp&_&Ks). rewrite Kp, Ks. clear Kp Ks Hd.
  destruct e;
    try (destruct (tick_frame s n Hh) as (_&_&_&_&_&_&_&H1&_&H2&_); congruence);
    destruct s; cbn in Hs; handler_cases Hh; congruence.
Qed.

(** X1. Whatever the user does, the preset collection that
    [loadPresetsFromStorage] would read is the collection on the screen:
    [savePreset] and [deletePreset] write both, and nothing else writes
    either. *)
Theorem storage_mirrors_presets stored es s :
  run es (initialState stored) = Some s -> storage s = presets s.
Proof.
  apply (run_invariant persisted dispatch_persisted). reflexivity.
Qed.

Lemma validEntry_fields s :
  validEntry s <->
  (0 <= inputHours s < 24 /\ 0 <= inputMinutes s < 60 /\
   0 <= inputSeconds s < 60).
Proof.
  split.
  - intros H. exact (conj (H Hours) (conj (H Minutes) (H Seconds))).
  - intros (Hh & Hm & Hs) []; assumption.
Qed.

Lemma dispatch_validEntry e s s' :
  validEntry s -> dispatch e s = Some s' -> validEntry s'.
Proof.
  rewrite !validEntry_fields. intros Hs Hd.
  destruct (dispatch_fields e s s' Hd) as (n & Hh & Hu).
  destruct Hu as (_&K1&K2&K3&_). rewrite K1, K2, K3. clear K1 K2 K3 Hd.
  destruct e;
    try (destruct (tick_frame s n Hh) as (_&H1&H2&H3&_); rewrite H1, H2, H3;
         exact Hs);
    destruct s; cbn in Hs; handler_cases Hh;
    unfold updInputHours, updInputMinutes, updInputSeconds; cbn;
    repeat match goal with
    | |- context [if ?b then _ else _] => destruct b eqn:?
    end;
    rewrite ?Z.leb_le, ?Z.leb_gt, ?Z.ltb_lt, ?Z.ltb_ge in *; lia.
Qed.

(** X2. In every state the component reaches, the hours of the entry lie
    in 0..23 and its minutes and seconds in 0..59, whatever deltas
    [handleTimeChange] is given. *)
Theorem entry_stays_valid stored es s :
  run es (initialState stored) = Some s -> validEntry s.
Proof.
  apply (run_invariant validEntry dispatch_validEntry).
  intros []; cbn; lia.
Qed.

Lemma dispatch_oneStatus e s s' :
  oneStatus s -> dispatch e s = Some s' -> oneStatus s'.
Proof.
  unfold oneStatus. intros Hs Hd.
  destruct (dispatch_fields e s s' Hd) as (n & Hh & Hu).
  destruct Hu as (_&_&_&_&_&_&_&_&_&K1&K2&_). rewrite K1, K2. clear K1 K2 Hd.
  destruct e.
  5:{ destruct (tick_frame s n Hh) as (_&_&_&_&_&_&H1&_&_&_&H2).
      rewrite H1. destruct (isPaused s); [|reflexivity]. cbn in *.
      destruct (isMainTimerRunning n); [|reflexivity].
      rewrite (H2 eq_refl) in Hs. discriminate. }
  all: destruct s; cbn in Hs; handler_cases Hh;
    try reflexivity; try assumption;
    repeat match goal with b : bool |- _ => destruct b end;
    cbn in *; congruence.
Qed.

(** X3. The engine is never paused and running at once: [isPaused] and
    [isMainTimerRunning] are not both true in any state the component
    reaches. *)
Theorem never_paused_and_running stored es s :
  run es (initialState stored) = Some s ->
  isPaused s && isMainTimerRunning s = false.
Proof.
  apply (run_invariant oneStatus dispatch_oneStatus). reflexivity.
Qed.

Lemma positive_filter (f : TimerStep.t -> bool) l :
  positive l -> positive (List.filter f l).
Proof.
  unfold positive. rewrite !Forall_forall. intros H x Hx.
  apply list_elem_of_In, filter_In in Hx as [Hx _].
  apply H, list_elem_of_In, Hx.
Qed.

Lemma dispatch_wellTimed e s s' :
  wellTimed s -> offered s e -> dispatch e s = Some s' -> wellTimed s'.
Proof.
  unfold wellTimed. intros [Hl Hp] Ho Hd.
  destruct (dispatch_fields e s s' Hd) as (n & Hh & Hu).
  destruct Hu as (_&_&_&_&K1&_&_&_&_&_&_&K2&_). rewrite K1, K2.
  clear K1 K2 Hd.
  destruct e.
  5:{ destruct (tick_frame s n Hh) as (_&_&_&_&H1&_&_&H2&_).
      rewrite H1, H2. auto. }
  all: cbn in Hh; inversion Hh; subst n; clear Hh.
  - unfold startMainTimer.
    destruct (steps s) eqn:E; [destruct (0 <? inputTotal s)|];
      destruct (isPaused s), (isMainTimerRunning s); cbn; unfold skip; rewrite ?E; auto.
  - auto.
  - auto.
  - unfold resetMainTimer.
    destruct (isUsingSteps s), (steps s) eqn:E; cbn; unfold skip; rewrite ?E; auto.
  - unfold handleTimeChange.
    destruct (isMainTimerRunning s); [unfold skip; auto|].
    destruct type, (isUsingSteps s); cbn; unfold skip; auto.
  - unfold clearTimeInput. destruct (isUsingSteps s); cbn; unfold skip; auto.
  - auto.
  - unfold addStep. destruct (0 <? inputTotal s) eqn:E; [|auto]. cbn.
    split; [|exact Hp]. apply Forall_app. split; [exact Hl|].
    constructor; [|constructor]. cbn. apply Z.ltb_lt in E. lia.
  - unfold deleteStep. destruct (isRunning s); [unfold skip; auto|].
    pose proof (positive_filter
                  (fun step => negb (TimerStep.id step =? stepId)) _ Hl) as Hf.
    destruct (List.filter _ (steps s)); cbn; unfold skip; auto.
  - unfold clearAllSteps. destruct (isRunning s); cbn; [unfold skip; auto|].
    split; [constructor|exact Hp].
  - unfold savePreset.
    destruct (steps s) eqn:E; cbn; unfold skip; rewrite ?E; [auto|].
    split; [exact Hl|]. apply Forall_app. split; [exact Hp|].
    constructor; [exact Hl|constructor].
  - cbn in Ho. cbn. split; [|exact Hp].
    rewrite Forall_forall in Hp. apply Hp, list_elem_of_In, Ho.
  - unfold deletePreset. cbn. split; [exact Hl|].
    rewrite !Forall_forall in *. intros x Hx.
    apply list_elem_of_In, filter_In in Hx as [Hx _].
    apply Hp, list_elem_of_In, Hx.
  - auto.
Qed.

(** X4. If every step of the stored presets lasts at least a second and
    only presets of the collection are loaded, then every step of the live
    list and of every preset lasts at least a second, in every state the
    component reaches. *)
Theorem steps_last_a_second stored es : forall s,
  Forall (fun preset => positive (Preset.steps preset)) stored ->
  offeredRun es (initialState stored) ->
  run es (initialState stored) = Some s ->
  positive (steps s) /\
  Forall (fun preset => positive (Preset.steps preset)) (presets s).
Proof.
  intros s Hstored.
  assert (H0 : wellTimed (initialState stored))
    by (split; [constructor|exact Hstored]).
  revert H0. generalize (initialState stored) as s0.
  induction es as [|e es IH]; intros s0 H0 Ho Hrun; cbn in *.
  - inversion Hrun; subst. exact H0.
  - destruct Ho as [Ho Hrest].
    destruct (dispatch e s0) as [s1|] eqn:Hd; cbn in Hrun; [|discriminate].
    exact (IH s1 (dispatch_wellTimed e s0 s1 H0 Ho Hd) Hrest Hrun).
Qed.

(** ** Pausing *)

Lemma dispatch_quiet e s n :
  handle e s = Some n -> committed n -> noReseed s n ->
  mainTimerRemainingTime s = mainTimerRemainingTime n ->
  dispatch e s = Some n.
Proof.
  intros Hh Hc Hn Hm. unfold dispatch. rewrite Hh. cbn.
  rewrite commit_id; auto.
Qed.

Lemma paused_ignores_ticks m : forall s,
  isMainTimerRunning s = false -> committed s ->
  run (repeat Tick m) s = Some s.
Proof.
  induction m as [|m IH]; intros s Hr Hc; [reflexivity|].
  cbn [repeat run].
  rewrite (dispatch_quiet Tick s s); auto using noReseed_refl.
  - cbn. auto.
  - cbn. unfold tick. rewrite Hr. reflexivity.
Qed.

(** X5. A pause costs no time.  Pausing a running engine, letting any
    number of seconds pass and resuming gives the state in which the engine
    was paused, with all its counters, except that [isRunning] is true
    afterwards, in simple mode too. *)
Theorem pause_resume_restores m s :
  running s = true -> committed s ->
  run (Pause :: repeat Tick m ++ [Resume]) s = Some (setIsRunning true s).
Proof.
  intros Hrun Hc. destruct (running_flags s Hrun) as [Hr Hp].
  cbn [run].
  rewrite (dispatch_quiet Pause s (pauseMainTimer s));
    [|reflexivity|exact Hc|left; split; reflexivity|reflexivity].
  cbn [mbind option_bind].
  rewrite (run_snoc _ Resume _ (pauseMainTimer s));
    [|apply paused_ignores_ticks; [reflexivity|exact Hc]].
  rewrite (dispatch_quiet Resume _ (resumeMainTimer (pauseMainTimer s)));
    [|reflexivity|exact Hc|left; split; reflexivity|reflexivity].
  f_equal. destruct s; cbn in *. subst. reflexivity.
Qed.

(** ** Starting with nothing to count *)

(** X6. With no steps and nothing in the entry, [startMainTimer] starts
    nothing: all it does is turn the alarm off. *)
Theorem start_without_duration s :
  steps s = [] -> inputTotal s <= 0 -> committed s ->
  dispatch Start s = Some (stopAlarm s).
Proof.
  intros Hl Ht Hc. apply dispatch_quiet.
  - cbn. unfold startMainTimer. rewrite Hl.
    destruct (0 <? inputTotal s) eqn:E; [apply Z.ltb_lt in E; lia|].
    reflexivity.
  - exact Hc.
  - left. split; reflexivity.
  - reflexivity.
Qed.

(** ** Edits of the step list and the presets *)

(** X7. Deleting a step of the idle engine in sequential mode keeps the
    other steps in their order; if steps are left the overall time becomes
    their whole duration, and if none is left the engine returns to simple
    mode. *)
Theorem deleteStep_reseeds stepId s :
  isRunning s = false -> isMainTimerRunning s = false -> isPaused s = false ->
  isUsingSteps s = true ->
  exists s', dispatch (DeleteStep stepId) s = Some s' /\
    steps s' =
      List.filter (fun step => negb (TimerStep.id step =? stepId)) (steps s) /\
    match steps s' with
    | [] => isUsingSteps s' = false
    | _ :: _ => Seeded (steps s') s'
    end.
Proof.
  intros Hr Hm Hp Hu. unfold dispatch, handle, deleteStep. rewrite Hr.
  cbn [mbind option_bind].
  destruct (List.filter _ (steps s)) as [|st l'] eqn:E;
    (eexists; split; [reflexivity|]);
    match goal with |- context [commit s ?x] => set (n := x) end;
    destruct (commit_untouched s n)
      as (_ & _ & _ & _ & Ksteps & _ & _ & _ & _ & Kmain & Kpaused & _ &
          Kmode & _);
    cbn in Ksteps, Kmain, Kpaused, Kmode; unfold skip in *;
    rewrite Ksteps; (split; [reflexivity|]).
  - exact Kmode.
  - constructor; try congruence.
    + apply (commit_main_reseed s n); [cbn; lia|discriminate|exact Hu].
    + apply commit_committed.
Qed.

Lemma loadPreset_state preset s :
  Preset.steps preset <> [] ->
  exists s', dispatch (LoadPreset preset) s = Some s' /\
    steps s' = Preset.steps preset /\ isUsingSteps s' = true /\
    mainTimerRemainingTime s' = totalDuration (Preset.steps preset) /\
    isMainTimerRunning s' = isMainTimerRunning s /\
    isPaused s' = isPaused s /\ isRunning s' = isRunning s /\
    currentStepIndex s' = currentStepIndex s /\
    remainingTime s' = remainingTime s /\
    presets s' = presets s.
Proof.
  intros Hne. unfold dispatch, handle, loadPreset.
  cbn [mbind option_bind]. eexists. split; [reflexivity|].
  match goal with |- context [commit s ?x] => set (n := x) end.
  destruct (commit_untouched s n)
    as (_ & _ & _ & _ & Ksteps & _ & KisRunning & Kindex & Kstep & Kmain &
        Kpaused & Kpresets & Kmode & _).
  repeat (split; [assumption|]).
  split; [|repeat split; assumption].
  apply (commit_main_reseed s n); [cbn; lia|exact Hne|reflexivity].
Qed.

(** X8. Loading a preset with steps puts its steps in the list, switches
    to sequential mode and sets the overall time to the duration of the
    preset.  The status of the engine, the step index, the time left in the
    step and the presets are as before, also in the middle of a run. *)
Theorem loadPreset_reseeds preset s :
  Preset.steps preset <> [] ->
  exists s', dispatch (LoadPreset preset) s = Some s' /\
    steps s' = Preset.steps preset /\ isUsingSteps s' = true /\
    mainTimerRemainingTime s' = totalDuration (Preset.steps preset) /\
    isMainTimerRunning s' = isMainTimerRunning s /\
    isPaused s' = isPaused s /\ isRunning s' = isRunning s /\
    currentStepIndex s' = currentStepIndex s /\
    remainingTime s' = remainingTime s /\
    presets s' = presets s.
Proof. exact (loadPreset_state preset s). Qed.

Lemma stepEdits_keep_presets es : forall s,
  Forall stepEdit es ->
  exists s', run es s = Some s' /\ presets s' = presets s.
Proof.
  induction es as [|e es IH]; intros s Hes.
  - exists s. split; reflexivity.
  - inversion Hes as [|? ? He Hes']; subst.
    assert (Hd : exists s1, dispatch e s = Some s1)
      by (destruct e; try contradiction; eexists; reflexivity).
    destruct Hd as (s1 & Hd).
    destruct (presets_kept_by_step_edits e s s1) as [Hp _];
      [destruct e; try contradiction; exact I|exact Hd|].
    destruct (IH s1 Hes') as (s' & Hrun & Hp').
    exists s'. split; [cbn [run]; rewrite Hd; exact Hrun|congruence].
Qed.

(** X9. A preset saved from the live list survives the edits of the list:
    after any additions, deletions and clearings the preset is still in the
    collection, and loading it brings back the steps that were saved and
    their whole duration. *)
Theorem save_then_load_restores name now edits s :
  steps s <> [] -> Forall stepEdit edits ->
  exists s1 s2 s',
    dispatch (SavePreset name now) s = Some s1 /\
    presets s1 = presets s ++ [Preset.mk now name (steps s)] /\
    run edits s1 = Some s2 /\
    In (Preset.mk now name (steps s)) (presets s2) /\
    dispatch (LoadPreset (Preset.mk now name (steps s))) s2 = Some s' /\
    steps s' = steps s /\ isUsingSteps s' = true /\
    mainTimerRemainingTime s' = totalDuration (steps s).
Proof.
  intros Hne Hes.
  assert (Hsave : exists s1, dispatch (SavePreset name now) s = Some s1 /\
            presets s1 = presets s ++ [Preset.mk now name (steps s)]).
  { unfold dispatch, handle, savePreset. cbn [mbind option_bind].
    eexists. split; [reflexivity|].
    match goal with |- context [commit s ?x] => set (n := x) end.
    destruct (commit_untouched s n)
      as (_ & _ & _ & _ & _ & _ & _ & _ & _ & _ & _ & Kpresets & _).
    rewrite Kpresets. subst n.
    destruct (steps s) eqn:E; [contradiction|]. reflexivity. }
  destruct Hsave as (s1 & Hd1 & Hp1).
  destruct (stepEdits_keep_presets edits s1 Hes) as (s2 & Hrun & Hp2).
  destruct (loadPreset_state (Preset.mk now name (steps s)) s2 Hne)
    as (s' & Hd' & H1 & H2 & H3 & _).
  exists s1, s2, s'. repeat (split; [assumption|]).
  split; [|auto].
  rewrite Hp2, Hp1. apply in_or_app. right. left. reflexivity.
Qed.

(** X10. [deletePreset] removes from the collection, and from storage,
    the presets with the given id and no others; an id that is not there
    changes nothing, the step list and the counters are untouched, and
    deleting a second time changes nothing more. *)
Theorem deletePreset_removes presetId s :
  exists s', dispatch (DeletePreset presetId) s = Some s' /\
    presets s' =
      List.filter (fun preset => negb (Preset.id preset =? presetId))
                  (presets s) /\
    storage s' = presets s' /\
    (forall preset, In preset (presets s') <->
                    In preset (presets s) /\ Preset.id preset <> presetId) /\
    (Forall (fun preset => Preset.id preset <> presetId) (presets s) ->
     presets s' = presets s) /\
    steps s' = steps s /\ counters s' = counters s /\
    exists s'', dispatch (DeletePreset presetId) s' = Some s'' /\
                presets s'' = presets s'.
Proof.
  assert (Hgen : forall s0, exists s1,
            dispatch (DeletePreset presetId) s0 = Some s1 /\
            presets s1 =
              List.filter (fun preset => negb (Preset.id preset =? presetId))
                          (presets s0) /\
            storage s1 = presets s1 /\ steps s1 = steps s0 /\
            counters s1 = counters s0).
  { intros s0. unfold dispatch, handle, deletePreset, counters.
    cbn [mbind option_bind]. eexists. split; [reflexivity|].
    match goal with |- context [commit s0 ?x] => set (n := x) end.
    destruct (commit_untouched s0 n)
      as (_ & _ & _ & _ & Ksteps & _ & _ & Kindex & Kstep & _ & _ &
          Kpresets & _ & Kstorage).
    rewrite Kpresets, Kstorage, Ksteps, Kindex, Kstep.
    rewrite (commit_main_quiet s0 n) by (left; split; reflexivity).
    repeat split; reflexivity. }
  destruct (Hgen s) as (s' & Hd & Hp & Hst & Hsteps & Hc).
  exists s'. split; [exact Hd|]. split; [exact Hp|]. split; [exact Hst|].
  split; [|split; [|split; [exact Hsteps|split; [exact Hc|]]]].
  - intros preset. rewrite Hp, filter_In, negb_true_iff, Z.eqb_neq. tauto.
  - intros Hall. rewrite Hp. apply forallb_filter_id.
    rewrite forallb_forall. intros x Hx.
    rewrite Forall_forall in Hall. apply list_elem_of_In, Hall in Hx.
    rewrite negb_true_iff, Z.eqb_neq. exact Hx.
  - destruct (Hgen s') as (s'' & Hd' & Hp' & _).
    exists s''. split; [exact Hd'|]. rewrite Hp', Hp.
    apply forallb_filter_id. rewrite forallb_forall. intros x Hx.
    apply filter_In in Hx as [_ Hx]. exact Hx.
Qed.

(** ** The wheels *)

Lemma wheel_values v m :
  0 <= v <= m ->
  nextValue v m = (v + 1) mod (m + 1) /\
  prevValue v m = (v + -1) mod (m + 1).
Proof.
  intros Hv. unfold nextValue, prevValue. split.
  - destruct (v =? m) eqn:E;
      [apply Z.eqb_eq in E; subst; symmetry; apply Z_mod_same_full|].
    apply Z.eqb_neq in E. symmetry. apply Z.mod_small. lia.
  - destruct (v =? 0) eqn:E.
    + apply Z.eqb_eq in E. subst. apply Z.mod_unique with (q := -1); lia.
    + apply Z.eqb_neq in E. symmetry. apply Z.mod_small. lia.
Qed.

(** X11. The wheel of a time field gives what the field previews.
    Scrolling down on an idle engine sets the field to the value [TimeUnit]
    draws as [prevValue], scrolling up or not at all to [nextValue]; the
    result stays within the field's range, and the two previews are inverse
    to each other. *)
Theorem wheel_gives_preview type deltaY s :
  isMainTimerRunning s = false -> validEntry s ->
  exists s', dispatch (Adjust type (wheelDelta deltaY)) s = Some s' /\
    entry type s' =
      (if 0 <? deltaY then prevValue (entry type s) (maxOf type)
       else nextValue (entry type s) (maxOf type)) /\
    0 <= entry type s' <= maxOf type /\
    prevValue (nextValue (entry type s) (maxOf type)) (maxOf type)
      = entry type s /\
    nextValue (prevValue (entry type s) (maxOf type)) (maxOf type)
      = entry type s.
Proof.
  intros Hr Hv.
  assert (Hd : wheelDelta deltaY = 1 \/ wheelDelta deltaY = -1)
    by (unfold wheelDelta; destruct (0 <? deltaY); auto).
  destruct (adjust_idle type _ s Hr Hv Hd) as (s' & H1 & H2 & _ & _ & Hv').
  exists s'. split; [exact H1|].
  assert (Hm : modulus type = maxOf type + 1) by (destruct type; reflexivity).
  pose proof (Hv type) as Hb. pose proof (Hv' type) as Hb'.
  destruct (wheel_values (entry type s) (maxOf type) ltac:(lia)) as [Hn Hp].
  split; [|split; [lia|]].
  - rewrite H2, Hm. unfold wheelDelta. destruct (0 <? deltaY); congruence.
  - assert (0 < maxOf type) by (destruct type; reflexivity).
    unfold nextValue, prevValue.
    destruct (Z.eqb_spec (entry type s) (maxOf type));
      destruct (Z.eqb_spec (entry type s) 0); split;
    repeat match goal with
    | |- context [?a =? ?b] => destruct (Z.eqb_spec a b)
    end; lia.
Qed.

(** ** The time format *)

Lemma pad2_table_length :
  forallb (fun k => Nat.eqb (String.length (pad2 (Z.of_nat k))) 2)
          (seq 0 100) = true.
Proof. vm_compute. reflexivity. Qed.

Lemma pad2_table_inj :
  forallb (fun a =>
     forallb (fun b =>
        implb (String.eqb (pad2 (Z.of_nat a)) (pad2 (Z.of_nat b)))
              (Nat.eqb a b))
       (seq 0 100))
    (seq 0 100) = true.
Proof. vm_compute. reflexivity. Qed.

Lemma pad2_length n : 0 <= n < 100 -> String.length (pad2 n) = 2%nat.
Proof.
  intros Hn. pose proof pad2_table_length as H.
  rewrite forallb_forall in H.
  specialize (H (Z.to_nat n)). rewrite Z2Nat.id in H by lia.
  apply Nat.eqb_eq, H, in_seq. lia.
Qed.

Lemma pad2_inj a b : 0 <= a < 100 -> 0 <= b < 100 -> pad2 a = pad2 b -> a = b.
Proof.
  intros Ha Hb Heq. pose proof pad2_table_inj as H.
  rewrite forallb_forall in H.
  specialize (H (Z.to_nat a) ltac:(apply in_seq; lia)).
  rewrite forallb_forall in H.
  specialize (H (Z.to_nat b) ltac:(apply in_seq; lia)).
  rewrite !Z2Nat.id in H by lia.
  rewrite Heq, String.eqb_refl in H. cbn in H.
  apply Nat.eqb_eq in H. lia.
Qed.

Lemma append_length a b :
  String.length (a +:+ b) = (String.length a + String.length b)%nat.
Proof.
  induction a as [|c a IH]; [reflexivity|].
  change (String c a +:+ b) with (String c (a +:+ b)).
  cbn [String.length]. now rewrite IH.
Qed.

Lemma append_inj a : forall b x y,
  String.length a = String.length b -> a +:+ x = b +:+ y -> a = b /\ x = y.
Proof.
  induction a as [|c a IH]; intros [|d b] x y Hl H;
    try discriminate Hl.
  - change (x = y) in H. auto.
  - change (String c (a +:+ x) = String d (b +:+ y)) in H.
    inversion H; subst. cbn [String.length] in Hl.
    destruct (IH b x y) as [-> ->]; auto.
Qed.

Lemma clock_ranges t :
  0 <= t < 360000 ->
  0 <= hoursOf t < 100 /\ 0 <= minutesOf t < 60 /\ 0 <= secondsOf t < 60.
Proof.
  intros Ht. unfold hoursOf, minutesOf, secondsOf.
  Z.to_euclidean_division_equations. lia.
Qed.

Lemma formatTime_parts t :
  formatTime t =
  pad2 (hoursOf t) +:+ ":" +:+ pad2 (minutesOf t) +:+ ":" +:+
  pad2 (secondsOf t).
Proof. reflexivity. Qed.

(** X12. For less than a hundred hours [formatTime] writes eight
    characters, and two different durations are never written alike. *)
Theorem formatTime_faithful t1 t2 :
  0 <= t1 < 360000 -> 0 <= t2 < 360000 ->
  String.length (formatTime t1) = 8%nat /\
  (formatTime t1 = formatTime t2 -> t1 = t2).
Proof.
  intros H1 H2.
  destruct (clock_ranges t1 H1) as (Hh1 & Hm1 & Hs1).
  destruct (clock_ranges t2 H2) as (Hh2 & Hm2 & Hs2).
  rewrite !formatTime_parts. split.
  - rewrite !append_length, !pad2_length by lia. reflexivity.
  - intros Heq.
    apply append_inj in Heq as [Eh Heq]; [|rewrite !pad2_length by lia; auto].
    apply (append_inj ":" ":") in Heq as [_ Heq]; [|reflexivity].
    apply append_inj in Heq as [Em Heq]; [|rewrite !pad2_length by lia; auto].
    apply (append_inj ":" ":") in Heq as [_ Es]; [|reflexivity].
    apply pad2_inj in Eh, Em, Es; try lia.
    rewrite <- (clock_total t1), <- (clock_total t2) by lia. congruence.
Qed.

(** ** The alarm and its time-out *)

Module AlarmFacts.

Import Alarm.

Lemma clearRef_timers a :
  (forall id, id ∈ timers a -> timeoutRef a = Some id) ->
  timers (clearRef a) = ∅.
Proof.
  intros H. unfold clearRef. destruct (timeoutRef a) as [id|] eqn:E; cbn.
  - apply set_eq. intros x. split; [|set_solver].
    intros Hx. apply elem_of_difference in Hx as [Hx Hne].
    specialize (H x Hx). inversion H; subst. set_solver.
  - apply set_eq. intros x. split; [|set_solver].
    intros Hx. specialize (H x Hx). discriminate.
Qed.

Lemma clearRef_fields a :
  audio (clearRef a) = audio a /\ timeoutRef (clearRef a) = timeoutRef a /\
  nextTimer (clearRef a) = nextTimer a /\
  isAlarmPlaying (clearRef a) = isAlarmPlaying a /\
  timers (clearRef a) ⊆ timers a.
Proof.
  unfold clearRef. destruct (timeoutRef a) eqn:E; cbn; rewrite ?E;
    repeat split; set_solver.
Qed.

Lemma playAlarm_state shown granted a au :
  wellKept a -> audio a = Some au ->
  timers (playAlarm shown granted a) = {[ nextTimer a ]} /\
  timeoutRef (playAlarm shown granted a) = Some (nextTimer a) /\
  nextTimer (playAlarm shown granted a) = S (nextTimer a) /\
  isAlarmPlaying (playAlarm shown granted a) = true /\
  audio (playAlarm shown granted a) =
    Some (mkAudio (if granted then false else paused au)
                  (if shown then 0 else currentTime au)).
Proof.
  intros (H1 & _) Ha. unfold playAlarm. rewrite Ha.
  set (a1 := if shown then _ else a).
  assert (Ha1 : audio a1 = Some (mkAudio (paused au)
                                   (if shown then 0 else currentTime au)) /\
                timeoutRef a1 = timeoutRef a /\ nextTimer a1 = nextTimer a /\
                timers a1 ⊆ timers a).
  { subst a1. destruct shown; [|destruct au; auto].
    destruct (clearRef_fields a) as (E1 & E2 & E3 & _ & E5). cbn. auto. }
  destruct Ha1 as (E1 & E2 & E3 & E4). rewrite E1.
  set (a2 := if granted then _ else a1).
  assert (Ha2 : audio a2 = Some (mkAudio (if granted then false else paused au)
                                   (if shown then 0 else currentTime au)) /\
                timeoutRef a2 = timeoutRef a /\ nextTimer a2 = nextTimer a /\
                timers a2 ⊆ timers a).
  { subst a2. destruct granted; cbn; auto. }
  destruct Ha2 as (F1 & F2 & F3 & F4).
  set (a3 := setIsAlarmPlaying true a2).
  assert (Hc : timers (clearRef a3) = ∅).
  { apply clearRef_timers. intros id Hid. cbn in *. rewrite F2.
    apply H1, F4, Hid. }
  destruct (clearRef_fields a3) as (G1 & G2 & G3 & G4 & _).
  cbn. rewrite Hc, G1, G3. cbn. rewrite F1, F3.
  repeat split; try reflexivity; set_solver.
Qed.

Lemma stopAlarm_state a :
  (forall id, id ∈ timers a -> timeoutRef a = Some id) ->
  timers (stopAlarm a) = ∅ /\ isAlarmPlaying (stopAlarm a) = false /\
  timeoutRef (stopAlarm a) = timeoutRef a /\
  nextTimer (stopAlarm a) = nextTimer a /\
  audio (stopAlarm a) =
    match audio a with Some _ => Some (mkAudio true 0) | None => None end.
Proof.
  intros H1. unfold stopAlarm.
  set (a1 := match audio a with Some _ => _ | None => a end).
  assert (Ha1 : timers a1 = timers a /\ timeoutRef a1 = timeoutRef a /\
                nextTimer a1 = nextTimer a /\
                audio a1 = match audio a with
                           | Some _ => Some (mkAudio true 0)
                           | None => None
                           end).
  { subst a1. destruct (audio a) eqn:E; cbn; auto. }
  destruct Ha1 as (E1 & E2 & E3 & E4).
  destruct (clearRef_fields a1) as (G1 & G2 & G3 & _ & _).
  cbn. rewrite G1, G2, G3, E2, E3, E4.
  split; [|auto]. apply clearRef_timers. intros id Hid.
  rewrite E2. apply H1. rewrite <- E1. exact Hid.
Qed.

Lemma stopped_wellKept (a a' : t) :
  (forall id, timeoutRef a = Some id -> (id < nextTimer a)%nat) ->
  timers a' = ∅ -> isAlarmPlaying a' = false ->
  timeoutRef a' = timeoutRef a -> nextTimer a' = nextTimer a ->
  audio a' = match audio a with
             | Some _ => Some (mkAudio true 0)
             | None => None
             end ->
  wellKept a'.
Proof.
  intros H2 T F R N A. unfold wellKept, sounding. rewrite T, F, R, N, A.
  split; [|split; [|split; [|split]]].
  - intros id Hid. set_solver.
  - exact H2.
  - intros (au & Hau & Hp). destruct (audio a); inversion Hau; subst.
    discriminate.
  - reflexivity.
  - intros _. split; [discriminate|]. intros H. contradiction.
Qed.

Lemma step_wellKept e a : wellKept a -> wellKept (step e a).
Proof.
  intros Hw. pose proof Hw as (H1 & H2 & H3 & H4 & H5).
  destruct e as [shown granted| |id|dt|]; cbn [step].
  - destruct (audio a) as [au|] eqn:Ha;
      [|unfold playAlarm; rewrite Ha; exact Hw].
    destruct (playAlarm_state shown granted a au Hw Ha) as (T & R & N & F & A).
    unfold wellKept, sounding. rewrite T, R, N, F, A.
    split; [|split; [|split; [|split]]].
    + intros id Hid. apply elem_of_singleton in Hid. congruence.
    + intros id E. inversion E. lia.
    + intros _. set_solver.
    + discriminate.
    + intros _. split; [intros _; set_solver|reflexivity].
  - destruct (stopAlarm_state a H1) as (T & F & R & N & A).
    exact (stopped_wellKept a _ H2 T F R N A).
  - unfold timeoutFires. destruct (decide (id ∈ timers a)) as [Hin|];
      [|exact Hw].
    set (a' := mk _ _ _ _ _).
    assert (H1' : forall x, x ∈ timers a' -> timeoutRef a' = Some x).
    { subst a'. cbn. intros x Hx.
      apply elem_of_difference in Hx as [Hx _]. exact (H1 x Hx). }
    destruct (stopAlarm_state a' H1') as (T & F & R & N & A).
    exact (stopped_wellKept a (stopAlarm a') H2 T F R N A).
  - unfold elapse. destruct (audio a) as [au|] eqn:Ha; [|exact Hw].
    destruct (paused au) eqn:Hp; [exact Hw|].
    unfold wellKept, sounding. cbn.
    split; [exact H1|]. split; [exact H2|].
    split; [|split].
    + intros _. apply H3. exists au. auto.
    + discriminate.
    + intros _. apply H5. congruence.
  - unfold unmount.
    assert (Hc : timers (clearRef (setAudio None a)) = ∅)
      by (apply clearRef_timers; exact H1).
    destruct (clearRef_fields (setAudio None a)) as (G1 & G2 & G3 & _ & _).
    unfold wellKept, sounding. rewrite Hc, G1, G2, G3. cbn.
    split; [|split; [exact H2|split; [|split]]].
    + intros id Hid. set_solver.
    + intros (au & Hau & _). discriminate.
    + reflexivity.
    + intros H. contradiction.
Qed.

Lemma steps_wellKept es : forall a, wellKept a -> wellKept (steps es a).
Proof.
  induction es as [|e es IH]; intros a Hw; [exact Hw|].
  apply (IH (step e a)), step_wellKept, Hw.
Qed.

Lemma initial_wellKept : wellKept initial.
Proof.
  unfold wellKept, sounding, initial. cbn.
  split; [|split; [|split; [|split]]].
  - intros id Hid. set_solver.
  - discriminate.
  - intros (au & Hau & Hp). inversion Hau; subst. discriminate.
  - discriminate.
  - intros _. split; [discriminate|]. intros H. contradiction.
Qed.

Lemma reachable_wellKept es : wellKept (steps es initial).
Proof. apply steps_wellKept, initial_wellKept. Qed.

End AlarmFacts.

(** X13. However the alarm is triggered, stopped and timed out, at most
    one time-out is pending, the one [alarmTimeoutRef] holds; a sound that
    plays always has it pending; and while the audio
    element exists [isAlarmPlaying] is true exactly if the time-out is
    pending. *)
Theorem alarm_has_one_deadline (es : list Alarm.Event) :
  let a := Alarm.steps es Alarm.initial in
  (forall id, id ∈ Alarm.timers a ->
     Alarm.timers a = {[ id ]} /\ Alarm.timeoutRef a = Some id) /\
  (Alarm.sounding a -> Alarm.timers a <> ∅) /\
  (Alarm.audio a <> None ->
   (Alarm.isAlarmPlaying a = true <-> Alarm.timers a <> ∅)).
Proof.
  intros a.
  destruct (AlarmFacts.reachable_wellKept es) as (H1 & _ & H3 & _ & H5).
  fold a in H1, H3, H5.
  split; [|split; assumption].
  intros id Hid. split; [|exact (H1 id Hid)].
  apply set_eq. intros x. rewrite elem_of_singleton. split.
  - intros Hx. pose proof (H1 x Hx) as E1. pose proof (H1 id Hid) as E2.
    congruence.
  - intros ->. exact Hid.
Qed.

(** X14. [stopAlarm] leaves no time-out pending, [isAlarmPlaying] false
    and the sound paused at its beginning; and when the time-out of the
    alarm fires, the result is that of the stop button. *)
Theorem alarm_stop_silences (es : list Alarm.Event) :
  let a := Alarm.steps es Alarm.initial in
  Alarm.timers (Alarm.stopAlarm a) = ∅ /\
  Alarm.isAlarmPlaying (Alarm.stopAlarm a) = false /\
  Alarm.audio (Alarm.stopAlarm a) =
    match Alarm.audio a with
    | Some _ => Some (Alarm.mkAudio true 0)
    | None => None
    end /\
  (forall id, id ∈ Alarm.timers a ->
     Alarm.timeoutFires id a = Alarm.stopAlarm a).
Proof.
  intros a.
  destruct (AlarmFacts.reachable_wellKept es) as (H1 & _).
  fold a in H1.
  destruct (AlarmFacts.stopAlarm_state a H1) as (T & F & _ & _ & A).
  split; [exact T|]. split; [exact F|]. split; [exact A|].
  intros id Hid. unfold Alarm.timeoutFires.
  destruct (decide (id ∈ Alarm.timers a)) as [_|Hn]; [|contradiction].
  pose proof (H1 id Hid) as Href.
  assert (Hs : (Alarm.timers a ∖ {[id]}) ∖ {[id]} = Alarm.timers a ∖ {[id]}).
  { apply set_eq. intros x. rewrite !elem_of_difference. tauto. }
  unfold Alarm.stopAlarm, Alarm.clearRef, Alarm.setAudio,
    Alarm.setIsAlarmPlaying.
  destruct (Alarm.audio a) eqn:Ea; cbn; rewrite Href; cbn;
    rewrite ?Ea, Hs; reflexivity.
Qed.

(** X15. Triggering the alarm anew restarts its minute: the time-out
    pending afterwards is a new one, whatever was pending is cancelled, and
    [isAlarmPlaying] is true.  The sound starts over if the render that
    triggered it showed the alarm as playing, and it plays if the browser
    grants it or it played already. *)
Theorem alarm_trigger_restarts_deadline (es : list Alarm.Event)
    (shown granted : bool) (au : Alarm.Audio) :
  let a := Alarm.steps es Alarm.initial in
  Alarm.audio a = Some au ->
  let a' := Alarm.playAlarm shown granted a in
  (Alarm.nextTimer a ∉ Alarm.timers a) /\
  Alarm.timers a' = {[ Alarm.nextTimer a ]} /\
  Alarm.timeoutRef a' = Some (Alarm.nextTimer a) /\
  Alarm.isAlarmPlaying a' = true /\
  Alarm.audio a' =
    Some (Alarm.mkAudio (if granted then false else Alarm.paused au)
                        (if shown then 0 else Alarm.currentTime au)).
Proof.
  intros a Ha a'.
  pose proof (AlarmFacts.reachable_wellKept es) as Hw. fold a in Hw.
  destruct (AlarmFacts.playAlarm_state shown granted a au Hw Ha)
    as (T & R & _ & F & A).
  destruct Hw as (H1 & H2 & _).
  split; [|auto].
  intros Hin. pose proof (H2 _ (H1 _ Hin)). lia.
Qed.

(** ** The display follows the overall time *)

Lemma render_shows_quiet o n :
  noReseed o n ->
  mainTimerRemainingTime o <> mainTimerRemainingTime n \/ showsRemaining n ->
  showsRemaining (render o n).
Proof.
  intros Hn H. unfold showsRemaining.
  rewrite (render_display_quiet o n Hn), (render_main_quiet o n Hn).
  intros Hpos.
  destruct (Z.eqb_spec (mainTimerRemainingTime o) (mainTimerRemainingTime n))
    as [E|E]; cbn [negb andb].
  - destruct H as [H|H]; [contradiction|]. exact (H Hpos).
  - apply Z.ltb_lt in Hpos. rewrite Hpos. reflexivity.
Qed.

Lemma render_shows o n :
  mainTimerRemainingTime o <> mainTimerRemainingTime n \/ showsRemaining n ->
  mainTimerRemainingTime n <> mainTimerRemainingTime (render o n) \/
  showsRemaining (render o n).
Proof.
  intros H.
  destruct (negb (stepsIdent o =? stepsIdent n)%nat
            || negb (Bool.eqb (isUsingSteps o) (isUsingSteps n))) eqn:Es.
  2: { right. apply render_shows_quiet; [left|exact H].
       apply orb_false_elim in Es as [E1 E2]. apply negb_false_iff in E1, E2.
       apply Nat.eqb_eq in E1. apply Bool.eqb_prop in E2. auto. }
  destruct (steps n) as [|st l'] eqn:El;
    [right; apply render_shows_quiet; [right; left; exact El|exact H]|].
  destruct (isUsingSteps n) eqn:Hm;
    [|right; apply render_shows_quiet; [right; right; exact Hm|exact H]].
  assert (Hr : mainTimerRemainingTime (render o n) = totalDuration (st :: l') /\
               (displayOf (render o n) =
                  (hoursOf (mainTimerRemainingTime n),
                   minutesOf (mainTimerRemainingTime n),
                   secondsOf (mainTimerRemainingTime n)) \/
                displayOf (render o n) =
                  (hoursOf (totalDuration (st :: l')),
                   minutesOf (totalDuration (st :: l')),
                   secondsOf (totalDuration (st :: l'))))).
  { unfold displayOf.
    unfold render, countdownEffect, stepsEffect, remainingEffect, andThen.
    rewrite Hm, Es, El. cbn.
    break_effects; cbn; auto. }
  destruct Hr as [Hmain Hdisp].
  destruct (Z.eq_dec (mainTimerRemainingTime n) (totalDuration (st :: l')))
    as [E|E]; [right|left; congruence].
  unfold showsRemaining. rewrite Hmain. intros _.
  destruct Hdisp as [Hd|Hd]; rewrite Hd, ?E; reflexivity.
Qed.

Lemma commit_shows o n :
  mainTimerRemainingTime o <> mainTimerRemainingTime n \/ showsRemaining n ->
  showsRemaining (commit o n).
Proof.
  intros H. unfold commit. cbv zeta.
  apply render_shows_quiet; [apply render_then_noReseed|]. right.
  apply render_shows_quiet; [apply render_then_noReseed|].
  apply render_shows, H.
Qed.

Lemma tick_shows s n :
  showsRemaining s -> tick s = Some n ->
  mainTimerRemainingTime s <> mainTimerRemainingTime n \/ showsRemaining n.
Proof.
  intros Hs.
  unfold tick, intervalCallback, overallUpdater, stepUpdater, simpleUpdater,
    resetSteps.
  destruct (isMainTimerRunning s && negb (isPaused s));
    [|intros H; inversion H; subst; right; exact Hs].
  destruct (isUsingSteps s) eqn:Hm.
  - destruct (mainTimerRemainingTime s <=? 1) eqn:Eo;
      destruct (remainingTime s <=? 1);
      [ destruct (currentStepIndex s <? Z.of_nat (length (steps s)) - 1);
        [ destruct (stepAt (steps s) (currentStepIndex s + 1))
        | destruct (stepAt (steps s) 0) ]
      |
      | destruct (currentStepIndex s <? Z.of_nat (length (steps s)) - 1);
        [ destruct (stepAt (steps s) (currentStepIndex s + 1))
        | destruct (stepAt (steps s) 0) ]
      | ];
      cbn; try discriminate; intros H; inversion H; subst; clear H;
      unfold showsRemaining, displayOf;
      destruct (steps s) eqn:Hl; cbn; rewrite ?Hl;
      try (right; intros _; reflexivity);
      try (right; unfold totalDuration; cbn; intros; lia);
      left; lia.
  - destruct (mainTimerRemainingTime s <=? 1); cbn;
      intros H; inversion H; subst; cbn;
      [right; unfold showsRemaining; cbn; lia|left; lia].
Qed.

Lemma shows_kept s n :
  validEntry s -> showsRemaining s ->
  displayOf n = displayOf s \/
  (mainTimerRemainingTime n = inputTotal s /\
   displayOf n = (inputHours s, inputMinutes s, inputSeconds s)) \/
  mainTimerRemainingTime n = 0 ->
  mainTimerRemainingTime s <> mainTimerRemainingTime n \/ showsRemaining n.
Proof.
  rewrite validEntry_fields. intros Hv Hs [Hd|[[Hm Hd]|Hm]].
  - destruct (Z.eq_dec (mainTimerRemainingTime s) (mainTimerRemainingTime n))
      as [E|E]; [right|left; exact E].
    unfold showsRemaining. rewrite <- E, Hd. exact Hs.
  - right. unfold showsRemaining. rewrite Hm, Hd. intros _.
    destruct (clock_of_entry (inputHours s) (inputMinutes s) (inputSeconds s))
      as (E1 & E2 & E3); [lia..|].
    unfold inputTotal. rewrite E1, E2, E3. reflexivity.
  - right. unfold showsRemaining. rewrite Hm. lia.
Qed.

Lemma handle_shows e s n :
  validEntry s -> showsRemaining s -> handle e s = Some n ->
  mainTimerRemainingTime s <> mainTimerRemainingTime n \/ showsRemaining n.
Proof.
  intros Hv Hs Hh.
  destruct e; try (exact (tick_shows s n Hs Hh));
    cbn in Hh; inversion Hh; subst; clear Hh;
    apply shows_kept; try assumption;
    unfold startMainTimer, pauseMainTimer, resumeMainTimer, resetMainTimer,
      handleTimeChange, clearTimeInput, addStep, deleteStep, clearAllSteps,
      savePreset, loadPreset, deletePreset, stopAlarm, displayOf;
    break_effects; cbn; auto.
Qed.

Lemma dispatch_shows e s s' :
  validEntry s /\ showsRemaining s -> dispatch e s = Some s' ->
  validEntry s' /\ showsRemaining s'.
Proof.
  intros [Hv Hs] Hd. split; [exact (dispatch_validEntry e s s' Hv Hd)|].
  unfold dispatch in Hd. destruct (handle e s) as [n|] eqn:Hh; [|discriminate].
  cbn in Hd. inversion Hd; subst. apply commit_shows.
  exact (handle_shows e s n Hv Hs Hh).
Qed.

(** X16. Whenever time is left on the overall counter, the display
    variables hold exactly that time as hours, minutes and seconds, in every
    state the component reaches; so the countdown of a running or paused
    engine reads the overall time as [formatTime] writes it. *)
Theorem countdown_shows_remaining stored es s :
  run es (initialState stored) = Some s ->
  0 < mainTimerRemainingTime s ->
  displayOf s = (hoursOf (mainTimerRemainingTime s),
                 minutesOf (mainTimerRemainingTime s),
                 secondsOf (mainTimerRemainingTime s)) /\
  (isMainTimerRunning s = true \/ isPaused s = true ->
   countdownText s = formatTime (mainTimerRemainingTime s)).
Proof.
  intros Hrun Hpos.
  assert (H0 : validEntry (initialState stored) /\
               showsRemaining (initialState stored)).
  { split; [intros []; cbn; lia|]. unfold showsRemaining. cbn. lia. }
  destruct (run_invariant _ dispatch_shows es _ s H0 Hrun) as [_ Hs].
  specialize (Hs Hpos). split; [exact Hs|].
  intros Hon. unfold countdownText, formatTime.
  unfold displayOf in Hs. inversion Hs as [[Eh Em Es]].
  rewrite Eh, Em, Es.
  replace (negb (isMainTimerRunning s) && negb (isPaused s)) with false
    by (destruct Hon as [E|E]; rewrite E; cbn; auto using andb_false_r).
  reflexivity.
Qed.

(** ** The buttons of the bar *)

(** X17. [clearAllSteps], when [isRunning] is false, empties the list,
    returns to simple mode and takes the overall time and the display from
    the entry; the step index and the time of the step are zero.  The status
    of the engine stays: a simple countdown that runs goes on from the
    entry. *)
Theorem clearAllSteps_returns_to_entry s :
  isRunning s = false -> validEntry s ->
  exists s', dispatch ClearAllSteps s = Some s' /\
    steps s' = [] /\ isUsingSteps s' = false /\
    counters s' = (0, 0, inputTotal s) /\
    displayOf s' = (inputHours s, inputMinutes s, inputSeconds s) /\
    isMainTimerRunning s' = isMainTimerRunning s /\
    isPaused s' = isPaused s /\ presets s' = presets s.
Proof.
  rewrite validEntry_fields. intros Hr Hv.
  unfold dispatch, handle, clearAllSteps. rewrite Hr.
  cbn [mbind option_bind negb]. eexists. split; [reflexivity|].
  match goal with |- context [commit s ?x] => set (n := x) end.
  assert (Hn : noReseed s n) by (right; left; reflexivity).
  destruct (commit_untouched s n)
    as (_ & _ & _ & _ & Ksteps & _ & _ & Kindex & Kstep & Kmain & Kpaused &
        Kpresets & Kmode & _).
  pose proof (commit_main_quiet s n Hn) as Kover.
  pose proof (commit_display_quiet s n Hn) as Kdisp.
  unfold counters. rewrite Ksteps, Kmode, Kindex, Kstep, Kmain, Kpaused,
    Kpresets, Kover, Kdisp.
  repeat (split; [reflexivity|]).
  split; [|repeat split; reflexivity].
  destruct (negb (mainTimerRemainingTime s =? mainTimerRemainingTime n)
            && (0 <? mainTimerRemainingTime n)); [|reflexivity].
  change (mainTimerRemainingTime n) with (inputTotal s).
  destruct (clock_of_entry (inputHours s) (inputMinutes s) (inputSeconds s))
    as (E1 & E2 & E3); [lia..|].
  unfold inputTotal. rewrite E1, E2, E3. reflexivity.
Qed.

(** X18. Whenever the first button of the bar is enabled and reads Start,
    pressing it starts the engine: sequential mode if there are steps, and
    otherwise simple mode with the entry as the overall time. *)
Theorem start_button_starts s :
  validEntry s -> mainButton s = Some Start ->
  exists s', dispatch Start s = Some s' /\
    isMainTimerRunning s' = true /\ isPaused s' = false /\
    isUsingSteps s' = match steps s with [] => false | _ :: _ => true end /\
    (steps s = [] -> mainTimerRemainingTime s' = inputTotal s).
Proof.
  rewrite validEntry_fields. intros Hv Hb. unfold mainButton in Hb.
  destruct (isPaused s) eqn:Hp; [discriminate|]. cbn in Hb.
  destruct (startDisabled s) eqn:Hd; [discriminate|].
  destruct (isMainTimerRunning s) eqn:Hr; [discriminate|]. clear Hb.
  destruct (steps s) as [|st l'] eqn:Hl.
  - assert (Ht : 0 < inputTotal s).
    { unfold startDisabled in Hd. rewrite Hl in Hd. cbn in Hd.
      unfold inputTotal.
      destruct (Z.eqb_spec (inputHours s) 0);
        destruct (Z.eqb_spec (inputMinutes s) 0);
        destruct (Z.eqb_spec (inputSeconds s) 0);
        try discriminate; lia. }
    destruct (start_simple s Hl Hr Ht) as (s1 & Hd1 & [H1 H2 H3 H4 _ _]).
    exists s1. auto.
  - unfold dispatch, handle, startMainTimer. rewrite Hl, Hp, Hr.
    cbn [mbind option_bind negb]. eexists. split; [reflexivity|].
    match goal with |- context [commit s ?x] => set (n := x) end.
    destruct (commit_untouched s n)
      as (_ & _ & _ & _ & _ & _ & _ & _ & _ & Kmain & Kpaused & _ & Kmode & _).
    rewrite Kmain, Kpaused, Kmode.
    repeat split; try reflexivity. discriminate.
Qed.

(** ** The further theorems at work *)

Lemma storage_mirrors_presets_witness :
  run [Adjust Seconds 1; Adjust Seconds 1; Adjust Seconds 1;
       SetTimerName "A"; AddStep 1700000000000; Adjust Seconds (-1);
       SetTimerName "B"; AddStep 1700000004000;
       SavePreset "AB" 1700000009000] (initialState []) = Some savedAB /\
  storage savedAB = presets savedAB.
Proof.
  split; [reflexivity|].
  apply (storage_mirrors_presets []
           [Adjust Seconds 1; Adjust Seconds 1; Adjust Seconds 1;
            SetTimerName "A"; AddStep 1700000000000; Adjust Seconds (-1);
            SetTimerName "B"; AddStep 1700000004000;
            SavePreset "AB" 1700000009000] savedAB).
  reflexivity.
Defined.

(** The preset collection of [savedAB] holds "AB" alone, on the screen and
    in storage. *)
Example savedAB_presets :
  presets savedAB = [presetAB] /\ storage savedAB = [presetAB].
Proof. split; reflexivity. Qed.

Lemma entry_stays_valid_witness :
  run [Adjust Hours (-1)] (initialState []) = Some hourDown /\
  validEntry hourDown.
Proof.
  split; [reflexivity|].
  apply (entry_stays_valid [] [Adjust Hours (-1)] hourDown). reflexivity.
Defined.

Lemma never_paused_and_running_witness :
  run [Adjust Seconds 1; Adjust Seconds 1; Start; Pause] (initialState [])
    = Some pausedAtTwo /\
  isPaused pausedAtTwo && isMainTimerRunning pausedAtTwo = false.
Proof.
  split; [reflexivity|].
  apply (never_paused_and_running []
           [Adjust Seconds 1; Adjust Seconds 1; Start; Pause] pausedAtTwo).
  reflexivity.
Defined.

Lemma steps_last_a_second_witness :
  Forall (fun preset => positive (Preset.steps preset)) [] /\
  offeredRun [Adjust Seconds 1; Adjust Seconds 1; Adjust Seconds 1;
              SetTimerName "A"; AddStep 1700000000000; Adjust Seconds (-1);
              SetTimerName "B"; AddStep 1700000004000;
              SavePreset "AB" 1700000009000; ClearAllSteps;
              LoadPreset presetAB] (initialState []) /\
  run [Adjust Seconds 1; Adjust Seconds 1; Adjust Seconds 1;
       SetTimerName "A"; AddStep 1700000000000; Adjust Seconds (-1);
       SetTimerName "B"; AddStep 1700000004000;
       SavePreset "AB" 1700000009000; ClearAllSteps;
       LoadPreset presetAB] (initialState []) = Some reloadedAB /\
  positive (steps reloadedAB) /\
  Forall (fun preset => positive (Preset.steps preset)) (presets reloadedAB).
Proof.
  assert (Ho : offeredRun
            [Adjust Seconds 1; Adjust Seconds 1; Adjust Seconds 1;
             SetTimerName "A"; AddStep 1700000000000; Adjust Seconds (-1);
             SetTimerName "B"; AddStep 1700000004000;
             SavePreset "AB" 1700000009000; ClearAllSteps;
             LoadPreset presetAB] (initialState []))
    by (vm_compute; repeat split; left; reflexivity).
  split; [constructor|]. split; [exact Ho|]. split; [reflexivity|].
  apply (steps_last_a_second []
           [Adjust Seconds 1; Adjust Seconds 1; Adjust Seconds 1;
            SetTimerName "A"; AddStep 1700000000000; Adjust Seconds (-1);
            SetTimerName "B"; AddStep 1700000004000;
            SavePreset "AB" 1700000009000; ClearAllSteps;
            LoadPreset presetAB] reloadedAB);
    [constructor|exact Ho|reflexivity].
Defined.

Lemma pause_resume_restores_witness :
  running stepARunning = true /\ committed stepARunning /\
  run (Pause :: repeat Tick 3 ++ [Resume]) stepARunning
    = Some (setIsRunning true stepARunning).
Proof.
  split; [reflexivity|]. split; [reflexivity|].
  apply (pause_resume_restores 3 stepARunning); reflexivity.
Defined.

Lemma start_without_duration_witness :
  steps (initialState []) = [] /\ inputTotal (initialState []) <= 0 /\
  committed (initialState []) /\
  dispatch Start (initialState []) = Some (stopAlarm (initialState [])).
Proof.
  split; [reflexivity|]. split; [vm_compute; discriminate|].
  split; [reflexivity|].
  apply (start_without_duration (initialState []));
    [reflexivity|vm_compute; discriminate|reflexivity].
Defined.

Lemma deleteStep_reseeds_witness :
  isRunning stepsAB = false /\ isMainTimerRunning stepsAB = false /\
  isPaused stepsAB = false /\ isUsingSteps stepsAB = true /\
  exists s', dispatch (DeleteStep 1700000000000) stepsAB = Some s' /\
    steps s' =
      List.filter (fun step => negb (TimerStep.id step =? 1700000000000))
                  (steps stepsAB) /\
    match steps s' with
    | [] => isUsingSteps s' = false
    | _ :: _ => Seeded (steps s') s'
    end.
Proof.
  repeat (split; [reflexivity|]).
  apply (deleteStep_reseeds 1700000000000 stepsAB); reflexivity.
Defined.

(** Without A the list of [stepsAB] is B alone, and the overall time its two
    seconds. *)
Example stepsAB_without_A :
  exists s', dispatch (DeleteStep 1700000000000) stepsAB = Some s' /\
    steps s' = [stepB] /\ mainTimerRemainingTime s' = 2 /\
    displayOf s' = (0, 0, 2).
Proof. eexists. vm_compute. repeat split; reflexivity. Qed.

Lemma loadPreset_reseeds_witness :
  Preset.steps presetAB <> [] /\
  exists s', dispatch (LoadPreset presetAB) fiveSeconds = Some s' /\
    steps s' = Preset.steps presetAB /\ isUsingSteps s' = true /\
    mainTimerRemainingTime s' = totalDuration (Preset.steps presetAB) /\
    isMainTimerRunning s' = isMainTimerRunning fiveSeconds /\
    isPaused s' = isPaused fiveSeconds /\
    isRunning s' = isRunning fiveSeconds /\
    currentStepIndex s' = currentStepIndex fiveSeconds /\
    remainingTime s' = remainingTime fiveSeconds /\
    presets s' = presets fiveSeconds.
Proof.
  split; [discriminate|].
  apply (loadPreset_reseeds presetAB fiveSeconds). discriminate.
Defined.

Lemma save_then_load_restores_witness :
  steps stepsAB <> [] /\
  Forall stepEdit [AddStep 1700000012000; DeleteStep 1700000000000;
                   ClearAllSteps] /\
  exists s1 s2 s',
    dispatch (SavePreset "AB" 1700000009000) stepsAB = Some s1 /\
    presets s1 = presets stepsAB ++
                 [Preset.mk 1700000009000 "AB" (steps stepsAB)] /\
    run [AddStep 1700000012000; DeleteStep 1700000000000; ClearAllSteps] s1
      = Some s2 /\
    In (Preset.mk 1700000009000 "AB" (steps stepsAB)) (presets s2) /\
    dispatch (LoadPreset (Preset.mk 1700000009000 "AB" (steps stepsAB))) s2
      = Some s' /\
    steps s' = steps stepsAB /\ isUsingSteps s' = true /\
    mainTimerRemainingTime s' = totalDuration (steps stepsAB).
Proof.
  assert (He : Forall stepEdit [AddStep 1700000012000;
                                DeleteStep 1700000000000; ClearAllSteps])
    by (repeat constructor).
  split; [discriminate|]. split; [exact He|].
  apply (save_then_load_restores "AB" 1700000009000
           [AddStep 1700000012000; DeleteStep 1700000000000; ClearAllSteps]
           stepsAB); [discriminate|exact He].
Defined.

Lemma wheel_gives_preview_witness :
  isMainTimerRunning fiveSeconds = false /\ validEntry fiveSeconds /\
  exists s', dispatch (Adjust Hours (wheelDelta 100)) fiveSeconds = Some s' /\
    entry Hours s' =
      (if 0 <? 100 then prevValue (entry Hours fiveSeconds) (maxOf Hours)
       else nextValue (entry Hours fiveSeconds) (maxOf Hours)) /\
    0 <= entry Hours s' <= maxOf Hours /\
    prevValue (nextValue (entry Hours fiveSeconds) (maxOf Hours))
              (maxOf Hours) = entry Hours fiveSeconds /\
    nextValue (prevValue (entry Hours fiveSeconds) (maxOf Hours))
              (maxOf Hours) = entry Hours fiveSeconds.
Proof.
  split; [reflexivity|]. split; [exact validEntry_fiveSeconds|].
  apply (wheel_gives_preview Hours 100 fiveSeconds);
    [reflexivity|exact validEntry_fiveSeconds].
Defined.

Lemma formatTime_faithful_witness :
  0 <= 3725 < 360000 /\ 0 <= 59 < 360000 /\
  String.length (formatTime 3725) = 8%nat /\
  (formatTime 3725 = formatTime 59 -> 3725 = 59).
Proof.
  split; [lia|]. split; [lia|].
  apply (formatTime_faithful 3725 59); lia.
Defined.

(** An hour, two minutes and five seconds. *)
Example formatTime_3725 : formatTime 3725 = "01:02:05".
Proof. reflexivity. Qed.

Lemma alarm_trigger_restarts_deadline_witness :
  Alarm.audio Alarm.ringing = Some (Alarm.mkAudio false 5) /\
  (Alarm.nextTimer Alarm.ringing ∉ Alarm.timers Alarm.ringing) /\
  Alarm.timers (Alarm.playAlarm true false Alarm.ringing)
    = {[ Alarm.nextTimer Alarm.ringing ]} /\
  Alarm.timeoutRef (Alarm.playAlarm true false Alarm.ringing)
    = Some (Alarm.nextTimer Alarm.ringing) /\
  Alarm.isAlarmPlaying (Alarm.playAlarm true false Alarm.ringing) = true /\
  Alarm.audio (Alarm.playAlarm true false Alarm.ringing)
    = Some (Alarm.mkAudio false 0).
Proof.
  split; [reflexivity|].
  apply (alarm_trigger_restarts_deadline
           [Alarm.Play false true; Alarm.Elapse 5] true false
           (Alarm.mkAudio false 5)).
  reflexivity.
Defined.

Lemma countdown_shows_remaining_witness :
  run [Adjust Seconds 1; Adjust Seconds 1; Adjust Seconds 1;
       SetTimerName "A"; AddStep 1700000000000; Start; Tick] (initialState [])
    = Some stepARunning /\
  0 < mainTimerRemainingTime stepARunning /\
  displayOf stepARunning =
    (hoursOf (mainTimerRemainingTime stepARunning),
     minutesOf (mainTimerRemainingTime stepARunning),
     secondsOf (mainTimerRemainingTime stepARunning)) /\
  (isMainTimerRunning stepARunning = true \/ isPaused stepARunning = true ->
   countdownText stepARunning
     = formatTime (mainTimerRemainingTime stepARunning)).
Proof.
  split; [reflexivity|]. split; [reflexivity|].
  apply (countdown_shows_remaining []
           [Adjust Seconds 1; Adjust Seconds 1; Adjust Seconds 1;
            SetTimerName "A"; AddStep 1700000000000; Start; Tick]
           stepARunning); reflexivity.
Defined.

(** While step A runs with two seconds left the countdown reads
    00:00:02. *)
Example stepARunning_text : countdownText stepARunning = "00:00:02".
Proof. reflexivity. Qed.

Lemma validEntry_stepsAB : validEntry stepsAB.
Proof. intros []; cbn; lia. Defined.

Lemma clearAllSteps_returns_to_entry_witness :
  isRunning stepsAB = false /\ validEntry stepsAB /\
  exists s', dispatch ClearAllSteps stepsAB = Some s' /\
    steps s' = [] /\ isUsingSteps s' = false /\
    counters s' = (0, 0, inputTotal stepsAB) /\
    displayOf s' = (inputHours stepsAB, inputMinutes stepsAB,
                    inputSeconds stepsAB) /\
    isMainTimerRunning s' = isMainTimerRunning stepsAB /\
    isPaused s' = isPaused stepsAB /\ presets s' = presets stepsAB.
Proof.
  split; [reflexivity|]. split; [exact validEntry_stepsAB|].
  apply (clearAllSteps_returns_to_entry stepsAB);
    [reflexivity|exact validEntry_stepsAB].
Defined.

Lemma start_button_starts_witness :
  validEntry fiveSeconds /\ mainButton fiveSeconds = Some Start /\
  exists s', dispatch Start fiveSeconds = Some s' /\
    isMainTimerRunning s' = true /\ isPaused s' = false /\
    isUsingSteps s' =
      match steps fiveSeconds with [] => false | _ :: _ => true end /\
    (steps fiveSeconds = [] ->
     mainTimerRemainingTime s' = inputTotal fiveSeconds).
Proof.
  split; [exact validEntry_fiveSeconds|]. split; [reflexivity|].
  apply (start_button_starts fiveSeconds);
    [exact validEntry_fiveSeconds|reflexivity].
Defined.
